(** * Neuroglancer: segment identity state, off-screen GPU surfaces and the
      skeleton render layer

    Shallow embedding of
    - the off-screen rendering module ([SizeManaged], [Renderbuffer],
      [TextureBuffer], [FramebufferConfiguration]),
    - [segmentation_user_layer.ts] ([SegmentationUserLayer]),
    - [skeleton/frontend.ts] ([SkeletonLayer.draw]),
    followed by the properties the specification states about them.

    Objects are modelled by their state; a method takes the state of [this]
    and returns the new one.  The rendering context is modelled by the
    history of the calls made on it, so that what was issued, how often and
    in which order can be read off the result. *)

From Stdlib Require Import ZArith QArith Lia DecimalString DecimalN.
From stdpp Require Import base list gmap strings.

Local Open Scope Z_scope.

(** ** JavaScript numbers

    A [number] is either [NaN] or a numeric value.  Only comparison and
    [Math.min] are used on such values by the code below; both are exact on
    doubles, so a rational payload is enough. *)

Inductive number :=
| NaN
| Num (q : Q).

(** [a === b] on numbers: [NaN] is different from everything, itself included. *)
Definition strict_eq (a b : number) : bool :=
  match a, b with
  | Num x, Num y => Qeq_bool x y
  | _, _ => false
  end.

(** [a <= b] on numbers: false as soon as one side is [NaN]. *)
Definition num_le (a b : number) : bool :=
  match a, b with
  | Num x, Num y => Qle_bool x y
  | _, _ => false
  end.

(** [Math.min(a, b)]. *)
Definition math_min (a b : number) : number :=
  match a, b with
  | Num x, Num y => Num (if Qle_bool x y then x else y)
  | _, _ => NaN
  end.

Definition num_of_Z (z : Z) : number := Num (inject_Z z).

(** ** 32-bit integer operators of JavaScript *)

(** [ToInt32]: reduction modulo 2^32 into the signed range. *)
Definition to_int32 (z : Z) : Z := (z + 2 ^ 31) mod 2 ^ 32 - 2 ^ 31.

(** [x << n]: both operands go through [ToInt32]/[ToUint32], the shift count
    is taken modulo 32 and the result is again a signed 32-bit integer. *)
Definition js_shl (x n : Z) : Z :=
  to_int32 (Z.shiftl (to_int32 x) (Z.land n 31)).

(** ** Off-screen GPU surfaces *)

(** The constants of the WebGL 1 rendering context the module names. *)
Module GLConst.
Definition RENDERBUFFER : Z := 0x8D41.
Definition FRAMEBUFFER : Z := 0x8D40.
Definition TEXTURE_2D : Z := 0x0DE1.
Definition RGBA : Z := 0x1908.
Definition UNSIGNED_BYTE : Z := 0x1401.
Definition COLOR_ATTACHMENT0 : Z := 0x8CE0.
Definition DEPTH_ATTACHMENT : Z := 0x8D00.
Definition DEPTH_STENCIL_ATTACHMENT : Z := 0x821A.
Definition DEPTH_COMPONENT16 : Z := 0x81A5.
Definition DEPTH_STENCIL : Z := 0x84F9.
Definition FRAMEBUFFER_COMPLETE : Z := 0x8CD5.
Definition FRAMEBUFFER_UNSUPPORTED : Z := 0x8CDD.
End GLConst.
Import GLConst.

(** A WebGL object ([WebGLRenderbuffer], [WebGLTexture], [WebGLFramebuffer]);
    [None] is JavaScript's [null]. *)
Abbreviation handle := nat.

(** The calls the module makes on the rendering context.  The context is
    modelled by the history of those calls, oldest first.  [resizeTexture] is
    the helper of [webgl/texture] that [TextureBuffer.performResize] calls; it
    is not among the sources and is kept as one step, the one that, in the
    words of section 4.4, releases and reallocates the storage of the
    texture. *)
Inductive GLCall :=
| createRenderbuffer
| createTexture
| createFramebuffer
| bindRenderbuffer (target : Z) (rb : option handle)
| renderbufferStorage (target internalformat : Z) (w h : number)
| resizeTexture (tex : option handle) (w h : number) (format dataType : Z)
| bindFramebuffer (target : Z) (fb : option handle)
| framebufferRenderbuffer (target attachment rbtarget : Z) (rb : option handle)
| framebufferTexture2D (target attachment textarget : Z) (tex : option handle) (level : Z)
| drawBuffersWEBGL (attachments : list Z)
| checkFramebufferStatus (target : Z)
| viewport (x y : Z) (w h : number)
| readPixels (x y : number) (w h : Z) (format type : Z).

Abbreviation GL := (list GLCall).

Definition emit (c : GLCall) (gl : GL) : GL := gl ++ [c].

(** The object a [create*] call returns: a handle no earlier call returned. *)
Definition fresh (gl : GL) : handle := length gl.

(** Calls that (re)allocate the storage behind a surface: what the
    allocation counter of section 8 counts. *)
Definition allocates (c : GLCall) : bool :=
  match c with
  | renderbufferStorage _ _ _ _ | resizeTexture _ _ _ _ _ => true
  | _ => false
  end.

Definition allocations (gl : GL) : nat := length (filter (λ c, allocates c = true) gl).

Definition is_status_query (c : GLCall) : bool :=
  match c with checkFramebufferStatus _ => true | _ => false end.

(** Number of completeness validations the context has been asked for. *)
Definition validations (gl : GL) : nat :=
  length (filter (λ c, is_status_query c = true) gl).

(** A call either returns or throws; in both cases the state reached is kept. *)
Inductive outcome (S A : Type) :=
| Returned (a : A) (s : S)
| Thrown (msg : string) (s : S).
Arguments Returned {S A} a s.
Arguments Thrown {S A} msg s.

Definition final_state {S A} (o : outcome S A) : S :=
  match o with Returned _ s | Thrown _ s => s end.

Definition has_thrown {S A} (o : outcome S A) : bool :=
  match o with Returned _ _ => false | Thrown _ _ => true end.

(** *** [SizeManaged] *)

(** The abstract class: its two fields and the abstract method
    [performResize]. *)
Class SizeManaged (T : Type) := {
  width : T → number;
  height : T → number;
  set_size : number → number → T → T;
  performResize : T → GL → GL;
}.

Section SizeManaged_methods.
Context {T : Type} `{SizeManaged T}.

Definition hasSize (this : T) (w h : number) : bool :=
  strict_eq (width this) w && strict_eq (height this) h.

Definition resize (this : T) (w h : number) (gl : GL) : T * GL :=
  if hasSize this w h then (this, gl)
  else
    let this' := set_size w h this in
    (this', performResize this' gl).

End SizeManaged_methods.

(** *** [Renderbuffer] *)

Record Renderbuffer := {
  rb_width : number;
  rb_height : number;
  renderbuffer : option handle;
  internalformat : Z;
}.

Definition new_Renderbuffer (gl : GL) (internalformat : Z) : Renderbuffer * GL :=
  ({| rb_width := NaN; rb_height := NaN;
      renderbuffer := Some (fresh gl); internalformat := internalformat |},
   emit createRenderbuffer gl).

Definition Renderbuffer_performResize (this : Renderbuffer) (gl : GL) : GL :=
  let gl := emit (bindRenderbuffer RENDERBUFFER (renderbuffer this)) gl in
  let gl := emit (renderbufferStorage RENDERBUFFER (internalformat this)
                    (rb_width this) (rb_height this)) gl in
  emit (bindRenderbuffer RENDERBUFFER None) gl.

#[global] Instance Renderbuffer_SizeManaged : SizeManaged Renderbuffer := {|
  width := rb_width;
  height := rb_height;
  set_size w h this :=
    {| rb_width := w; rb_height := h;
       renderbuffer := renderbuffer this; internalformat := internalformat this |};
  performResize := Renderbuffer_performResize;
|}.

Definition Renderbuffer_attachToFramebuffer (this : Renderbuffer) (attachment : Z)
    (gl : GL) : GL :=
  emit (framebufferRenderbuffer FRAMEBUFFER attachment RENDERBUFFER (renderbuffer this)) gl.

(** *** [DepthBuffer] (a [Renderbuffer] that knows its attachment point) *)

Record DepthBuffer := {
  db_super : Renderbuffer;
  includeStencilBuffer : bool;
}.

Definition new_DepthBuffer (gl : GL) (includeStencilBuffer : bool) : DepthBuffer * GL :=
  let '(rb, gl) :=
    new_Renderbuffer gl (if includeStencilBuffer then DEPTH_STENCIL else DEPTH_COMPONENT16) in
  ({| db_super := rb; includeStencilBuffer := includeStencilBuffer |}, gl).

#[global] Instance DepthBuffer_SizeManaged : SizeManaged DepthBuffer := {|
  width this := rb_width (db_super this);
  height this := rb_height (db_super this);
  set_size w h this :=
    {| db_super := set_size w h (db_super this);
       includeStencilBuffer := includeStencilBuffer this |};
  performResize this := Renderbuffer_performResize (db_super this);
|}.

Definition DepthBuffer_attachToFramebuffer (this : DepthBuffer) (gl : GL) : GL :=
  Renderbuffer_attachToFramebuffer (db_super this)
    (if includeStencilBuffer this then DEPTH_STENCIL_ATTACHMENT else DEPTH_ATTACHMENT) gl.

(** [DepthStencilBuffer] (and [StencilBuffer], another name for it). *)
Definition new_DepthStencilBuffer (gl : GL) : DepthBuffer * GL := new_DepthBuffer gl true.

(** *** [TextureBuffer] *)

Record TextureBuffer := {
  tb_width : number;
  tb_height : number;
  texture : option handle;
  format : Z;
  dataType : Z;
}.

Definition new_TextureBuffer (gl : GL) (format dataType : Z) : TextureBuffer * GL :=
  ({| tb_width := NaN; tb_height := NaN;
      texture := Some (fresh gl); format := format; dataType := dataType |},
   emit createTexture gl).

Definition TextureBuffer_performResize (this : TextureBuffer) (gl : GL) : GL :=
  emit (resizeTexture (texture this) (tb_width this) (tb_height this)
          (format this) (dataType this)) gl.

#[global] Instance TextureBuffer_SizeManaged : SizeManaged TextureBuffer := {|
  width := tb_width;
  height := tb_height;
  set_size w h this :=
    {| tb_width := w; tb_height := h; texture := texture this;
       format := format this; dataType := dataType this |};
  performResize := TextureBuffer_performResize;
|}.

Definition TextureBuffer_attachToFramebuffer (this : TextureBuffer) (attachment : Z)
    (gl : GL) : GL :=
  emit (framebufferTexture2D FRAMEBUFFER attachment TEXTURE_2D (texture this) 0) gl.

Fixpoint makeTextureBuffers (gl : GL) (count : nat) (format dataType : Z)
    : list TextureBuffer * GL :=
  match count with
  | O => ([], gl)
  | S n =>
      let '(t, gl) := new_TextureBuffer gl format dataType in
      let '(ts, gl) := makeTextureBuffers gl n format dataType in
      (t :: ts, gl)
  end.

(** *** [Framebuffer] *)

Record Framebuffer := { framebuffer_handle : option handle }.

Definition new_Framebuffer (gl : GL) : Framebuffer * GL :=
  ({| framebuffer_handle := Some (fresh gl) |}, emit createFramebuffer gl).

Definition Framebuffer_bind (this : Framebuffer) (gl : GL) : GL :=
  emit (bindFramebuffer FRAMEBUFFER (framebuffer_handle this)) gl.

Definition Framebuffer_unbind (this : Framebuffer) (gl : GL) : GL :=
  emit (bindFramebuffer FRAMEBUFFER None) gl.

(** *** [FramebufferConfiguration] *)

(** [ColorBuffer extends TextureBuffer|Renderbuffer].  A configuration is
    modelled as holding the state of its buffers; the properties below are
    about one configuration and do not depend on a buffer being shared. *)
Inductive ColorBuffer :=
| ColorTexture (t : TextureBuffer)
| ColorRenderbuffer (r : Renderbuffer).

#[global] Instance ColorBuffer_SizeManaged : SizeManaged ColorBuffer := {|
  width b := match b with ColorTexture t => width t | ColorRenderbuffer r => width r end;
  height b := match b with ColorTexture t => height t | ColorRenderbuffer r => height r end;
  set_size w h b :=
    match b with
    | ColorTexture t => ColorTexture (set_size w h t)
    | ColorRenderbuffer r => ColorRenderbuffer (set_size w h r)
    end;
  performResize b :=
    match b with
    | ColorTexture t => performResize t
    | ColorRenderbuffer r => performResize r
    end;
|}.

Definition ColorBuffer_attachToFramebuffer (b : ColorBuffer) (attachment : Z) (gl : GL) : GL :=
  match b with
  | ColorTexture t => TextureBuffer_attachToFramebuffer t attachment gl
  | ColorRenderbuffer r => Renderbuffer_attachToFramebuffer r attachment gl
  end.

Record FramebufferConfiguration := {
  fc_width : number;
  fc_height : number;
  colorBuffers : list ColorBuffer;
  framebuffer : Framebuffer;
  depthBuffer : option DepthBuffer;
  fullAttachmentList : list Z;
  attachmentVerified : bool;
  singleAttachmentList : list Z;
}.

(** The argument of the constructor. *)
Record Configuration := {
  cfg_framebuffer : option Framebuffer;
  cfg_colorBuffers : list ColorBuffer;
  cfg_depthBuffer : option DepthBuffer;
}.

Definition new_FramebufferConfiguration (gl : GL) (configuration : Configuration)
    : FramebufferConfiguration * GL :=
  let '(fb, gl) :=
    match cfg_framebuffer configuration with
    | Some fb => (fb, gl)
    | None => new_Framebuffer gl
    end in
  ({| fc_width := NaN; fc_height := NaN;
      colorBuffers := cfg_colorBuffers configuration;
      framebuffer := fb;
      depthBuffer := cfg_depthBuffer configuration;
      fullAttachmentList :=
        imap (λ i _, COLOR_ATTACHMENT0 + Z.of_nat i) (cfg_colorBuffers configuration);
      attachmentVerified := false;
      singleAttachmentList := [COLOR_ATTACHMENT0] |},
   gl).

Definition FramebufferConfiguration_hasSize (this : FramebufferConfiguration)
    (w h : number) : bool :=
  strict_eq (fc_width this) w && strict_eq (fc_height this) h.

Definition set_attachmentVerified (v : bool) (this : FramebufferConfiguration)
    : FramebufferConfiguration :=
  {| fc_width := fc_width this; fc_height := fc_height this;
     colorBuffers := colorBuffers this; framebuffer := framebuffer this;
     depthBuffer := depthBuffer this; fullAttachmentList := fullAttachmentList this;
     attachmentVerified := v; singleAttachmentList := singleAttachmentList this |}.

(** The body of [this.colorBuffers.forEach((buffer, i) => ...)] in [bind],
    started at index [i].  Each entry of the array is held as a buffer of its
    own: this is the loop on an array whose entries are distinct objects (an
    object that occurs twice would be found resized at its second
    occurrence). *)
Fixpoint bind_colorBuffers (i : nat) (bufs : list ColorBuffer) (w h : number) (gl : GL)
    : list ColorBuffer * GL :=
  match bufs with
  | [] => ([], gl)
  | buffer :: rest =>
      let '(buffer, gl) := resize buffer w h gl in
      let gl := ColorBuffer_attachToFramebuffer buffer (COLOR_ATTACHMENT0 + Z.of_nat i) gl in
      let '(rest, gl) := bind_colorBuffers (S i) rest w h gl in
      (buffer :: rest, gl)
  end.

Section Driver.

(** What the driver answers to [gl.checkFramebufferStatus(gl.FRAMEBUFFER)]
    after a given history of calls, and the four bytes [gl.readPixels] leaves
    in [tempPixel]. *)
Variable framebufferStatus : GL → Z.
Variable pixelAt : GL → number → number → Z * Z * Z * Z.

Definition verifyAttachment (this : FramebufferConfiguration) (gl : GL)
    : outcome (FramebufferConfiguration * GL) unit :=
  if attachmentVerified this then Returned tt (this, gl)
  else
    let status := framebufferStatus gl in
    let gl := emit (checkFramebufferStatus FRAMEBUFFER) gl in
    if negb (status =? FRAMEBUFFER_COMPLETE) then
      Thrown "Framebuffer configuration not supported" (this, gl)
    else Returned tt (set_attachmentVerified true this, gl).

Definition FramebufferConfiguration_bind (this : FramebufferConfiguration)
    (w h : number) (gl : GL) : outcome (FramebufferConfiguration * GL) unit :=
  let gl := Framebuffer_bind (framebuffer this) gl in
  let '(depth, gl) :=
    match depthBuffer this with
    | Some depthBuffer =>
        let '(d, gl) := resize depthBuffer w h gl in
        (Some d, DepthBuffer_attachToFramebuffer d gl)
    | None => (None, gl)
    end in
  let '(colors, gl) := bind_colorBuffers 0 (colorBuffers this) w h gl in
  let gl := emit (drawBuffersWEBGL (fullAttachmentList this)) gl in
  let this :=
    {| fc_width := w; fc_height := h; colorBuffers := colors;
       framebuffer := framebuffer this; depthBuffer := depth;
       fullAttachmentList := fullAttachmentList this;
       attachmentVerified := attachmentVerified this;
       singleAttachmentList := singleAttachmentList this |} in
  match verifyAttachment this gl with
  | Thrown msg s => Thrown msg s
  | Returned _ (this, gl) => Returned tt (this, emit (viewport 0 0 w h) gl)
  end.

(** [colorBuffers[textureIndex]] is [undefined] out of range, and calling a
    method on it throws a [TypeError]. *)
Definition bindSingle (this : FramebufferConfiguration) (textureIndex : nat) (gl : GL)
    : outcome GL unit :=
  let gl := Framebuffer_bind (framebuffer this) gl in
  match colorBuffers this !! textureIndex with
  | None => Thrown "TypeError" gl
  | Some buffer =>
      let gl := ColorBuffer_attachToFramebuffer buffer COLOR_ATTACHMENT0 gl in
      Returned tt (emit (drawBuffersWEBGL (singleAttachmentList this)) gl)
  end.

Definition FramebufferConfiguration_unbind (this : FramebufferConfiguration) (gl : GL) : GL :=
  Framebuffer_unbind (framebuffer this) gl.

(** [try { bindSingle; gl.readPixels } finally { unbind }; return tempPixel]. *)
Definition readPixel (this : FramebufferConfiguration) (textureIndex : nat)
    (glWindowX glWindowY : number) (gl : GL) : outcome GL (Z * Z * Z * Z) :=
  match bindSingle this textureIndex gl with
  | Thrown msg gl => Thrown msg (Framebuffer_unbind (framebuffer this) gl)
  | Returned _ gl =>
      let tempPixel := pixelAt gl glWindowX glWindowY in
      let gl := emit (readPixels glWindowX glWindowY 1 1 RGBA UNSIGNED_BYTE) gl in
      Returned tempPixel (Framebuffer_unbind (framebuffer this) gl)
  end.

(** [result[0] + (result[1] << 8) + (result[2] << 16) + (result[3] << 24)]:
    the shifts are 32-bit, the additions are those of numbers. *)
Definition pixel_as_number (result : Z * Z * Z * Z) : Z :=
  let '(r0, r1, r2, r3) := result in
  r0 + js_shl r1 8 + js_shl r2 16 + js_shl r3 24.

Definition readPixelAsUint32 (this : FramebufferConfiguration) (textureIndex : nat)
    (glWindowX glWindowY : number) (gl : GL) : outcome GL Z :=
  match readPixel this textureIndex glWindowX glWindowY gl with
  | Thrown msg gl => Thrown msg gl
  | Returned result gl => Returned (pixel_as_number result) gl
  end.

End Driver.

(** ** 64-bit identifiers ([util/uint64]) *)

Module Uint64.

(** The two 32-bit words of [new Uint64(low, high)]. *)
Record t := mk { low : Z; high : Z }.

(** Both words are 32-bit unsigned values. *)
Definition valid (x : t) : Prop :=
  0 ≤ low x < 2 ^ 32 ∧ 0 ≤ high x < 2 ^ 32.

Definition toZ (x : t) : Z := low x + 2 ^ 32 * high x.

Definition ofZ (n : Z) : t := {| low := n mod 2 ^ 32; high := n / 2 ^ 32 |}.

(** Modelled from the spec: [Uint64.equal] of [util/uint64], which is not
    among the sources; section 3 makes equality of identifiers bitwise. *)
Definition equal (a b : t) : bool :=
  (low a =? low b) && (high a =? high b).

(** Modelled from the spec: [Uint64.parseString(s, 10)] of [util/uint64],
    which is not among the sources.  Section 2 asks for exact parsing in a
    given radix and section 6 fixes the persisted form to a decimal string of
    a 64-bit unsigned value; a string that is not one makes the call throw
    (section 7 (d)), which is [None] here. *)
Definition parseString (s : string) : option t :=
  match NilZero.uint_of_string s with
  | Some d =>
      let n := Z.of_N (N.of_uint d) in
      if n <? 2 ^ 64 then Some (ofZ n) else None
  | None => None
  end.

(** Modelled from the spec: [Uint64.prototype.toString()] of [util/uint64],
    which is not among the sources; the decimal form of the value. *)
Definition toString (x : t) : string :=
  NilZero.string_of_uint (N.to_uint (Z.to_N (toZ x))).

End Uint64.

#[global] Instance Uint64_eq_dec : EqDecision Uint64.t.
Proof. solve_decision. Defined.

#[global] Instance Uint64_countable : Countable Uint64.t :=
  inj_countable' (λ x, (Uint64.low x, Uint64.high x))
                 (λ p, Uint64.mk p.1 p.2)
                 (λ x, match x with Uint64.mk _ _ => eq_refl end).

(** ** The visible-segment set ([uint64_set]) *)

Module Uint64Set.

(** Modelled from the spec: [Uint64Set] of [uint64_set], which is not among
    the sources; section 3 describes it as a set of identifiers. *)
Abbreviation t := (gset Uint64.t).

(** Modelled from the spec: [Uint64Set.has], membership in the set. *)
Definition has (s : t) (x : Uint64.t) : bool := bool_decide (x ∈ s).

(** Modelled from the spec: [Uint64Set.add]. *)
Definition add (x : Uint64.t) (s : t) : t := {[x]} ∪ s.

(** Modelled from the spec: [Uint64Set.delete]. *)
Definition delete (x : Uint64.t) (s : t) : t := s ∖ {[x]}.

(** Modelled from the spec: [Uint64Set.clear]. *)
Definition clear (s : t) : t := ∅.

(** Modelled from the spec: [Uint64Set.size], the number of members. *)
Definition size (s : t) : nat := size s.

(** Modelled from the spec: [Uint64Set.toJSON]; section 6 makes the persisted
    form the list of the decimal strings of the members, in no guaranteed
    order. *)
Definition toJSON (s : t) : list string := Uint64.toString <$> elements s.

End Uint64Set.

(** ** The equivalence relation ([shared_disjoint_sets]) *)

Module DisjointUint64Sets.

(** Modelled from the spec: [SharedDisjointUint64Sets] of
    [shared_disjoint_sets], which is not among the sources.  Section 3 gives
    the data: a mapping from identifier to identifier that stands for a
    partition; an identifier that was never inserted is its own singleton
    class (section 4.1).  The forest is kept fully compressed, the shape path
    compression converges to: every recorded identifier maps directly to the
    representative of its class. *)
Abbreviation t := (gmap Uint64.t Uint64.t).

(** Modelled from the spec: the rule of [SharedDisjointUint64Sets] that says
    which of two distinct roots stays representative when their classes are
    merged ([true]: the first).  Section 3 leaves the rule to the
    implementation (by size or rank, or the least value) and asks only that
    it be deterministic. *)
Class RepresentativeRule := prefer : t → Uint64.t → Uint64.t → bool.

(** Modelled from the spec: [SharedDisjointUint64Sets.get], the [find] of
    section 4.1: the representative, the identifier itself when it was never
    inserted. *)
Definition get (m : t) (x : Uint64.t) : Uint64.t := default x (m !! x).

(** Modelled from the spec: recording an identifier that was never inserted,
    as a class of its own. *)
Definition makeSet (x : Uint64.t) (m : t) : t :=
  match m !! x with
  | Some _ => m
  | None => <[x := x]> m
  end.

(** Modelled from the spec: the class of [loser] joins that of [winner]. *)
Definition relabel (loser winner r : Uint64.t) : Uint64.t :=
  if decide (r = loser) then winner else r.

(** Modelled from the spec: [union(a, b) -> changed] of section 4.1: nothing
    happens, and [false] is returned, when the two are already equivalent;
    otherwise both are recorded and the two classes become one. *)
Definition union `{RepresentativeRule} (a b : Uint64.t) (m : t) : t * bool :=
  let ra := get m a in
  let rb := get m b in
  if decide (ra = rb) then (m, false)
  else
    let m := makeSet b (makeSet a m) in
    let '(winner, loser) := if prefer m ra rb then (ra, rb) else (rb, ra) in
    (relabel loser winner <$> m, true).

(** Modelled from the spec: [SharedDisjointUint64Sets.link], the merge
    without its result. *)
Definition link `{RepresentativeRule} (a b : Uint64.t) (m : t) : t := (union a b m).1.

(** Modelled from the spec: [SharedDisjointUint64Sets.clear]. *)
Definition clear (m : t) : t := ∅.

(** Modelled from the spec: [SharedDisjointUint64Sets.size]; section 3: the
    number of identifiers recorded in a non-trivial class. *)
Definition size (m : t) : nat := size m.

(** Modelled from the spec: [members] of section 4.1: the recorded members of
    the class of [x], [x] itself when it is unknown. *)
Definition members (m : t) (x : Uint64.t) : list Uint64.t :=
  match m !! x with
  | None => [x]
  | Some r => (map_to_list (filter (λ kv, kv.2 = r) m)).*1
  end.

(** Modelled from the spec: [serialize] of section 4.1: one pair (member,
    representative) for every recorded member that is not the representative
    of its class. *)
Definition pairs (m : t) : list (Uint64.t * Uint64.t) :=
  map_to_list (filter (λ kv, kv.1 ≠ kv.2) m).

(** Modelled from the spec: [SharedDisjointUint64Sets.toJSON]: the pairs,
    each identifier as its decimal string (section 6). *)
Definition toJSON (m : t) : list (string * string) :=
  (λ kv, (Uint64.toString kv.1, Uint64.toString kv.2)) <$> pairs m.

(** Modelled from the spec: reading one persisted pair; both identifiers are
    parsed, and one that does not parse makes the restore throw (section 7
    (d)). *)
Definition parsePair (p : string * string) : option (Uint64.t * Uint64.t) :=
  a ← Uint64.parseString p.1; b ← Uint64.parseString p.2; Some (a, b).

(** Modelled from the spec: merging a sequence of pairs, in order. *)
Definition linkAll `{RepresentativeRule} (ps : list (Uint64.t * Uint64.t)) (m : t) : t :=
  foldl (λ m p, link p.1 p.2 m) m ps.

(** Modelled from the spec: [SharedDisjointUint64Sets.restoreState], the
    [deserialize] of section 4.1: start from the empty relation and merge
    every pair, in order.  [None] stands for the absent property. *)
Definition restoreState `{RepresentativeRule} (obj : option (list (string * string)))
    (m : t) : option t :=
  match obj with
  | None => Some (clear m)
  | Some y => ps ← mapM parsePair y; Some (linkAll ps (clear m))
  end.

(** Two identifiers are in the same class. *)
Definition same_class (m : t) (a b : Uint64.t) : Prop := get m a = get m b.

(** The invariant of the compressed forest: a representative is recorded and
    represents itself. *)
Definition wf (m : t) : Prop := ∀ k r, m !! k = Some r → m !! r = Some r.

(** Modelled from the spec: the size of the class whose representative is
    [r], for union by size (section 4.1). *)
Definition class_size (m : t) (r : Uint64.t) : nat :=
  stdpp.base.size (filter (λ kv : Uint64.t * Uint64.t, kv.2 = r) m).

(** Modelled from the spec: union by size (sections 3 and 4.1): the root of
    the larger class wins, the first on a tie. *)
Definition by_size : RepresentativeRule :=
  λ m ra rb, bool_decide (class_size m rb ≤ class_size m ra)%nat.

(** Modelled from the spec: the least value as representative, the rule
    section 3 allows instead. *)
Definition by_min_value : RepresentativeRule :=
  λ m ra rb, Uint64.toZ ra <=? Uint64.toZ rb.

End DisjointUint64Sets.

(** ** The segmentation layer ([segmentation_user_layer.ts]) *)

(** Modelled from the spec: [SegmentSelectionState] of
    [segmentation_display_state/frontend], which is not among the sources;
    the two fields the layer reads. *)
Record SegmentSelectionState := {
  hasSelectedSegment : bool;
  selectedSegment : Uint64.t;
}.

(** Modelled from the spec: [Uint64MapEntry] of
    [segmentation_display_state/frontend], which is not among the sources;
    the two arguments of its constructor. *)
Record Uint64MapEntry := {
  entry_key : Uint64.t;
  entry_value : Uint64.t;
}.

(** Modelled from the spec: [SegmentColorHash] of [segment_color], which is
    not among the sources; colour hashing is out of scope (section 1) and
    only the seed that [randomize] changes is kept. *)
Record SegmentColorHash := { hashSeed : Z }.

(** Modelled from the spec: [restoreState] of the value
    [trackableAlphaValue] makes ([trackable_alpha] is not among the sources).
    Section 6 makes a persisted opacity a float in 0..1; an absent property
    leaves the initial value, and a value outside the range is a parse error
    (section 7 (d)). *)
Definition alpha_restoreState (x : option number) (initial : number) : option number :=
  match x with
  | None => Some initial
  | Some v => if num_le (num_of_Z 0) v && num_le v (num_of_Z 1) then Some v else None
  end.

(** Modelled from the spec: [toJSON] of the same value: the opacity (section
    6). *)
Definition alpha_toJSON (value : number) : option number := Some value.

(** The persisted state of section 6, the argument [x] of the constructor and
    the value of [toJSON].  [None] is an absent property. *)
Record PersistedState := {
  p_type : option string;
  p_source : option string;
  p_mesh : option string;
  p_skeletons : option string;
  p_selectedAlpha : option number;
  p_notSelectedAlpha : option number;
  p_objectAlpha : option number;
  p_segments : option (list string);
  p_equivalences : option (list (string * string));
}.

Record SegmentationUserLayer := {
  segmentColorHash : SegmentColorHash;
  segmentSelectionState : SegmentSelectionState;
  selectedAlpha : number;
  notSelectedAlpha : number;
  objectAlpha : number;
  visibleSegments : Uint64Set.t;
  segmentEquivalences : DisjointUint64Sets.t;
  volumePath : option string;
  meshPath : option string;
  skeletonsPath : option string;
}.

Definition set_visibleSegments (v : Uint64Set.t) (this : SegmentationUserLayer)
    : SegmentationUserLayer :=
  {| segmentColorHash := segmentColorHash this;
     segmentSelectionState := segmentSelectionState this;
     selectedAlpha := selectedAlpha this; notSelectedAlpha := notSelectedAlpha this;
     objectAlpha := objectAlpha this; visibleSegments := v;
     segmentEquivalences := segmentEquivalences this;
     volumePath := volumePath this; meshPath := meshPath this;
     skeletonsPath := skeletonsPath this |}.

Definition set_segmentColorHash (h : SegmentColorHash) (this : SegmentationUserLayer)
    : SegmentationUserLayer :=
  {| segmentColorHash := h;
     segmentSelectionState := segmentSelectionState this;
     selectedAlpha := selectedAlpha this; notSelectedAlpha := notSelectedAlpha this;
     objectAlpha := objectAlpha this; visibleSegments := visibleSegments this;
     segmentEquivalences := segmentEquivalences this;
     volumePath := volumePath this; meshPath := meshPath this;
     skeletonsPath := skeletonsPath this |}.

(** The values a pick can hand to [transformPickedValue]: [null],
    [undefined], the number read back from the pick buffer, or an identifier. *)
Inductive PickedValue :=
| PickedNull
| PickedUndefined
| PickedNumber (n : Z)
| PickedUint64 (u : Uint64.t).

Inductive TransformedValue :=
| Unmapped (value : PickedValue)
| Mapped (entry : Uint64MapEntry).

Section SegmentationUserLayer_methods.
Context `{DisjointUint64Sets.RepresentativeRule}.

(** [SegmentColorHash.prototype.randomize], of [segment_color]. *)
Variable randomize : SegmentColorHash → SegmentColorHash.

(** The callback of [parseArray] on the ['segments'] property, run over the
    array in order; a string that does not parse throws. *)
Fixpoint restoreSegments (segmentEquivalences : DisjointUint64Sets.t) (y : list string)
    (visibleSegments : Uint64Set.t) : option Uint64Set.t :=
  match y with
  | [] => Some visibleSegments
  | value :: rest =>
      id ← Uint64.parseString value;
      restoreSegments segmentEquivalences rest
        (Uint64Set.add (DisjointUint64Sets.get segmentEquivalences id) visibleSegments)
  end.

(** The constructor; [None] when it throws.  The render layers are added by
    promise callbacks that run after it has returned and are not part of the
    state it builds. *)
Definition new_SegmentationUserLayer (x : PersistedState) : option SegmentationUserLayer :=
  selectedAlpha ← alpha_restoreState (p_selectedAlpha x) (Num (1 # 2));
  notSelectedAlpha ← alpha_restoreState (p_notSelectedAlpha x) (num_of_Z 0);
  objectAlpha ← alpha_restoreState (p_objectAlpha x) (num_of_Z 1);
  segmentEquivalences ← DisjointUint64Sets.restoreState (p_equivalences x) ∅;
  visibleSegments ←
    match p_segments x with
    | Some y => restoreSegments segmentEquivalences y ∅
    | None => Some ∅
    end;
  Some {| segmentColorHash := {| hashSeed := 0 |};
          segmentSelectionState :=
            {| hasSelectedSegment := false; selectedSegment := Uint64.mk 0 0 |};
          selectedAlpha := selectedAlpha;
          notSelectedAlpha := notSelectedAlpha;
          objectAlpha := objectAlpha;
          visibleSegments := visibleSegments;
          segmentEquivalences := segmentEquivalences;
          volumePath := p_source x;
          meshPath := p_mesh x;
          skeletonsPath := p_skeletons x |}.

Definition toJSON (this : SegmentationUserLayer) : PersistedState :=
  {| p_type := Some "segmentation"%string;
     p_source := volumePath this;
     p_mesh := meshPath this;
     p_skeletons := skeletonsPath this;
     p_selectedAlpha := alpha_toJSON (selectedAlpha this);
     p_notSelectedAlpha := alpha_toJSON (notSelectedAlpha this);
     p_objectAlpha := alpha_toJSON (objectAlpha this);
     p_segments :=
       if decide (0 < Uint64Set.size (visibleSegments this))%nat
       then Some (Uint64Set.toJSON (visibleSegments this)) else None;
     p_equivalences :=
       if decide (0 < DisjointUint64Sets.size (segmentEquivalences this))%nat
       then Some (DisjointUint64Sets.toJSON (segmentEquivalences this)) else None |}.

(** [value == null]. *)
Definition is_nullish (value : PickedValue) : bool :=
  match value with
  | PickedNull | PickedUndefined => true
  | _ => false
  end.

Definition transformPickedValue (this : SegmentationUserLayer) (value : PickedValue)
    : TransformedValue :=
  if is_nullish value then Unmapped value
  else if decide (DisjointUint64Sets.size (segmentEquivalences this) = 0%nat)
  then Unmapped value
  else
    let value :=
      match value with
      | PickedNumber n => Uint64.mk n 0
      | PickedUint64 u => u
      | _ => Uint64.mk 0 0
      end in
    let mappedValue := DisjointUint64Sets.get (segmentEquivalences this) value in
    if Uint64.equal mappedValue value then Unmapped (PickedUint64 value)
    else Mapped {| entry_key := value; entry_value := mappedValue |}.

Definition handleAction (this : SegmentationUserLayer) (action : string)
    : SegmentationUserLayer :=
  if decide (action = "recolor"%string) then
    set_segmentColorHash (randomize (segmentColorHash this)) this
  else if decide (action = "clear-segments"%string) then
    set_visibleSegments (Uint64Set.clear (visibleSegments this)) this
  else if decide (action = "select"%string) then
    if hasSelectedSegment (segmentSelectionState this) then
      let segment := selectedSegment (segmentSelectionState this) in
      if Uint64Set.has (visibleSegments this) segment
      then set_visibleSegments (Uint64Set.delete segment (visibleSegments this)) this
      else set_visibleSegments (Uint64Set.add segment (visibleSegments this)) this
    else this
  else this.

End SegmentationUserLayer_methods.

(** ** The skeleton layer ([skeleton/frontend.ts]) *)

(** Modelled from the spec: [ChunkState] of [chunk_manager/base], which is not
    among the sources.  Section 3 lists the states; [GPU_MEMORY] is the name
    the code gives to the GPU-resident one. *)
Inductive ChunkState :=
| QUEUED
| DOWNLOADING
| DECODED
| GPU_MEMORY
| FAILED.

#[global] Instance ChunkState_eq_dec : EqDecision ChunkState.
Proof. solve_decision. Defined.

(** A buffer of [webgl/buffer], by the object it wraps. *)
Abbreviation Buffer := nat.

Record SkeletonChunk := {
  state : ChunkState;
  vertexBuffer : Buffer;
  indexBuffer : Buffer;
  numIndices : nat;
}.

(** [SkeletonSource]: the chunk map, in insertion order, keyed by the object
    the chunk belongs to. *)
Record SkeletonSource := {
  chunks : list (Uint64.t * SkeletonChunk);
  skeletonVertexCoordinatesInVoxels : bool;
}.

(** The interface [SegmentationDisplayStateWithAlpha] of
    [segmentation_display_state/frontend], as far as the skeleton layer reads
    it. *)
Class SegmentationDisplayStateWithAlpha (D : Type) := {
  ds_visibleSegments : D → Uint64Set.t;
  ds_segmentEquivalences : D → DisjointUint64Sets.t;
  ds_objectAlpha : D → number;
}.

#[global] Instance SegmentationUserLayer_displayState
    : SegmentationDisplayStateWithAlpha SegmentationUserLayer := {|
  ds_visibleSegments := visibleSegments;
  ds_segmentEquivalences := segmentEquivalences;
  ds_objectAlpha := objectAlpha;
|}.

(** A render layer, by identity. *)
Abbreviation RenderLayer := nat.

(** Modelled from the spec: the [pickIDs] manager of the render context
    ([PickIDManager], not among the sources).  Section 4.5: a picking
    identifier is registered for a (layer, id) pair so that a value read back
    later maps to that pair again.  The identifier is the position of the
    pair in the table. *)
Record PickIDManager := { pickEntries : list (RenderLayer * Uint64.t) }.

(** Modelled from the spec: [pickIDs.register(layer, x)]: the pair is added
    to the table and its identifier returned. *)
Definition PickIDManager_register (layer : RenderLayer) (x : Uint64.t) (p : PickIDManager)
    : nat * PickIDManager :=
  (length (pickEntries p), {| pickEntries := pickEntries p ++ [(layer, x)] |}).

(** Modelled from the spec: the reverse mapping section 4.5 asks for, from a
    value read back to the registered pair. *)
Definition PickIDManager_lookup (p : PickIDManager) (pickID : nat)
    : option (RenderLayer * Uint64.t) :=
  pickEntries p !! pickID.

(** Matrices are kept symbolic. *)
Inductive Mat4 :=
| mat4_identity
| mat4_given (name : nat)
| mat4_scale (m : Mat4) (v : number * number * number)
| mat4_multiply (a b : Mat4).

Record SliceViewPanelRenderContext := {
  dataToDevice : Mat4;
  pickIDs : PickIDManager;
}.

Section SkeletonLayer_methods.

Context {D : Type} `{SegmentationDisplayStateWithAlpha D}.

(** The colour type and [getObjectColor] of
    [segmentation_display_state/frontend]. *)
Context {Color : Type}.
Variable getObjectColor : D → Uint64.t → number → Color.

(** What [SkeletonShaderManager] and [SkeletonLayer.draw] ask of the context
    and of the shader program. *)
Inductive RenderCall :=
| shader_bind
| uniformMatrix4fv (name : string) (m : Mat4)
| lineWidth (w : number)
| uniform4fv_color (name : string) (color : Color)
| uniform4fv_pickID (name : string) (pickID : nat)
| bindToVertexAttrib (buffer : Buffer) (attribute : string) (components : Z)
| bindBuffer (buffer : Buffer)
| drawElements (count : nat)
| disableVertexAttribArray (attribute : string).

Definition beginLayer (renderContext : SliceViewPanelRenderContext)
    (objectToDataMatrix : Mat4) : list RenderCall :=
  [uniformMatrix4fv "uProjection"
     (mat4_multiply (dataToDevice renderContext) objectToDataMatrix)].

Definition setColor (color : Color) : list RenderCall :=
  [uniform4fv_color "uColor" color].

Definition drawSkeleton (skeletonChunk : SkeletonChunk) (pickID : nat) : list RenderCall :=
  [uniform4fv_pickID "uPickID" pickID;
   bindToVertexAttrib (vertexBuffer skeletonChunk) "aVertexPosition" 3;
   bindBuffer (indexBuffer skeletonChunk);
   drawElements (numIndices skeletonChunk)].

Definition endLayer : list RenderCall :=
  [disableVertexAttribArray "aVertexPosition"].

(** Modelled from the spec: membership in the expanded visible set (section
    3): the class of [x] meets the visible set. *)
Definition isVisibleExpanded (displayState : D) (x : Uint64.t) : bool :=
  bool_decide (Exists (λ v, DisjointUint64Sets.get (ds_segmentEquivalences displayState) v
                            = DisjointUint64Sets.get (ds_segmentEquivalences displayState) x)
                 (elements (ds_visibleSegments displayState))).

(** Modelled from the spec: [forEachSegmentToDraw] of
    [segmentation_display_state/frontend], which is not among the sources.
    Section 4.5: every chunk of the source is visited; the identifier it
    belongs to is resolved to its representative; the chunk is skipped when
    the representative is not in the expanded visible set; otherwise the
    callback receives the representative, the original identifier and the
    chunk.  The callback threads the state [S] of the caller. *)
Fixpoint forEachSegmentToDraw {S : Type} (displayState : D)
    (objects : list (Uint64.t * SkeletonChunk))
    (callback : Uint64.t → Uint64.t → SkeletonChunk → S → S) (s : S) : S :=
  match objects with
  | [] => s
  | (objectId, segmentData) :: rest =>
      let rootObjectId :=
        DisjointUint64Sets.get (ds_segmentEquivalences displayState) objectId in
      let s :=
        if isVisibleExpanded displayState rootObjectId
        then callback rootObjectId objectId segmentData s
        else s in
      forEachSegmentToDraw displayState rest callback s
  end.

Record SkeletonLayer := {
  source : SkeletonSource;
  voxelSize : number * number * number;
  displayState : D;
}.

(** The state the body of [draw] works on: the calls issued so far and the
    pick table of the render context. *)
Definition DrawState : Type := list RenderCall * PickIDManager.

(** The callback [draw] hands to [forEachSegmentToDraw]. *)
Definition draw_callback (this : SkeletonLayer) (layer : RenderLayer) (pickingOnly : bool)
    (alpha : number) (rootObjectId objectId : Uint64.t) (skeleton : SkeletonChunk)
    (s : DrawState) : DrawState :=
  let '(calls, pickIDs) := s in
  if negb (bool_decide (state skeleton = GPU_MEMORY)) then s
  else
    let calls :=
      if negb pickingOnly
      then calls ++ setColor (getObjectColor (displayState this) rootObjectId alpha)
      else calls in
    let '(pickID, pickIDs) := PickIDManager_register layer objectId pickIDs in
    (calls ++ drawSkeleton skeleton pickID, pickIDs).

(** [SkeletonLayer.draw]: the calls it issues, in order, and the pick table
    it leaves in the render context. *)
Definition draw (this : SkeletonLayer) (renderContext : SliceViewPanelRenderContext)
    (layer : RenderLayer) (pickingOnly : bool) (lineWidth_ : option number) : DrawState :=
  let lineWidth_ :=
    match lineWidth_ with
    | Some w => w
    | None => if pickingOnly then num_of_Z 5 else num_of_Z 1
    end in
  let alpha := math_min (num_of_Z 1) (ds_objectAlpha (displayState this)) in
  if num_le alpha (num_of_Z 0) then ([], pickIDs renderContext)
  else
    let calls := [shader_bind] in
    let objectToDataMatrix :=
      if skeletonVertexCoordinatesInVoxels (source this)
      then mat4_scale mat4_identity (voxelSize this)
      else mat4_identity in
    let calls := calls ++ beginLayer renderContext objectToDataMatrix in
    let skeletons := chunks (source this) in
    let calls := calls ++ [lineWidth lineWidth_] in
    let '(calls, pickIDs) :=
      forEachSegmentToDraw (displayState this) skeletons
        (draw_callback this layer pickingOnly alpha) (calls, pickIDs renderContext) in
    (calls ++ endLayer, pickIDs).

(** [PerspectiveViewSkeletonLayer.draw], [.drawPicking] and
    [SliceViewPanelSkeletonLayer.draw]. *)
Definition PerspectiveView_draw (base : SkeletonLayer) (self : RenderLayer)
    (renderContext : SliceViewPanelRenderContext) (pickingOnly : bool) : DrawState :=
  draw base renderContext self pickingOnly None.

Definition PerspectiveView_drawPicking (base : SkeletonLayer) (self : RenderLayer)
    (renderContext : SliceViewPanelRenderContext) : DrawState :=
  draw base renderContext self true None.

Definition SliceViewPanel_draw (base : SkeletonLayer) (self : RenderLayer)
    (renderContext : SliceViewPanelRenderContext) : DrawState :=
  draw base renderContext self false (Some (num_of_Z 10)).

End SkeletonLayer_methods.

Arguments RenderCall : clear implicits.
Arguments DrawState : clear implicits.
Arguments SkeletonLayer : clear implicits.

(** ** Statements of the specification used below *)

Section Bind_sequences.
Variable framebufferStatus : GL → Z.

(** A caller that binds the same configuration again and again, also after a
    bind has thrown. *)
Fixpoint bind_all (this : FramebufferConfiguration) (sizes : list (number * number))
    (gl : GL) : FramebufferConfiguration * GL :=
  match sizes with
  | [] => (this, gl)
  | (w, h) :: rest =>
      let '(this, gl) := final_state (FramebufferConfiguration_bind framebufferStatus this w h gl) in
      bind_all this rest gl
  end.

(** "Validated exactly once, at the first bind after construction; every
    subsequent bind skips re-validation": whatever number of binds (at least
    one) has been made on the constructed object, one validation has been
    asked for. *)
Definition validated_once_at_first_bind (configuration : Configuration) (gl : GL)
    (sizes : list (number * number)) : Prop :=
  let '(this, gl0) := new_FramebufferConfiguration gl configuration in
  ∀ k, (1 ≤ k ≤ length sizes)%nat →
    validations (bind_all this (take k sizes) gl0).2 = S (validations gl).

End Bind_sequences.

(** Two numbers are the same number; [NaN] is the same as nothing, itself
    included. *)
Definition same_number (a b : number) : Prop :=
  match a, b with
  | Num x, Num y => (x == y)%Q
  | _, _ => False
  end.

(** "Calling [resize(width, height)] when the surface's size is already
    [(width, height)] is a no-op". *)
Definition resize_noop_at_stored_size (b : ColorBuffer) (w h : number) (gl : GL) : Prop :=
  width b = w → height b = h → resize b w h gl = (b, gl).

(** A texture buffer made on a context that has not been used yet and
    resized once, to [(w, h)], with the context it leaves. *)
Definition texture_resized_to (w h : number) : ColorBuffer * GL :=
  let '(t, gl) := new_TextureBuffer [] RGBA UNSIGNED_BYTE in
  resize (ColorTexture t) w h gl.

(** "The little-endian packed 32-bit unsigned value". *)
Definition packed_uint32 (result : Z * Z * Z * Z) : Z :=
  let '(r, g, b, a) := result in
  r + 2 ^ 8 * g + 2 ^ 16 * b + 2 ^ 24 * a.

Definition is_byte (z : Z) : Prop := 0 ≤ z ≤ 255.

(** One RGBA texture made on a context that has not been used yet, as the
    only colour buffer of a configuration, and the configuration object built
    from it. *)
Definition one_texture_setup : Configuration * GL :=
  let '(ts, gl) := makeTextureBuffers [] 1 RGBA UNSIGNED_BYTE in
  ({| cfg_framebuffer := None; cfg_colorBuffers := ColorTexture <$> ts;
      cfg_depthBuffer := None |}, gl).

Definition one_texture_configuration : FramebufferConfiguration * GL :=
  new_FramebufferConfiguration one_texture_setup.2 one_texture_setup.1.

(** The identifiers a persisted ['segments'] property lists ([None] when one
    of them is not a decimal 64-bit value), and the visible-segment set they
    encode. *)
Definition parseSegments (y : option (list string)) : option (list Uint64.t) :=
  mapM Uint64.parseString (default [] y).

Definition encoded_visible (x : PersistedState) : option Uint64Set.t :=
  list_to_set <$> parseSegments (p_segments x).

(** The pairs a persisted ['equivalences'] property lists, and the partition
    they encode: two identifiers are in one class when a chain of listed
    pairs, taken in either direction, joins them. *)
Definition parsePairs (y : option (list (string * string)))
    : option (list (Uint64.t * Uint64.t)) :=
  mapM DisjointUint64Sets.parsePair (default [] y).

Definition joined (ps : list (Uint64.t * Uint64.t)) : relation Uint64.t :=
  rtsc (λ a b, (a, b) ∈ ps).

(** "Loading [x] and serialising again keeps the visible-segment set and the
    equivalence partition encoded in [x]." *)
Definition roundtrip_preserves `{DisjointUint64Sets.RepresentativeRule}
    (x : PersistedState) : Prop :=
  ∀ layer, new_SegmentationUserLayer x = Some layer →
    encoded_visible (toJSON layer) = encoded_visible x ∧
    ∃ ps ps', parsePairs (p_equivalences x) = Some ps ∧
              parsePairs (p_equivalences (toJSON layer)) = Some ps' ∧
              ∀ a b, joined ps' a b ↔ joined ps a b.

(** The maximal 64-bit unsigned value. *)
Definition max_uint64 : Uint64.t := Uint64.mk 0xFFFFFFFF 0xFFFFFFFF.

(** A layer with the given visible segments, equivalences and selection, and
    with the initial values of the other fields. *)
Definition layer_with (visible : list Uint64.t) (equivalences : DisjointUint64Sets.t)
    (selection : SegmentSelectionState) : SegmentationUserLayer :=
  {| segmentColorHash := {| hashSeed := 0 |};
     segmentSelectionState := selection;
     selectedAlpha := Num (1 # 2); notSelectedAlpha := num_of_Z 0;
     objectAlpha := num_of_Z 1;
     visibleSegments := list_to_set visible;
     segmentEquivalences := equivalences;
     volumePath := None; meshPath := None; skeletonsPath := None |}.

(** Every recorded identifier is a 64-bit value. *)
Definition ids_valid (m : DisjointUint64Sets.t) : Prop :=
  ∀ k v, m !! k = Some v → Uint64.valid k ∧ Uint64.valid v.

(** A persisted opacity is absent or a number in 0..1. *)
Definition alpha_conforms (a : option number) : Prop :=
  match a with
  | None => True
  | Some v => num_le (num_of_Z 0) v = true ∧ num_le v (num_of_Z 1) = true
  end.

(** [x] conforms to the schema of section 6: the opacities are in range, the
    segments are decimal 64-bit values, and so are both sides of every
    equivalence pair. *)
Definition conforms (x : PersistedState) : Prop :=
  alpha_conforms (p_selectedAlpha x) ∧
  alpha_conforms (p_notSelectedAlpha x) ∧
  alpha_conforms (p_objectAlpha x) ∧
  Forall (λ s, is_Some (Uint64.parseString s)) (default [] (p_segments x)) ∧
  Forall (λ p, is_Some (Uint64.parseString p.1) ∧ is_Some (Uint64.parseString p.2))
         (default [] (p_equivalences x)).

(** The persisted state that shows 5 and 7 and declares them equivalent. *)
Definition merged_pair_state : PersistedState :=
  {| p_type := Some "segmentation"%string; p_source := None; p_mesh := None;
     p_skeletons := None;
     p_selectedAlpha := Some (Num (1 # 2)); p_notSelectedAlpha := Some (num_of_Z 0);
     p_objectAlpha := Some (num_of_Z 1);
     p_segments := Some ["5"%string; "7"%string];
     p_equivalences := Some [("5"%string, "7"%string)] |}.

Section SkeletonLayer_statements.
Context {D : Type} `{SegmentationDisplayStateWithAlpha D}.
Context {Color : Type}.
Variable getObjectColor : D → Uint64.t → number → Color.

(** The entries of the chunk map a draw pass has to draw: the chunk is
    GPU-resident and the representative of its identifier is in the expanded
    visible set. *)
Definition to_draw (displayState : D) (objects : list (Uint64.t * SkeletonChunk))
    : list (Uint64.t * SkeletonChunk) :=
  filter (λ e, isVisibleExpanded displayState
                 (DisjointUint64Sets.get (ds_segmentEquivalences displayState) e.1) = true
               ∧ state e.2 = GPU_MEMORY) objects.

(** The calls made for one drawn entry tagged with [pickID]: the colour of the
    representative unless only picking is drawn, then the skeleton. *)
Definition entry_calls (displayState : D) (pickingOnly : bool) (alpha : number)
    (e : Uint64.t * SkeletonChunk) (pickID : nat) : list (RenderCall Color) :=
  (if pickingOnly then []
   else setColor
          (getObjectColor displayState
             (DisjointUint64Sets.get (ds_segmentEquivalences displayState) e.1) alpha))
  ++ drawSkeleton e.2 pickID.

(** The calls made for a list of drawn entries, tagged from [pickID] on. *)
Fixpoint entries_calls (displayState : D) (pickingOnly : bool) (alpha : number)
    (es : list (Uint64.t * SkeletonChunk)) (pickID : nat) : list (RenderCall Color) :=
  match es with
  | [] => []
  | e :: rest =>
      entry_calls displayState pickingOnly alpha e pickID
      ++ entries_calls displayState pickingOnly alpha rest (S pickID)
  end.

(** A draw operation: the [gl.drawElements] call. *)
Definition is_draw_operation (c : RenderCall Color) : bool :=
  match c with drawElements _ => true | _ => false end.

Definition draw_operations (calls : list (RenderCall Color)) : nat :=
  length (filter (λ c, is_draw_operation c = true) calls).

End SkeletonLayer_statements.

(** The scenario of section 8: 5 is visible, 5 and 7 are merged (by size, so
    that 5 represents both); the source holds a resident chunk for 7, a chunk
    for 7's neighbour 9 that is resident but not visible, and a chunk for 5
    that is still queued. *)
Definition merged_layer : SegmentationUserLayer :=
  layer_with [Uint64.ofZ 5]
    (@DisjointUint64Sets.link DisjointUint64Sets.by_size (Uint64.ofZ 5) (Uint64.ofZ 7) ∅)
    {| hasSelectedSegment := false; selectedSegment := Uint64.mk 0 0 |}.

Definition merged_skeletons : SkeletonLayer SegmentationUserLayer :=
  {| source :=
       {| chunks :=
            [(Uint64.ofZ 7, {| state := GPU_MEMORY; vertexBuffer := 1%nat;
                               indexBuffer := 2%nat; numIndices := 6%nat |});
             (Uint64.ofZ 9, {| state := GPU_MEMORY; vertexBuffer := 3%nat;
                               indexBuffer := 4%nat; numIndices := 4%nat |});
             (Uint64.ofZ 5, {| state := QUEUED; vertexBuffer := 0%nat;
                               indexBuffer := 0%nat; numIndices := 2%nat |})];
          skeletonVertexCoordinatesInVoxels := true |};
     voxelSize := (num_of_Z 4, num_of_Z 4, num_of_Z 40);
     displayState := merged_layer |}.

Definition empty_renderContext : SliceViewPanelRenderContext :=
  {| dataToDevice := mat4_given 0; pickIDs := {| pickEntries := [] |} |}.

(** The same skeleton layer with the object opacity set to zero. *)
Definition transparent_skeletons : SkeletonLayer SegmentationUserLayer :=
  {| source := source merged_skeletons;
     voxelSize := voxelSize merged_skeletons;
     displayState :=
       {| segmentColorHash := segmentColorHash merged_layer;
          segmentSelectionState := segmentSelectionState merged_layer;
          selectedAlpha := selectedAlpha merged_layer;
          notSelectedAlpha := notSelectedAlpha merged_layer;
          objectAlpha := num_of_Z 0;
          visibleSegments := visibleSegments merged_layer;
          segmentEquivalences := segmentEquivalences merged_layer;
          volumePath := None; meshPath := None; skeletonsPath := None |} |}.

(** A colour function that records what it was asked for. *)
Definition symbolic_color (displayState : SegmentationUserLayer) (rootObjectId : Uint64.t)
    (alpha : number) : Uint64.t * number :=
  (rootObjectId, alpha).

(** ** Further parts of the code

    The rest of the off-screen module, of the segmentation layer, of the
    skeleton layers and the NIfTI parameters, with what is needed to state
    their properties. *)

(** *** Reading the history of calls *)

Definition is_number (n : number) : bool :=
  match n with NaN => false | Num _ => true end.

(** The attachment point a call attaches a buffer to. *)
Definition attachment_of (c : GLCall) : option Z :=
  match c with
  | framebufferRenderbuffer _ attachment _ _
  | framebufferTexture2D _ attachment _ _ _ => Some attachment
  | _ => None
  end.

Definition attachments (gl : GL) : list Z := omap attachment_of gl.

Definition is_viewport (c : GLCall) : bool :=
  match c with viewport _ _ _ _ => true | _ => false end.

Definition is_readPixels (c : GLCall) : bool :=
  match c with readPixels _ _ _ _ _ _ => true | _ => false end.

Definition is_createTexture (c : GLCall) : bool :=
  match c with createTexture => true | _ => false end.

Definition count_calls (p : GLCall → bool) (gl : GL) : nat :=
  length (filter (λ c, p c = true) gl).

(** How many of the surfaces do not have the size [(w, h)]. *)
Definition without_size {T : Type} `{SizeManaged T} (w h : number) (bs : list T) : nat :=
  length (filter (λ b, hasSize b w h = false) bs).

(** The buffers of a configuration, the depth buffer included. *)
Definition depth_without_size (w h : number) (d : option DepthBuffer) : nat :=
  match d with
  | Some d => if hasSize d w h then 0%nat else 1%nat
  | None => 0%nat
  end.

(** The GL object a buffer wraps.  Every buffer creates the object it wraps
    in its constructor, so that two buffers are the same object exactly when
    they wrap the same GL object. *)
Inductive WrappedObject :=
| WrappedTexture (tex : option handle)
| WrappedRenderbuffer (rb : option handle).

Definition wrapped_color (b : ColorBuffer) : WrappedObject :=
  match b with
  | ColorTexture t => WrappedTexture (texture t)
  | ColorRenderbuffer r => WrappedRenderbuffer (renderbuffer r)
  end.

Definition wrapped_depth (d : option DepthBuffer) : list WrappedObject :=
  match d with
  | Some d => [WrappedRenderbuffer (renderbuffer (db_super d))]
  | None => []
  end.

(** No buffer object occurs twice in the configuration. *)
Definition distinct_buffers (this : FramebufferConfiguration) : Prop :=
  NoDup (wrapped_depth (depthBuffer this) ++ (wrapped_color <$> colorBuffers this)).

(** Two RGBA textures and a depth buffer made on a context that has not been
    used yet, and the configuration object built from them. *)
Definition two_textures_depth_setup : Configuration * GL :=
  let '(ts, gl) := makeTextureBuffers [] 2 RGBA UNSIGNED_BYTE in
  let '(d, gl) := new_DepthBuffer gl false in
  ({| cfg_framebuffer := None; cfg_colorBuffers := ColorTexture <$> ts;
      cfg_depthBuffer := Some d |}, gl).

Definition two_textures_depth_configuration : FramebufferConfiguration * GL :=
  new_FramebufferConfiguration two_textures_depth_setup.2 two_textures_depth_setup.1.

Section Driver_statements.
Variable framebufferStatus : GL → Z.

(** The configuration and the history with which [bind] calls
    [verifyAttachment]. *)
Definition bind_before_verify (this : FramebufferConfiguration) (w h : number) (gl : GL)
    : FramebufferConfiguration * GL :=
  let gl0 := Framebuffer_bind (framebuffer this) gl in
  let dr :=
    match depthBuffer this with
    | Some d => (Some (resize d w h gl0).1,
                 DepthBuffer_attachToFramebuffer (resize d w h gl0).1 (resize d w h gl0).2)
    | None => (None, gl0)
    end in
  let cr := bind_colorBuffers 0 (colorBuffers this) w h dr.2 in
  ({| fc_width := w; fc_height := h; colorBuffers := cr.1;
      framebuffer := framebuffer this; depthBuffer := dr.1;
      fullAttachmentList := fullAttachmentList this;
      attachmentVerified := attachmentVerified this;
      singleAttachmentList := singleAttachmentList this |},
   emit (drawBuffersWEBGL (fullAttachmentList this)) cr.2).

End Driver_statements.

(** The attachment lists are those the constructor builds. *)
Definition attachment_lists_built (this : FramebufferConfiguration) : Prop :=
  fullAttachmentList this =
    imap (λ i _, COLOR_ATTACHMENT0 + Z.of_nat i) (colorBuffers this) ∧
  singleAttachmentList this = [COLOR_ATTACHMENT0].


(** *** [OffscreenCopyHelper] *)

Definition TEXTURE0 : Z := 0x84C0.
Definition TRIANGLE_FAN : Z := 0x0006.

(** The calls [OffscreenCopyHelper.draw] makes on the context, on its shader
    program and on its two vertex buffers. *)
Inductive CopyCall :=
| copy_shader_bind
| activeTexture (unit : Z)
| bindTexture (target : Z) (tex : option handle)
| copy_uniformMatrix4fv (name : string) (m : Mat4)
| copy_bindToVertexAttrib (buffer : Buffer) (attribute : string) (components : Z)
| drawArrays (mode first count : Z)
| copy_disableVertexAttribArray (attribute : string).

Record OffscreenCopyHelper := {
  copyVertexPositionsBuffer : Buffer;
  copyTexCoordsBuffer : Buffer;
}.

(** [for (let i = 0; i < numTextures; ++i) { activeTexture; bindTexture }],
    from index [i] on. *)
Fixpoint bind_textures (i : nat) (textures : list (option handle)) : list CopyCall :=
  match textures with
  | [] => []
  | t :: rest =>
      activeTexture (TEXTURE0 + Z.of_nat i) :: bindTexture TEXTURE_2D t
      :: bind_textures (S i) rest
  end.

(** The closing loop, which binds [null] on the same units. *)
Fixpoint unbind_textures (i : nat) (numTextures : nat) : list CopyCall :=
  match numTextures with
  | O => []
  | S n =>
      activeTexture (TEXTURE0 + Z.of_nat i) :: bindTexture TEXTURE_2D None
      :: unbind_textures (S i) n
  end.

Definition OffscreenCopyHelper_draw (this : OffscreenCopyHelper)
    (textures : list (option handle)) : list CopyCall :=
  [copy_shader_bind]
  ++ bind_textures 0 textures
  ++ [copy_uniformMatrix4fv "uProjectionMatrix" mat4_identity;
      copy_bindToVertexAttrib (copyVertexPositionsBuffer this) "aVertexPosition" 4;
      copy_bindToVertexAttrib (copyTexCoordsBuffer this) "aTexCoord" 2;
      drawArrays TRIANGLE_FAN 0 4;
      copy_disableVertexAttribArray "aVertexPosition";
      copy_disableVertexAttribArray "aTexCoord"]
  ++ unbind_textures 0 (length textures).

(** The texture state of the context: the active unit and the 2D texture
    bound on each unit. *)
Record TextureUnits := {
  activeUnit : Z;
  boundTexture : Z → option handle;
}.

Definition texture_step (st : TextureUnits) (c : CopyCall) : TextureUnits :=
  match c with
  | activeTexture u => {| activeUnit := u; boundTexture := boundTexture st |}
  | bindTexture target t =>
      if target =? TEXTURE_2D then
        {| activeUnit := activeUnit st;
           boundTexture := λ u, if u =? activeUnit st then t else boundTexture st u |}
      else st
  | _ => st
  end.

Definition texture_state (calls : list CopyCall) (st : TextureUnits) : TextureUnits :=
  foldl texture_step st calls.

Definition is_drawArrays (c : CopyCall) : bool :=
  match c with drawArrays _ _ _ => true | _ => false end.


(** *** The segmentation layer: the promise callbacks of the constructor *)

(** A volume as the layer uses it: its identity and what [getMeshSource()]
    returns, [None] for [null] or [undefined]. *)
Record Volume := {
  volume_id : nat;
  volume_getMeshSource : option nat;
}.

(** The render layers the layer constructs, by the objects they are
    constructed from.  The two skeleton layers take the [SkeletonLayer] built
    for the skeleton source, named here by that source. *)
Inductive AddedLayer :=
| SegmentationRenderLayer (volume : Volume)
| MeshLayer (meshSource : nat)
| PerspectiveViewSkeletonLayer (base : nat)
| SliceViewPanelSkeletonLayer (base : nat).

(** What the callbacks read and write of the layer object: [wasDisposed],
    the history of the [addRenderLayer] calls, and the field [meshLayer]
    (the mesh source of the [MeshLayer] it holds). *)
Record LayerObject := {
  wasDisposed : bool;
  addRenderLayer_calls : list AddedLayer;
  meshLayer : option nat;
}.

Definition addRenderLayer (l : AddedLayer) (this : LayerObject) : LayerObject :=
  {| wasDisposed := wasDisposed this;
     addRenderLayer_calls := addRenderLayer_calls this ++ [l];
     meshLayer := meshLayer this |}.

Definition addMesh (meshSource : nat) (this : LayerObject) : LayerObject :=
  addRenderLayer (MeshLayer meshSource)
    {| wasDisposed := wasDisposed this;
       addRenderLayer_calls := addRenderLayer_calls this;
       meshLayer := Some meshSource |}.

(** The callback on the promise of [getVolumeWithStatusMessage]; [meshPath]
    is the local variable of the constructor it closes over. *)
Definition volume_callback (meshPath : option string) (volume : Volume)
    (this : LayerObject) : LayerObject :=
  if negb (wasDisposed this) then
    let this := addRenderLayer (SegmentationRenderLayer volume) this in
    match meshPath with
    | None =>
        match volume_getMeshSource volume with
        | Some meshSource => addMesh meshSource this
        | None => this
        end
    | Some _ => this
    end
  else this.

(** The callback on the promise of [getMeshSource]. *)
Definition meshSource_callback (meshSource : nat) (this : LayerObject) : LayerObject :=
  if negb (wasDisposed this) then addMesh meshSource this else this.

(** The callback on the promise of [getSkeletonSource]. *)
Definition skeletonSource_callback (skeletonSource : nat) (this : LayerObject)
    : LayerObject :=
  if negb (wasDisposed this) then
    let base := skeletonSource in
    let this := addRenderLayer (PerspectiveViewSkeletonLayer base) this in
    addRenderLayer (SliceViewPanelSkeletonLayer base) this
  else this.

(** A promise of the constructor is fulfilled. *)
Inductive Resolution :=
| volume_resolved (volume : Volume)
| meshSource_resolved (meshSource : nat)
| skeletonSource_resolved (skeletonSource : nat).

(** The effect of a fulfilled promise on the layer constructed from [x]: the
    callback runs if the constructor requested the promise, that is, if the
    path is not [undefined]. *)
Definition resolved (x : PersistedState) (this : LayerObject) (r : Resolution)
    : LayerObject :=
  match r with
  | volume_resolved volume =>
      match p_source x with
      | Some _ => volume_callback (p_mesh x) volume this
      | None => this
      end
  | meshSource_resolved meshSource =>
      match p_mesh x with
      | Some _ => meshSource_callback meshSource this
      | None => this
      end
  | skeletonSource_resolved skeletonSource =>
      match p_skeletons x with
      | Some _ => skeletonSource_callback skeletonSource this
      | None => this
      end
  end.

(** The promises are fulfilled in the order [rs]. *)
Definition resolved_all (x : PersistedState) (rs : list Resolution) (this : LayerObject)
    : LayerObject :=
  foldl (resolved x) this rs.

(** The mesh sources of the mesh layers among the added layers. *)
Definition mesh_of (l : AddedLayer) : option nat :=
  match l with MeshLayer meshSource => Some meshSource | _ => None end.

(** *** The skeleton layers: transparency, the shader cache *)

(** [a < b] on numbers: false as soon as one side is [NaN]. *)
Definition num_lt (a b : number) : bool :=
  match a, b with
  | Num x, Num y => negb (Qle_bool y x)
  | _, _ => false
  end.

Section SkeletonLayer_further.
Context {D : Type} `{SegmentationDisplayStateWithAlpha D}.
Context {Color : Type}.

(** [PerspectiveViewSkeletonLayer.isTransparent]. *)
Definition PerspectiveView_isTransparent (base : SkeletonLayer D) : bool :=
  num_lt (ds_objectAlpha (displayState base)) (num_of_Z 1).

Definition is_color_uniform (c : RenderCall Color) : bool :=
  match c with uniform4fv_color _ _ => true | _ => false end.

(** The calls made for a skeleton: those of [setColor] and [drawSkeleton]. *)
Definition is_skeleton_call (c : RenderCall Color) : bool :=
  match c with
  | uniform4fv_color _ _ | uniform4fv_pickID _ _ | bindToVertexAttrib _ _ _
  | bindBuffer _ | drawElements _ => true
  | _ => false
  end.

End SkeletonLayer_further.

(** Shader modules and programs, by identity. *)
Abbreviation ShaderModule := nat.
Abbreviation ShaderProgram := nat.

Section PerspectiveView_getShader.

(** [SkeletonShaderManager.getShader(gl, emitter)]: it goes through
    [gl.memoize], the state [G] of which it may change. *)
Context {G : Type}.
Variable manager_getShader : ShaderModule → G → ShaderProgram * G.

(** [PerspectiveViewSkeletonLayer.getShader], on the map [shaders] of the
    layer and the state of the context. *)
Definition PerspectiveView_getShader (emitter : ShaderModule)
    (st : gmap ShaderModule ShaderProgram * G)
    : ShaderProgram * (gmap ShaderModule ShaderProgram * G) :=
  let '(shaders, g) := st in
  match shaders !! emitter with
  | Some shader => (shader, (shaders, g))
  | None =>
      let '(shader, g) := manager_getShader emitter g in
      (shader, (<[emitter := shader]> shaders, g))
  end.

(** The shaders are asked for in the order [emitters]. *)
Definition getShader_all (emitters : list ShaderModule)
    (st : gmap ShaderModule ShaderProgram * G) : gmap ShaderModule ShaderProgram * G :=
  foldl (λ st emitter, (PerspectiveView_getShader emitter st).2) st emitters.

End PerspectiveView_getShader.

(** *** The NIfTI parameters ([datasource/nifti/base.ts]) *)

Record VolumeSourceParameters := { url : string }.

Definition VolumeSourceParameters_stringify (p : VolumeSourceParameters) : string :=
  String.append "nifti:" (url p).

(** The skeleton layers in a history of added layers come in pairs, the
    perspective-view layer directly followed by the slice-view layer of the
    same base. *)
Definition skeleton_layers_paired (added : list AddedLayer) : Prop :=
  (∀ i base, added !! i = Some (PerspectiveViewSkeletonLayer base) →
     added !! S i = Some (SliceViewPanelSkeletonLayer base)) ∧
  (∀ i base, added !! i = Some (SliceViewPanelSkeletonLayer base) →
     ∃ j, i = S j ∧ added !! j = Some (PerspectiveViewSkeletonLayer base)).

(** A persisted state that names a volume, a mesh and skeletons. *)
Definition all_sources_state : PersistedState :=
  {| p_type := Some "segmentation"%string;
     p_source := Some "precomputed://volume"%string;
     p_mesh := Some "precomputed://mesh"%string;
     p_skeletons := Some "precomputed://skeletons"%string;
     p_selectedAlpha := None; p_notSelectedAlpha := None; p_objectAlpha := None;
     p_segments := None; p_equivalences := None |}.

(** A layer object on which nothing has happened yet. *)
Definition new_LayerObject : LayerObject :=
  {| wasDisposed := false; addRenderLayer_calls := []; meshLayer := None |}.

(** * Properties *)

#[local] Set Warnings "-clear-no-such-hyp".

(** ** Off-screen surfaces *)

Lemma allocations_emit c gl :
  allocations (emit c gl) = (allocations gl + if allocates c then 1 else 0)%nat.
Proof.
  unfold allocations, emit. rewrite filter_app, length_app. f_equal.
  rewrite filter_cons, filter_nil.
  destruct (allocates c); case_decide; done.
Qed.

Lemma validations_emit c gl :
  validations (emit c gl) = (validations gl + if is_status_query c then 1 else 0)%nat.
Proof.
  unfold validations, emit. rewrite filter_app, length_app. f_equal.
  rewrite filter_cons, filter_nil.
  destruct (is_status_query c); case_decide; done.
Qed.

(** The two outcomes of [resize], for any surface class. *)
Lemma resize_cases {T} `{SizeManaged T} (this : T) w h gl :
  resize this w h gl =
  if hasSize this w h then (this, gl)
  else (set_size w h this, performResize (set_size w h this) gl).
Proof. reflexivity. Qed.

(** A surface that was never sized has no size: its first [resize] always
    allocates. *)
Lemma hasSize_NaN {T} `{SizeManaged T} (this : T) w h :
  width this = NaN → hasSize this w h = false.
Proof. unfold hasSize. intros ->. reflexivity. Qed.

(** Asking for [NaN] never matches the current size. *)
Lemma hasSize_to_NaN {T} `{SizeManaged T} (this : T) h :
  hasSize this NaN h = false.
Proof. unfold hasSize, strict_eq. destruct (width this); reflexivity. Qed.

(** [hasSize] holds exactly when both stored dimensions are numbers equal to
    the requested ones. *)
Lemma hasSize_true_iff {T} `{SizeManaged T} (this : T) w h :
  hasSize this w h = true ↔
  ∃ sw sh qw qh, width this = Num sw ∧ height this = Num sh ∧
                 w = Num qw ∧ h = Num qh ∧ (sw == qw)%Q ∧ (sh == qh)%Q.
Proof.
  unfold hasSize, strict_eq. split.
  - intros [Hw Hh]%andb_prop.
    destruct (width this) as [|sw], w as [|qw]; try discriminate.
    destruct (height this) as [|sh], h as [|qh]; try discriminate.
    exists sw, sh, qw, qh. repeat split; by apply Qeq_bool_iff.
  - intros (sw & sh & qw & qh & -> & -> & -> & -> & Hw & Hh).
    apply andb_true_intro. split; by apply Qeq_bool_iff.
Qed.

Lemma hasSize_same_number {T} `{SizeManaged T} (this : T) w h :
  hasSize this w h = true ↔ same_number (width this) w ∧ same_number (height this) h.
Proof.
  unfold hasSize, strict_eq, same_number. rewrite andb_true_iff.
  destruct (width this), w, (height this), h; rewrite ?Qeq_bool_iff;
    intuition discriminate.
Qed.

(** C3. For every colour surface (a [Renderbuffer] or a [TextureBuffer]) and
    every [(w, h)]: when the stored width and height are numbers and the
    same numbers as [w] and [h], [resize] returns the same surface and
    leaves the context untouched, so that no allocation is made; in every
    other case the surface carries the new size, the context has received
    exactly the calls of one [performResize] on the resized surface (one
    storage allocation, with the stored width and height), and the
    allocation counter has grown by one.  A [NaN], stored or asked for,
    always puts the call in the second case. *)
Theorem resize_noop_or_single_reallocation (b : ColorBuffer) (w h : number) (gl : GL) :
  let same := same_number (width b) w ∧ same_number (height b) h in
  let r := resize b w h gl in
  (same → r = (b, gl)) ∧
  (¬ same →
     width r.1 = w ∧ height r.1 = h ∧
     r.2 = performResize r.1 gl ∧
     allocations r.2 = S (allocations gl) ∧
     match r.1 with
     | ColorRenderbuffer r' =>
         renderbuffer r' = match b with ColorRenderbuffer r0 => renderbuffer r0 | _ => None end ∧
         r.2 = gl ++ [bindRenderbuffer GLConst.RENDERBUFFER (renderbuffer r');
                      renderbufferStorage GLConst.RENDERBUFFER (internalformat r') w h;
                      bindRenderbuffer GLConst.RENDERBUFFER None]
     | ColorTexture t =>
         texture t = match b with ColorTexture t0 => texture t0 | _ => None end ∧
         r.2 = gl ++ [resizeTexture (texture t) w h (format t) (dataType t)]
     end) ∧
  (w = NaN ∨ h = NaN ∨ width b = NaN ∨ height b = NaN → ¬ same).
Proof.
  intros same r. subst same r. rewrite <- hasSize_same_number, resize_cases.
  split; [by intros ->|]. split.
  - intros Hs%not_true_is_false. rewrite Hs. cbn [fst snd].
    destruct b as [t|r]; simpl.
    + repeat split; try done.
      unfold TextureBuffer_performResize. rewrite allocations_emit. simpl. lia.
    + repeat split; try done.
      * unfold Renderbuffer_performResize. rewrite !allocations_emit. simpl. lia.
      * unfold Renderbuffer_performResize, emit. simpl. by rewrite <- !app_assoc.
  - rewrite hasSize_same_number. unfold same_number.
    intros Hnan [Hw Hh].
    destruct (width b), w, (height b), h; try done; naive_solver.
Qed.

(** Witness for C3: a texture buffer that was resized to 640 by 480 is asked
    for 640 by 480 again. *)
Lemma resize_noop_witness :
  resize (texture_resized_to (num_of_Z 640) (num_of_Z 480)).1 (num_of_Z 640) (num_of_Z 480)
    (texture_resized_to (num_of_Z 640) (num_of_Z 480)).2
  = texture_resized_to (num_of_Z 640) (num_of_Z 480).
Proof.
  apply (resize_noop_or_single_reallocation
           (texture_resized_to (num_of_Z 640) (num_of_Z 480)).1 (num_of_Z 640) (num_of_Z 480)
           (texture_resized_to (num_of_Z 640) (num_of_Z 480)).2).
  split; reflexivity.
Defined.

(** C3 as stated fails: a texture buffer that was resized to [NaN] by 480
    holds the size [(NaN, 480)], and a [resize] to [(NaN, 480)] is not a
    no-op, it allocates again. *)
Lemma resize_at_stored_NaN_size_reallocates :
  ¬ resize_noop_at_stored_size (texture_resized_to NaN (num_of_Z 480)).1 NaN (num_of_Z 480)
      (texture_resized_to NaN (num_of_Z 480)).2.
Proof.
  intros Hc. specialize (Hc eq_refl eq_refl).
  apply (f_equal (λ r, length r.2)) in Hc. vm_compute in Hc. discriminate.
Qed.

(** *** Pixel read-back *)

(** Powers of two as literals, for [lia]. *)
Ltac pow2 :=
  change (2 ^ 8) with 256 in *; change (2 ^ 16) with 65536 in *;
  change (2 ^ 24) with 16777216 in *; change (2 ^ 31) with 2147483648 in *;
  change (2 ^ 32) with 4294967296 in *; change (2 ^ 64) with 18446744073709551616 in *.

Lemma to_int32_small z : - 2 ^ 31 ≤ z < 2 ^ 31 → to_int32 z = z.
Proof. unfold to_int32. pow2. intros Hz. rewrite Z.mod_small; lia. Qed.

Lemma to_int32_high z : 2 ^ 31 ≤ z < 2 ^ 32 → to_int32 z = z - 2 ^ 32.
Proof.
  unfold to_int32. pow2. intros Hz.
  replace (z + 2147483648) with ((z - 2147483648) + 1 * 4294967296) by lia.
  rewrite Z.mod_add by lia. rewrite Z.mod_small; lia.
Qed.

Lemma js_shl_byte x n :
  is_byte x → n = 8 ∨ n = 16 ∨ n = 24 →
  js_shl x n = if x * 2 ^ n <? 2 ^ 31 then x * 2 ^ n else x * 2 ^ n - 2 ^ 32.
Proof.
  unfold is_byte, js_shl. intros Hx Hn.
  rewrite (to_int32_small x) by (pow2; lia).
  assert (Z.land n 31 = n) as -> by (destruct Hn as [->|[->| ->]]; reflexivity).
  rewrite Z.shiftl_mul_pow2 by lia.
  assert (0 ≤ x * 2 ^ n < 2 ^ 32) by (destruct Hn as [->|[->| ->]]; pow2; lia).
  destruct (Z.ltb_spec (x * 2 ^ n) (2 ^ 31)).
  - apply to_int32_small. pow2. lia.
  - apply to_int32_high. lia.
Qed.

(** What [readPixelAsUint32] computes from four bytes: the packed value when
    the last byte is below 128, and the packed value less 2^32 otherwise. *)
Lemma pixel_as_number_bytes r g b a :
  is_byte r → is_byte g → is_byte b → is_byte a →
  pixel_as_number (r, g, b, a) =
  packed_uint32 (r, g, b, a) - (if a <? 128 then 0 else 2 ^ 32).
Proof.
  intros Hr Hg Hb Ha. unfold pixel_as_number, packed_uint32.
  rewrite !js_shl_byte by (done || tauto).
  unfold is_byte in *. pow2.
  destruct (Z.ltb_spec (g * 256) 2147483648); [|lia].
  destruct (Z.ltb_spec (b * 65536) 2147483648); [|lia].
  destruct (Z.ltb_spec (a * 16777216) 2147483648), (Z.ltb_spec a 128); lia.
Qed.

Lemma pixel_as_number_low_alpha r g b a :
  is_byte r → is_byte g → is_byte b → 0 ≤ a < 128 →
  pixel_as_number (r, g, b, a) = packed_uint32 (r, g, b, a) ∧
  0 ≤ pixel_as_number (r, g, b, a) < 2 ^ 31.
Proof.
  intros Hr Hg Hb Ha. rewrite pixel_as_number_bytes by (done || (unfold is_byte; lia)).
  destruct (Z.ltb_spec a 128); [|lia].
  unfold packed_uint32, is_byte in *. pow2. lia.
Qed.

Lemma pixel_as_number_high_alpha r g b a :
  is_byte r → is_byte g → is_byte b → 128 ≤ a ≤ 255 →
  pixel_as_number (r, g, b, a) = packed_uint32 (r, g, b, a) - 2 ^ 32 ∧
  pixel_as_number (r, g, b, a) < 0.
Proof.
  intros Hr Hg Hb Ha. rewrite pixel_as_number_bytes by (done || (unfold is_byte; lia)).
  destruct (Z.ltb_spec a 128); [lia|].
  unfold packed_uint32, is_byte in *. pow2. lia.
Qed.

(** C4. The pixel with bytes (0, 0, 0, 128) packs to 2^31 = 2147483648 as a
    little-endian unsigned value, but [readPixelAsUint32] returns
    -2147483648 for it: [result[3] << 24] is a signed 32-bit shift. *)
Theorem readPixelAsUint32_alpha_128 :
  let '(this, gl) := one_texture_configuration in
  ∃ gl',
    readPixelAsUint32 (λ _ _ _, (0, 0, 0, 128)) this 0 (num_of_Z 0) (num_of_Z 0) gl
      = Returned (-2147483648) gl' ∧
    packed_uint32 (0, 0, 0, 128) = 2147483648.
Proof. vm_compute. eexists. split; reflexivity. Qed.

(** *** Validation of the attachments *)

Section Validation.
Variable framebufferStatus : GL → Z.

Local Abbreviation verify := (verifyAttachment framebufferStatus).
Local Abbreviation bind := (FramebufferConfiguration_bind framebufferStatus).

Lemma validations_resize_color (b : ColorBuffer) w h gl :
  validations (resize b w h gl).2 = validations gl.
Proof.
  rewrite resize_cases. destruct (hasSize b w h); [done|].
  destruct b; simpl;
    unfold TextureBuffer_performResize, Renderbuffer_performResize;
    rewrite ?validations_emit; simpl; lia.
Qed.

Lemma validations_resize_depth (d : DepthBuffer) w h gl :
  validations (resize d w h gl).2 = validations gl.
Proof.
  rewrite resize_cases. destruct (hasSize d w h); [done|]. simpl.
  unfold Renderbuffer_performResize. rewrite !validations_emit. simpl. lia.
Qed.

Lemma validations_bind_colorBuffers bufs : ∀ i w h gl,
  validations (bind_colorBuffers i bufs w h gl).2 = validations gl.
Proof.
  induction bufs as [|b bufs IH]; intros i w h gl; [done|]. simpl.
  destruct (resize b w h gl) as [b' gl1] eqn:Hr.
  destruct (bind_colorBuffers _ bufs w h _) as [rest gl2] eqn:Hb. simpl.
  pose proof (IH (S i) w h
    (ColorBuffer_attachToFramebuffer b' (GLConst.COLOR_ATTACHMENT0 + Z.of_nat i) gl1)) as IH'.
  rewrite Hb in IH'. simpl in IH'. rewrite IH'.
  pose proof (validations_resize_color b w h gl) as Hv. rewrite Hr in Hv. simpl in Hv.
  rewrite <- Hv.
  destruct b'; simpl;
    unfold TextureBuffer_attachToFramebuffer, Renderbuffer_attachToFramebuffer;
    rewrite validations_emit; simpl; lia.
Qed.

(** The three ways [verifyAttachment] can go. *)
Lemma verifyAttachment_cases this gl :
  verify this gl =
  if attachmentVerified this then Returned tt (this, gl)
  else if decide (framebufferStatus gl = GLConst.FRAMEBUFFER_COMPLETE)
       then Returned tt (set_attachmentVerified true this,
                         emit (checkFramebufferStatus GLConst.FRAMEBUFFER) gl)
       else Thrown "Framebuffer configuration not supported"
                   (this, emit (checkFramebufferStatus GLConst.FRAMEBUFFER) gl).
Proof.
  unfold verifyAttachment. destruct (attachmentVerified this); [done|].
  case_decide as E.
  - rewrite E. reflexivity.
  - apply Z.eqb_neq in E. rewrite E. reflexivity.
Qed.

(** [bind] reaches [verifyAttachment] in a state with the same cached flag and
    without having asked for a validation; its outcome is that of the
    verification, with the [viewport] call added when it returns. *)
Lemma bind_reaches_verify this w h gl :
  ∃ this1 gl1,
    attachmentVerified this1 = attachmentVerified this ∧
    validations gl1 = validations gl ∧
    bind this w h gl =
      match verify this1 gl1 with
      | Thrown msg s => Thrown msg s
      | Returned _ (this2, gl2) => Returned tt (this2, emit (viewport 0 0 w h) gl2)
      end.
Proof.
  unfold FramebufferConfiguration_bind.
  destruct (match depthBuffer this with Some _ => _ | None => _ end) as [depth gl1] eqn:Hd.
  destruct (bind_colorBuffers 0 (colorBuffers this) w h gl1) as [colors gl2] eqn:Hc.
  eexists _, _. split; [|split; [|reflexivity]]; [done|].
  rewrite validations_emit. simpl.
  pose proof (validations_bind_colorBuffers (colorBuffers this) 0%nat w h gl1) as Hv.
  rewrite Hc in Hv. simpl in Hv. rewrite Nat.add_0_r, Hv.
  destruct (depthBuffer this) as [d|].
  - destruct (resize d w h _) as [d' gl'] eqn:Hr. injection Hd as <- <-.
    unfold DepthBuffer_attachToFramebuffer, Renderbuffer_attachToFramebuffer.
    rewrite validations_emit. simpl.
    pose proof (validations_resize_depth d w h (Framebuffer_bind (framebuffer this) gl)) as Hv'.
    rewrite Hr in Hv'. simpl in Hv'. rewrite Nat.add_0_r, Hv'.
    unfold Framebuffer_bind. rewrite validations_emit. simpl. lia.
  - injection Hd as <- <-. unfold Framebuffer_bind. rewrite validations_emit. simpl. lia.
Qed.

(** A bind on a configuration whose attachments were verified returns, keeps
    the flag and asks for no validation. *)
Lemma bind_verified this w h gl :
  attachmentVerified this = true →
  ∃ this' gl', bind this w h gl = Returned tt (this', gl') ∧
               attachmentVerified this' = true ∧
               validations gl' = validations gl.
Proof.
  intros Hv. destruct (bind_reaches_verify this w h gl) as (this1 & gl1 & Hf & Hn & ->).
  rewrite verifyAttachment_cases, Hf, Hv.
  eexists _, _. split; [reflexivity|]. split; [congruence|].
  rewrite validations_emit. simpl. lia.
Qed.

(** A bind on a configuration not verified yet asks for exactly one
    validation; it returns with the flag set, or throws with the flag still
    unset. *)
Lemma bind_unverified this w h gl :
  attachmentVerified this = false →
  ∃ this' gl',
    validations gl' = S (validations gl) ∧
    (bind this w h gl = Returned tt (this', gl') ∧ attachmentVerified this' = true
     ∨ bind this w h gl = Thrown "Framebuffer configuration not supported" (this', gl')
       ∧ attachmentVerified this' = false).
Proof.
  intros Hv. destruct (bind_reaches_verify this w h gl) as (this1 & gl1 & Hf & Hn & ->).
  rewrite verifyAttachment_cases, Hf, Hv. case_decide.
  - eexists _, _. split; [|left; split; [reflexivity|done]].
    rewrite !validations_emit. simpl. lia.
  - eexists _, _. split; [|right; split; [reflexivity|congruence]].
    rewrite validations_emit. simpl. lia.
Qed.

Lemma bind_all_verified sizes : ∀ this gl,
  attachmentVerified this = true →
  validations (bind_all framebufferStatus this sizes gl).2 = validations gl.
Proof.
  induction sizes as [|[w h] sizes IH]; intros this gl Hv; [done|]. simpl.
  destruct (bind_verified this w h gl Hv) as (this' & gl' & -> & Hv' & Hn). simpl.
  rewrite IH by done. done.
Qed.

Lemma new_FramebufferConfiguration_lazy gl configuration :
  attachmentVerified (new_FramebufferConfiguration gl configuration).1 = false ∧
  validations (new_FramebufferConfiguration gl configuration).2 = validations gl.
Proof.
  unfold new_FramebufferConfiguration.
  destruct (cfg_framebuffer configuration); simpl; [done|].
  split; [done|]. rewrite validations_emit. simpl. lia.
Qed.

(** C5, as the code has it. Construction asks for no validation and leaves
    the flag unset.  When the first bind after construction returns (the
    framebuffer was found complete), that bind has asked for the one and only
    validation: after any number of further binds on the same object the
    count is still one.  When the first bind throws, the flag is still unset
    after it. *)
Theorem validation_cached_once_first_bind_succeeds
    (configuration : Configuration) (gl : GL) (w h : number) (rest : list (number * number)) :
  let this := (new_FramebufferConfiguration gl configuration).1 in
  let gl0 := (new_FramebufferConfiguration gl configuration).2 in
  attachmentVerified this = false ∧ validations gl0 = validations gl ∧
  (has_thrown (bind this w h gl0) = false →
     validated_once_at_first_bind framebufferStatus configuration gl ((w, h) :: rest)) ∧
  (has_thrown (bind this w h gl0) = true →
     attachmentVerified (final_state (bind this w h gl0)).1 = false ∧
     validations (final_state (bind this w h gl0)).2 = S (validations gl)).
Proof.
  intros this gl0.
  destruct (new_FramebufferConfiguration_lazy gl configuration) as [Hf Hn].
  fold this in Hf. fold gl0 in Hn.
  split; [done|]. split; [done|].
  destruct (bind_unverified this w h gl0 Hf) as (this' & gl' & Hv & [[Hb Hf']|[Hb Hf']]).
  - split; [|rewrite Hb; discriminate].
    intros _. unfold validated_once_at_first_bind.
    destruct (new_FramebufferConfiguration gl configuration) as [this0 gl00] eqn:Hnew.
    simpl in this, gl0. subst this gl0.
    intros [|k] Hk; [lia|]. simpl. rewrite Hb. simpl.
    rewrite bind_all_verified by done. lia.
  - split; [rewrite Hb; discriminate|].
    intros _. rewrite Hb. simpl. split; [done|lia].
Qed.

(** C6. When validation runs (the flag is unset), [verifyAttachment] throws
    if and only if the status is not [FRAMEBUFFER_COMPLETE]; when it throws,
    the object is the one it was called on, with the flag still unset, and
    the only call made is the status query; when it returns, the flag is
    set. *)
Theorem verifyAttachment_throws_iff_incomplete (this : FramebufferConfiguration) (gl : GL) :
  attachmentVerified this = false →
  (has_thrown (verify this gl) = true ↔ framebufferStatus gl ≠ GLConst.FRAMEBUFFER_COMPLETE) ∧
  (framebufferStatus gl ≠ GLConst.FRAMEBUFFER_COMPLETE →
     verify this gl =
       Thrown "Framebuffer configuration not supported"
              (this, emit (checkFramebufferStatus GLConst.FRAMEBUFFER) gl) ∧
     attachmentVerified (final_state (verify this gl)).1 = false) ∧
  (framebufferStatus gl = GLConst.FRAMEBUFFER_COMPLETE →
     verify this gl =
       Returned tt (set_attachmentVerified true this,
                    emit (checkFramebufferStatus GLConst.FRAMEBUFFER) gl)).
Proof.
  intros Hf. rewrite verifyAttachment_cases, Hf. case_decide as E.
  - split; [split; [discriminate|done]|]. split; [done|done].
  - split; [split; done|]. split; [done|done].
Qed.

(** Once the flag is set, [verifyAttachment] does nothing at all. *)
Lemma verifyAttachment_verified this gl :
  attachmentVerified this = true → verify this gl = Returned tt (this, gl).
Proof. intros Hf. by rewrite verifyAttachment_cases, Hf. Qed.

(** The error is not swallowed by [bind]: when the verification inside a bind
    throws, the bind throws with the same message and never reaches
    [viewport]. *)
Lemma bind_propagates_incomplete this w h gl :
  attachmentVerified this = false →
  has_thrown (bind this w h gl) = true →
  ∃ s, bind this w h gl = Thrown "Framebuffer configuration not supported" s ∧
       attachmentVerified s.1 = false ∧
       last s.2 = Some (checkFramebufferStatus GLConst.FRAMEBUFFER).
Proof.
  intros Hv Ht. destruct (bind_reaches_verify this w h gl) as (this1 & gl1 & Hf & Hn & Hb).
  rewrite Hb in *. rewrite verifyAttachment_cases, Hf, Hv in *. case_decide; [discriminate|].
  eexists. split; [reflexivity|]. simpl. split; [congruence|].
  unfold emit. by rewrite last_snoc.
Qed.

End Validation.

(** Witness for C5: with a driver that reports completeness, three binds on a
    freshly built configuration validate once. *)
Lemma validation_cached_once_witness :
  validated_once_at_first_bind (λ _, GLConst.FRAMEBUFFER_COMPLETE)
    one_texture_setup.1 one_texture_setup.2
    [(num_of_Z 640, num_of_Z 480); (num_of_Z 640, num_of_Z 480);
     (num_of_Z 800, num_of_Z 600)].
Proof.
  apply (validation_cached_once_first_bind_succeeds (λ _, GLConst.FRAMEBUFFER_COMPLETE)
           one_texture_setup.1 one_texture_setup.2 (num_of_Z 640) (num_of_Z 480)).
  reflexivity.
Defined.

(** C5 as stated fails: with a driver that reports an unsupported
    configuration the first bind throws without caching anything, and the
    second bind on the same object validates again. *)
Lemma validation_repeated_after_failed_bind :
  ¬ validated_once_at_first_bind (λ _, GLConst.FRAMEBUFFER_UNSUPPORTED)
      one_texture_setup.1 one_texture_setup.2
      [(num_of_Z 640, num_of_Z 480); (num_of_Z 640, num_of_Z 480)].
Proof.
  intros Hc. unfold validated_once_at_first_bind in Hc.
  destruct (new_FramebufferConfiguration _ _) as [this gl0] eqn:Hnew.
  specialize (Hc 2%nat (conj (le_S _ _ (le_n _)) (le_n _))).
  vm_compute in Hnew. injection Hnew as <- <-.
  vm_compute in Hc. discriminate.
Qed.

(** Witness for C6: a freshly built configuration on a driver that reports an
    unsupported configuration. *)
Lemma verifyAttachment_throws_witness :
  has_thrown (verifyAttachment (λ _, GLConst.FRAMEBUFFER_UNSUPPORTED)
                one_texture_configuration.1 one_texture_configuration.2) = true.
Proof.
  apply (verifyAttachment_throws_iff_incomplete (λ _, GLConst.FRAMEBUFFER_UNSUPPORTED)
           one_texture_configuration.1 one_texture_configuration.2).
  - reflexivity.
  - discriminate.
Defined.

(** ** The segmentation layer *)

Lemma Uint64_equal_iff a b : Uint64.equal a b = true ↔ a = b.
Proof.
  unfold Uint64.equal. destruct a as [al ah], b as [bl bh]. simpl.
  rewrite andb_true_iff, !Z.eqb_eq. split; [intros [-> ->]; done|].
  intros [= -> ->]. done.
Qed.

Lemma set_visibleSegments_same this :
  set_visibleSegments (visibleSegments this) this = this.
Proof. by destruct this. Qed.

Lemma set_visibleSegments_twice v v' this :
  set_visibleSegments v (set_visibleSegments v' this) = set_visibleSegments v this.
Proof. reflexivity. Qed.

Section Layer.
Context `{DisjointUint64Sets.RepresentativeRule}.
Variable randomize : SegmentColorHash → SegmentColorHash.

(** One ['select'] action on a layer with a selected segment flips the
    membership of that segment and touches nothing else. *)
Lemma select_toggles this :
  hasSelectedSegment (segmentSelectionState this) = true →
  let id := selectedSegment (segmentSelectionState this) in
  handleAction randomize this "select" =
  set_visibleSegments
    (if Uint64Set.has (visibleSegments this) id
     then visibleSegments this ∖ {[id]} else {[id]} ∪ visibleSegments this) this.
Proof.
  intros Hs id. unfold handleAction.
  rewrite decide_False by discriminate. rewrite decide_False by discriminate.
  rewrite decide_True by done. rewrite Hs. fold id.
  by destruct (Uint64Set.has (visibleSegments this) id).
Qed.

(** C9. On a layer whose selected segment is [id], the first ['select'] flips
    the visibility of [id]; a second one gives back the very same layer
    state, and hence the same serialization. *)
Theorem select_twice_same_serialization (this : SegmentationUserLayer) (id : Uint64.t) :
  hasSelectedSegment (segmentSelectionState this) = true →
  selectedSegment (segmentSelectionState this) = id →
  let once := handleAction randomize this "select" in
  let twice := handleAction randomize once "select" in
  Uint64Set.has (visibleSegments once) id = negb (Uint64Set.has (visibleSegments this) id) ∧
  twice = this ∧
  toJSON twice = toJSON this.
Proof.
  intros Hs Hid once twice.
  assert (once = set_visibleSegments
            (if Uint64Set.has (visibleSegments this) id
             then visibleSegments this ∖ {[id]} else {[id]} ∪ visibleSegments this) this)
    as Honce by (subst once; rewrite <- Hid; by apply select_toggles).
  assert (Uint64Set.has (visibleSegments once) id
          = negb (Uint64Set.has (visibleSegments this) id)) as Hflip.
  { rewrite Honce. unfold Uint64Set.has. simpl.
    destruct (bool_decide (id ∈ visibleSegments this)) eqn:E; simpl.
    - apply bool_decide_eq_false. set_solver.
    - apply bool_decide_eq_true. set_solver. }
  assert (twice = this) as Htwice.
  { subst twice. rewrite select_toggles by (rewrite Honce; done).
    replace (selectedSegment (segmentSelectionState once)) with id
      by (rewrite Honce; done).
    rewrite Hflip. clear Hflip. subst once. rewrite Honce. clear Honce.
    rewrite set_visibleSegments_twice.
    transitivity (set_visibleSegments (visibleSegments this) this);
      [f_equal|apply set_visibleSegments_same].
    unfold Uint64Set.has. simpl.
    destruct (bool_decide (id ∈ visibleSegments this)) eqn:E; simpl.
    - apply bool_decide_eq_true in E.
      symmetry. apply union_difference_singleton_L. done.
    - apply bool_decide_eq_false in E. set_solver. }
  split; [done|]. split; [done|]. by rewrite Htwice.
Qed.

(** C10. [transformPickedValue] returns its argument unchanged when it is
    [null] or [undefined], and when the equivalence map is empty.  Otherwise
    a number is first widened to the identifier with that low word and a zero
    high word, and the result for the (widened) identifier [u] is [u] itself
    when [u] is its own representative and the entry pairing [u] with its
    representative when it is not. *)
Theorem transformPickedValue_cases (this : SegmentationUserLayer) (v : PickedValue) :
  let equivalences := segmentEquivalences this in
  (v = PickedNull ∨ v = PickedUndefined → transformPickedValue this v = Unmapped v) ∧
  (equivalences = ∅ → transformPickedValue this v = Unmapped v) ∧
  (∀ n, v = PickedNumber n → equivalences ≠ ∅ →
     transformPickedValue this v = transformPickedValue this (PickedUint64 (Uint64.mk n 0))) ∧
  (∀ u, v = PickedUint64 u → equivalences ≠ ∅ →
     DisjointUint64Sets.get equivalences u = u →
     transformPickedValue this v = Unmapped v) ∧
  (∀ u, v = PickedUint64 u → equivalences ≠ ∅ →
     DisjointUint64Sets.get equivalences u ≠ u →
     transformPickedValue this v =
       Mapped {| entry_key := u; entry_value := DisjointUint64Sets.get equivalences u |}).
Proof.
  intros equivalences. unfold transformPickedValue. fold equivalences.
  assert (∀ A (a b : A), equivalences ≠ ∅ →
            (if decide (DisjointUint64Sets.size equivalences = 0%nat) then a else b) = b)
    as Hne.
  { intros A a b Hm. rewrite decide_False; [done|].
    unfold DisjointUint64Sets.size. by rewrite map_size_empty_iff. }
  repeat split.
  - intros [-> | ->]; done.
  - intros ->. destruct v; done.
  - intros n -> Hm. simpl. by rewrite !Hne.
  - intros u -> Hm Hu. simpl. rewrite Hne by done. rewrite Hu.
    by rewrite (proj2 (Uint64_equal_iff u u) eq_refl).
  - intros u -> Hm Hu. simpl. rewrite Hne by done.
    destruct (Uint64.equal _ u) eqn:E; [|done].
    by apply Uint64_equal_iff in E.
Qed.

(** C7. Whatever the representative rule, restoring from
    [{"segments": ["18446744073709551615"], "equivalences": []}] succeeds;
    the string is parsed to the identifier with both words [0xFFFFFFFF],
    whose value is 2^64 - 1, and the visible-segment set of the layer is
    exactly that identifier. *)
Theorem restore_max_uint64_visible :
  let x := {| p_type := Some "segmentation"%string; p_source := None; p_mesh := None;
              p_skeletons := None; p_selectedAlpha := None; p_notSelectedAlpha := None;
              p_objectAlpha := None;
              p_segments := Some ["18446744073709551615"%string];
              p_equivalences := Some [] |} in
  Uint64.parseString "18446744073709551615" = Some max_uint64 ∧
  Uint64.toZ max_uint64 = 2 ^ 64 - 1 ∧
  ∃ layer, new_SegmentationUserLayer x = Some layer ∧
           visibleSegments layer = {[max_uint64]} ∧
           segmentEquivalences layer = ∅ ∧
           Uint64Set.has (visibleSegments layer) max_uint64 = true.
Proof.
  intros x. split; [reflexivity|]. split; [reflexivity|].
  exists (layer_with [max_uint64] ∅
            {| hasSelectedSegment := false; selectedSegment := Uint64.mk 0 0 |}).
  split; [|split; [|split]].
  - assert (Uint64.parseString "18446744073709551615" = Some max_uint64) as Hp
      by reflexivity.
    unfold new_SegmentationUserLayer, x, layer_with. simpl p_segments. simpl p_equivalences.
    cbn [restoreSegments alpha_restoreState p_selectedAlpha p_notSelectedAlpha
         p_objectAlpha mbind option_bind]. rewrite Hp. reflexivity.
  - simpl. apply right_id_L, _.
  - reflexivity.
  - apply bool_decide_eq_true. simpl. set_solver.
Qed.

End Layer.

(** Witness for C9: the layer showing segments 5 and 7, with 7 selected. *)
Lemma select_twice_witness :
  let this := layer_with [Uint64.ofZ 5; Uint64.ofZ 7] ∅
                {| hasSelectedSegment := true; selectedSegment := Uint64.ofZ 7 |} in
  toJSON (handleAction (λ h, h) (handleAction (λ h, h) this "select") "select") = toJSON this.
Proof.
  intros this.
  apply (select_twice_same_serialization (λ h, h) this (Uint64.ofZ 7)); reflexivity.
Defined.

(** Witness for C10: with 5 and 7 merged by size (5 represents both), the
    picked number 7 is mapped to the entry 7 -> 5. *)
Lemma transformPickedValue_witness :
  let this := layer_with []
                (@DisjointUint64Sets.link DisjointUint64Sets.by_size
                   (Uint64.ofZ 5) (Uint64.ofZ 7) ∅)
                {| hasSelectedSegment := false; selectedSegment := Uint64.ofZ 0 |} in
  transformPickedValue this (PickedUint64 (Uint64.ofZ 7)) =
    Mapped {| entry_key := Uint64.ofZ 7; entry_value := Uint64.ofZ 5 |}.
Proof.
  intros this.
  apply (transformPickedValue_cases this (PickedUint64 (Uint64.ofZ 7))).
  - reflexivity.
  - apply (bool_decide_unpack _). vm_compute. exact I.
  - discriminate.
Defined.

(** ** Identifiers and their decimal form *)

Lemma Uint64_ofZ_toZ u : Uint64.valid u → Uint64.ofZ (Uint64.toZ u) = u.
Proof.
  destruct u as [l h]. unfold Uint64.valid, Uint64.ofZ, Uint64.toZ. simpl.
  pow2. intros [Hl Hh]. f_equal.
  - rewrite (Z.mul_comm _ h), Z.mod_add by lia. apply Z.mod_small. lia.
  - rewrite (Z.mul_comm _ h), Z.div_add by lia. rewrite Z.div_small; lia.
Qed.

Lemma Uint64_toZ_range u : Uint64.valid u → 0 ≤ Uint64.toZ u < 2 ^ 64.
Proof. unfold Uint64.valid, Uint64.toZ. pow2. lia. Qed.

Lemma Uint64_ofZ_valid n : 0 ≤ n < 2 ^ 64 → Uint64.valid (Uint64.ofZ n).
Proof.
  unfold Uint64.valid, Uint64.ofZ. simpl. pow2. intros Hn. split.
  - apply Z.mod_pos_bound. lia.
  - split; [apply Z.div_pos; lia|]. apply Z.div_lt_upper_bound; lia.
Qed.

(** Only 64-bit values parse. *)
Lemma parseString_valid s u : Uint64.parseString s = Some u → Uint64.valid u.
Proof.
  unfold Uint64.parseString. destruct (NilZero.uint_of_string s) as [d|]; [|done].
  simpl. destruct (Z.ltb_spec (Z.of_N (N.of_uint d)) (2 ^ 64)); [|done].
  intros [= <-]. apply Uint64_ofZ_valid. lia.
Qed.

(** Formatting and parsing again gives the identifier back, exactly. *)
Lemma parseString_toString u :
  Uint64.valid u → Uint64.parseString (Uint64.toString u) = Some u.
Proof.
  intros Hu. pose proof (Uint64_toZ_range u Hu) as Hr.
  unfold Uint64.parseString, Uint64.toString.
  rewrite NilZero.usu.
  - rewrite DecimalN.Unsigned.of_to, Z2N.id by lia.
    destruct (Z.ltb_spec (Uint64.toZ u) (2 ^ 64)); [|lia].
    by rewrite Uint64_ofZ_toZ.
  - destruct (Z.to_N (Uint64.toZ u)); simpl; [discriminate|].
    apply DecimalPos.Unsigned.to_uint_nonnil.
Qed.

(** ** The equivalence relation *)

Section DisjointSets.
Import DisjointUint64Sets.
Context `{RepresentativeRule}.
Implicit Types (m : gmap Uint64.t Uint64.t) (a b x y k r : Uint64.t).

Lemma get_empty x : get ∅ x = x.
Proof. unfold get. by rewrite lookup_empty. Qed.

Lemma wf_empty : wf ∅.
Proof. intros k r. by rewrite lookup_empty. Qed.

Lemma get_lookup m k r : m !! k = Some r → get m k = r.
Proof. unfold get. by intros ->. Qed.

(** [find] is idempotent. *)
Lemma get_get m x : wf m → get m (get m x) = get m x.
Proof.
  intros Hwf. destruct (m !! x) as [r|] eqn:E.
  - rewrite (get_lookup m x r E). apply get_lookup. by apply (Hwf x).
  - assert (get m x = x) as Hx by (unfold get; by rewrite E). by rewrite !Hx.
Qed.

Lemma get_makeSet x m y : get (makeSet x m) y = get m y.
Proof.
  unfold makeSet. destruct (m !! x) eqn:E; [done|].
  unfold get. destruct (decide (x = y)) as [->|Hne].
  - by rewrite lookup_insert_eq, E.
  - by rewrite lookup_insert_ne.
Qed.

Lemma wf_makeSet x m : wf m → wf (makeSet x m).
Proof.
  intros Hwf. unfold makeSet. destruct (m !! x) eqn:E; [done|].
  intros k r. destruct (decide (x = k)) as [->|Hne].
  - rewrite lookup_insert_eq. intros [= <-]. by rewrite lookup_insert_eq.
  - rewrite lookup_insert_ne by done. intros Hk.
    pose proof (Hwf k r Hk) as Hr.
    destruct (decide (x = r)) as [->|Hne']; [congruence|].
    by rewrite lookup_insert_ne.
Qed.

Lemma makeSet_mono x m k r : m !! k = Some r → makeSet x m !! k = Some r.
Proof.
  intros Hk. unfold makeSet. destruct (m !! x) eqn:E; [done|].
  rewrite lookup_insert_ne; [done|]. intros ->. congruence.
Qed.

(** After [makeSet x], the representative of [x] is recorded as a root. *)
Lemma makeSet_root x m : wf m → makeSet x m !! get m x = Some (get m x).
Proof.
  intros Hwf. unfold makeSet, get. destruct (m !! x) as [r|] eqn:E; simpl.
  - by apply (Hwf x).
  - by rewrite lookup_insert_eq.
Qed.

Lemma get_relabel m l w x :
  m !! l = Some l → get (relabel l w <$> m) x = relabel l w (get m x).
Proof.
  intros Hl. unfold get. rewrite lookup_fmap.
  destruct (m !! x) as [r|] eqn:E; simpl; [done|].
  unfold relabel. case_decide; [subst; congruence|done].
Qed.

Lemma wf_relabel m l w :
  wf m → m !! w = Some w → l ≠ w → wf (relabel l w <$> m).
Proof.
  intros Hwf Hw Hne k r. rewrite !lookup_fmap.
  destruct (m !! k) as [r0|] eqn:E; simpl; [|done].
  intros [= <-].
  assert (relabel l w w = w) as Hww by (unfold relabel; by rewrite decide_False).
  destruct (decide (r0 = l)) as [->|Hr].
  - assert (relabel l w l = w) as -> by (unfold relabel; by rewrite decide_True).
    rewrite Hw. simpl. by rewrite Hww.
  - assert (relabel l w r0 = r0) as -> by (unfold relabel; by rewrite decide_False).
    rewrite (Hwf k r0 E). simpl. unfold relabel. by rewrite decide_False.
Qed.

(** What a merge does to [find]: nothing when the two identifiers are
    equivalent already; otherwise one of the two roots (the loser) is
    replaced by the other (the winner) everywhere. *)
Lemma link_get a b m :
  wf m →
  wf (link a b m) ∧
  (get m a = get m b ∧ link a b m = m
   ∨ get m a ≠ get m b ∧
     ∃ w l, (w = get m a ∧ l = get m b ∨ w = get m b ∧ l = get m a) ∧
            ∀ x, get (link a b m) x = relabel l w (get m x)).
Proof.
  intros Hwf. unfold link, union. case_decide as Hab; simpl; [by auto|].
  set (m1 := makeSet b (makeSet a m)).
  assert (wf m1) as Hwf1 by (by apply wf_makeSet, wf_makeSet).
  assert (∀ x, get m1 x = get m x) as Hget1
    by (intros x; unfold m1; by rewrite !get_makeSet).
  assert (m1 !! get m a = Some (get m a)) as Ha
    by (unfold m1; apply makeSet_mono, makeSet_root; done).
  assert (m1 !! get m b = Some (get m b)) as Hb.
  { unfold m1. rewrite <- (get_makeSet a m b). apply makeSet_root. by apply wf_makeSet. }
  destruct (prefer m1 (get m a) (get m b)); simpl.
  - split; [apply wf_relabel; done || congruence|].
    right. split; [done|]. exists (get m a), (get m b). split; [by left|].
    intros x. by rewrite get_relabel, Hget1.
  - split; [apply wf_relabel; done || congruence|].
    right. split; [done|]. exists (get m b), (get m a). split; [by right|].
    intros x. by rewrite get_relabel, Hget1.
Qed.

Lemma wf_link a b m : wf m → wf (link a b m).
Proof. intros Hwf. by apply link_get. Qed.

(** [union(a, b)] merges the classes of [a] and [b] and nothing else. *)
Lemma same_class_link a b m x y :
  wf m →
  same_class (link a b m) x y ↔
  same_class m x y ∨ same_class m x a ∧ same_class m b y
                   ∨ same_class m x b ∧ same_class m a y.
Proof.
  intros Hwf. unfold same_class.
  destruct (link_get a b m Hwf) as [_ [[Hab ->]|[Hab (w & l & Hwl & Hget)]]].
  - split; [by auto|]. intros [?|[[? ?]|[? ?]]]; congruence.
  - rewrite !Hget. unfold relabel.
    destruct Hwl as [[-> ->]|[-> ->]]; repeat case_decide; intuition congruence.
Qed.

(** [union] reports a change exactly when the two were not equivalent. *)
Lemma union_changed a b m : (union a b m).2 = bool_decide (get m a ≠ get m b).
Proof.
  unfold union. case_decide as E; simpl.
  - by rewrite bool_decide_eq_false_2 by auto.
  - destruct (prefer _ _ _); simpl; by rewrite bool_decide_eq_true_2.
Qed.

Lemma union_again a b m : wf m → (union a b (link a b m)).2 = false.
Proof.
  intros Hwf. rewrite union_changed. apply bool_decide_eq_false_2. intros Hne. apply Hne.
  apply (same_class_link a b m a b Hwf). right. left. done.
Qed.

End DisjointSets.

(** *** Sequences of merges and the partition they build *)

Lemma rtsc_in_equivalence {A} (R E : relation A) :
  Equivalence E → (∀ a b, R a b → E a b) → ∀ x y, rtsc R x y → E x y.
Proof.
  intros HE HR x y Hxy. induction Hxy as [x|x z y [Hs|Hs] _ IH].
  - reflexivity.
  - transitivity z; [by apply HR|done].
  - transitivity z; [symmetry; by apply HR|done].
Qed.

Section Partition.
Import DisjointUint64Sets.
Context `{RepresentativeRule}.
Implicit Types (m : gmap Uint64.t Uint64.t) (a b x y k r : Uint64.t).
Implicit Types (ps : list (Uint64.t * Uint64.t)).

#[local] Instance same_class_equivalence m : Equivalence (same_class m).
Proof.
  unfold same_class. split.
  - by intros x.
  - by intros x y.
  - intros x y z. congruence.
Qed.

Lemma linkAll_cons p ps m : linkAll (p :: ps) m = linkAll ps (link p.1 p.2 m).
Proof. reflexivity. Qed.

Lemma wf_linkAll ps : ∀ m, wf m → wf (linkAll ps m).
Proof.
  induction ps as [|p ps IH]; intros m Hwf; [done|].
  rewrite linkAll_cons. by apply IH, wf_link.
Qed.

(** After a sequence of merges, two identifiers are equivalent exactly when
    a chain of steps joins them, each step being an equivalence that held
    before or one of the merged pairs, in either direction. *)
Lemma same_class_linkAll ps : ∀ m x y,
  wf m →
  same_class (linkAll ps m) x y ↔ rtsc (λ a b, same_class m a b ∨ (a, b) ∈ ps) x y.
Proof.
  induction ps as [|[p1 p2] ps IH]; intros m x y Hwf.
  - simpl. split.
    + intros Hxy. apply rtsc_lr. by left.
    + apply rtsc_in_equivalence; [apply _|].
      intros a b [Hab|Hab]; [done|]. by apply elem_of_nil in Hab.
  - rewrite linkAll_cons. simpl. rewrite IH by (by apply wf_link). split.
    + apply rtsc_in_equivalence; [apply _|].
      intros a b [Hab|Hab].
      * apply same_class_link in Hab as [Hab|[[Ha Hb]|[Ha Hb]]]; [| | |done].
        -- apply rtsc_lr. by left.
        -- transitivity p1; [apply rtsc_lr; by left|].
           transitivity p2; [apply rtsc_lr; right; by left|].
           apply rtsc_lr. by left.
        -- transitivity p2; [apply rtsc_lr; by left|].
           transitivity p1; [apply rtsc_rl; right; by left|].
           apply rtsc_lr. by left.
      * apply rtsc_lr. right. by right.
    + apply rtsc_in_equivalence; [apply _|].
      intros a b [Hab|Hab].
      * apply rtsc_lr. left. apply same_class_link; [done|]. by left.
      * apply elem_of_cons in Hab as [[= -> ->]|Hab].
        -- apply rtsc_lr. left. apply same_class_link; [done|]. right. by left.
        -- apply rtsc_lr. by right.
Qed.

(** Starting from the empty relation: connected by the merged pairs, directly
    or transitively. *)
Lemma same_class_linkAll_empty ps x y :
  same_class (linkAll ps ∅) x y ↔ joined ps x y.
Proof.
  rewrite same_class_linkAll by apply wf_empty. unfold joined. split.
  - apply rtsc_in_equivalence; [apply _|].
    intros a b [Hab|Hab]; [|by apply rtsc_lr].
    unfold same_class in Hab. rewrite !get_empty in Hab. by subst.
  - apply rtsc_in_equivalence; [apply _|].
    intros a b Hab. apply rtsc_lr. by right.
Qed.

Lemma elem_of_pairs m k v : (k, v) ∈ pairs m ↔ m !! k = Some v ∧ k ≠ v.
Proof.
  unfold pairs. rewrite elem_of_map_to_list. by rewrite map_lookup_filter_Some.
Qed.

(** The serialized pairs join exactly the members of each class. *)
Lemma joined_pairs m x y : wf m → joined (pairs m) x y ↔ same_class m x y.
Proof.
  intros Hwf. unfold joined. split.
  - apply rtsc_in_equivalence; [apply _|].
    intros a b [Hab Hne]%elem_of_pairs. unfold same_class.
    rewrite (get_lookup m a b Hab). symmetry. apply get_lookup. by apply (Hwf a).
  - assert (∀ z, rtsc (λ a b, (a, b) ∈ pairs m) z (get m z)) as Hrep.
    { intros z. unfold get. destruct (m !! z) as [v|] eqn:E; simpl; [|done].
      destruct (decide (z = v)) as [->|Hne]; [done|].
      apply rtsc_lr. by apply elem_of_pairs. }
    unfold same_class. intros Hxy.
    transitivity (get m x); [apply Hrep|]. rewrite Hxy. symmetry. apply Hrep.
Qed.

(** Serializing and deserializing a relation gives a relation with the same
    classes. *)
Lemma partition_roundtrip m x y :
  wf m → same_class (linkAll (pairs m) ∅) x y ↔ same_class m x y.
Proof. intros Hwf. by rewrite same_class_linkAll_empty, joined_pairs. Qed.

End Partition.

(** *** Persisted form of the relation and of the visible set *)

Section Persisted.
Import DisjointUint64Sets.
Context `{RepresentativeRule}.
Implicit Types (m : gmap Uint64.t Uint64.t) (a b k r : Uint64.t).
Implicit Types (ps : list (Uint64.t * Uint64.t)).

Lemma ids_valid_empty : ids_valid ∅.
Proof. intros k v. by rewrite lookup_empty. Qed.

Lemma ids_valid_makeSet (x : Uint64.t) m : Uint64.valid x → ids_valid m → ids_valid (makeSet x m).
Proof.
  intros Hx Hm. unfold makeSet. destruct (m !! x) eqn:E; [done|].
  intros k v. destruct (decide (x = k)) as [->|Hne].
  - rewrite lookup_insert_eq. by intros [= <-].
  - rewrite lookup_insert_ne by done. apply Hm.
Qed.

Lemma ids_valid_get m (x : Uint64.t) : Uint64.valid x → ids_valid m → Uint64.valid (get m x).
Proof.
  intros Hx Hm. unfold get. destruct (m !! x) as [v|] eqn:E; simpl; [|done].
  by apply (Hm x v).
Qed.

Lemma ids_valid_link a b m :
  Uint64.valid a → Uint64.valid b → ids_valid m → ids_valid (link a b m).
Proof.
  intros Ha Hb Hm. unfold link, union. case_decide; [done|].
  assert (ids_valid (makeSet b (makeSet a m))) as Hm1
    by (by apply ids_valid_makeSet, ids_valid_makeSet).
  pose proof (ids_valid_get m a Ha Hm) as Hga. pose proof (ids_valid_get m b Hb Hm) as Hgb.
  destruct (prefer _ _ _); simpl; intros k v; rewrite lookup_fmap;
    destruct (makeSet b (makeSet a m) !! k) as [v0|] eqn:E; simpl; try done;
    intros [= <-]; destruct (Hm1 k v0 E) as [Hk Hv0];
    (split; [done|]); unfold relabel; by case_decide.
Qed.

Lemma ids_valid_linkAll ps : ∀ m,
  Forall (λ p, Uint64.valid p.1 ∧ Uint64.valid p.2) ps →
  ids_valid m → ids_valid (linkAll ps m).
Proof.
  induction ps as [|p ps IH]; intros m Hps Hm; [done|].
  apply Forall_cons in Hps as [[Hp1 Hp2] Hps].
  rewrite linkAll_cons. apply IH; [done|]. by apply ids_valid_link.
Qed.

Lemma parsePair_Some p a b :
  parsePair p = Some (a, b) ↔
  Uint64.parseString p.1 = Some a ∧ Uint64.parseString p.2 = Some b.
Proof.
  unfold parsePair.
  destruct (Uint64.parseString p.1) as [a'|], (Uint64.parseString p.2) as [b'|];
    simpl; naive_solver.
Qed.

Lemma parsePairs_valid y ps :
  parsePairs y = Some ps → Forall (λ p, Uint64.valid p.1 ∧ Uint64.valid p.2) ps.
Proof.
  unfold parsePairs. intros Hy%mapM_Some.
  induction Hy as [|s [a b] ? ? [Ha Hb]%parsePair_Some]; constructor; [|done].
  split; by eapply parseString_valid.
Qed.

(** What [restoreState] builds, from nothing: the merge of the parsed pairs. *)
Lemma restoreState_Some y m0 m :
  restoreState y m0 = Some m ↔ ∃ ps, parsePairs y = Some ps ∧ m = linkAll ps ∅.
Proof.
  unfold restoreState, parsePairs, clear. destruct y as [y|]; simpl.
  - destruct (mapM parsePair y) as [ps|]; simpl.
    + split; [intros [= <-]; by exists ps|]. by intros (ps' & [= <-] & ->).
    + split; [done|]. by intros (ps' & [=] & _).
  - split; [intros [= <-]; by exists []|]. by intros (ps' & [= <-] & ->).
Qed.

Lemma restoreState_wf y m0 m : restoreState y m0 = Some m → wf m ∧ ids_valid m.
Proof.
  intros (ps & Hps & ->)%restoreState_Some. split.
  - apply wf_linkAll, wf_empty.
  - apply ids_valid_linkAll; [by eapply parsePairs_valid|apply ids_valid_empty].
Qed.

(** The persisted pairs of a relation parse back to its pairs. *)
Lemma parsePairs_toJSON m : ids_valid m → parsePairs (Some (toJSON m)) = Some (pairs m).
Proof.
  intros Hm. unfold parsePairs, toJSON. simpl.
  apply mapM_Some, Forall2_fmap_l, Forall_Forall2_diag, Forall_forall.
  intros [k v] [Hkv _]%elem_of_pairs. destruct (Hm k v Hkv) as [Hk Hv].
  apply parsePair_Some. simpl. split; by apply parseString_toString.
Qed.

(** The persisted members of a set parse back to its members. *)
Lemma parseSegments_toJSON (s : gset Uint64.t) :
  set_Forall Uint64.valid s →
  parseSegments (Some (Uint64Set.toJSON s)) = Some (elements s).
Proof.
  intros Hs. unfold parseSegments, Uint64Set.toJSON. simpl.
  apply mapM_Some, Forall2_fmap_l, Forall_Forall2_diag, Forall_forall.
  intros u Hu%elem_of_elements. apply parseString_toString. by apply Hs.
Qed.

Lemma restoreSegments_Some m y : ∀ (vis vis' : gset Uint64.t),
  restoreSegments m y vis = Some vis' ↔
  ∃ ids, mapM Uint64.parseString y = Some ids ∧ vis' = list_to_set (get m <$> ids) ∪ vis.
Proof.
  induction y as [|s y IH]; intros vis vis'; simpl.
  - split.
    + intros [= <-]. exists []. split; [done|]. simpl. set_solver.
    + intros (ids & [= <-] & ->). simpl. f_equal. set_solver.
  - destruct (Uint64.parseString s) as [id|]; simpl; [|naive_solver].
    rewrite IH. unfold Uint64Set.add. split.
    + intros (ids & -> & ->). exists (id :: ids). split; [done|]. simpl.
      set_solver.
    + destruct (mapM Uint64.parseString y) as [ids0|]; simpl; [|naive_solver].
      intros (ids & [= <-] & ->). exists ids0. split; [done|]. simpl.
      set_solver.
Qed.

End Persisted.

(** *** Restoring a layer and serializing it again *)

Lemma fmap_fixed {A} (f : A → A) (l : list A) : Forall (λ u, f u = u) l → f <$> l = l.
Proof. induction 1 as [|u l Hu _ IH]; [done|]. rewrite fmap_cons, Hu. by f_equal. Qed.

Section Roundtrip.
Context `{DisjointUint64Sets.RepresentativeRule}.

Lemma alpha_restoreState_conforms (o : option number) init :
  alpha_conforms o → alpha_restoreState o init = Some (default init o).
Proof.
  destruct o as [v|]; simpl; [|done]. intros [-> ->]. done.
Qed.

Lemma pairs_empty : DisjointUint64Sets.pairs ∅ = [].
Proof. unfold DisjointUint64Sets.pairs. by rewrite map_filter_empty, map_to_list_empty. Qed.

(** The value of [toJSON] always encodes the relation of the layer by its
    pairs, and its visible set by its members. *)
Lemma toJSON_equivalences (layer : SegmentationUserLayer) :
  ids_valid (segmentEquivalences layer) →
  parsePairs (p_equivalences (toJSON layer)) = Some (DisjointUint64Sets.pairs (segmentEquivalences layer)).
Proof.
  intros Hm. unfold toJSON. simpl. case_decide as Hs.
  - by apply parsePairs_toJSON.
  - assert (segmentEquivalences layer = ∅) as ->.
    { apply map_size_empty_iff. unfold DisjointUint64Sets.size in Hs. lia. }
    by rewrite pairs_empty.
Qed.

Lemma toJSON_segments (layer : SegmentationUserLayer) :
  set_Forall Uint64.valid (visibleSegments layer) →
  encoded_visible (toJSON layer) = Some (visibleSegments layer).
Proof.
  intros Hv. unfold encoded_visible, toJSON. simpl. case_decide as Hs.
  - rewrite parseSegments_toJSON by done. simpl. by rewrite list_to_set_elements_L.
  - assert (visibleSegments layer = ∅) as ->.
    { apply leibniz_equiv, size_empty_iff. unfold Uint64Set.size in Hs. lia. }
    done.
Qed.

(** C2, as the code has it. For a persisted state [x] that conforms to the
    schema, the constructor succeeds; the layer holds the partition the
    pairs of [x] encode; the value of [toJSON] has the paths and the
    opacities of [x], its pairs encode the same partition, and its segments
    are the representatives of the segments of [x].  The visible-segment set
    is therefore the one of [x] when every segment [x] lists is its own
    representative. *)
Theorem roundtrip_partition_and_representatives (x : PersistedState) :
  conforms x →
  ∃ layer ids ps,
    new_SegmentationUserLayer x = Some layer ∧
    parseSegments (p_segments x) = Some ids ∧
    parsePairs (p_equivalences x) = Some ps ∧
    let m := segmentEquivalences layer in
    let y := toJSON layer in
    (∀ a b, DisjointUint64Sets.same_class m a b ↔ joined ps a b) ∧
    p_source y = p_source x ∧ p_mesh y = p_mesh x ∧ p_skeletons y = p_skeletons x ∧
    (∀ v, p_selectedAlpha x = Some v → p_selectedAlpha y = Some v) ∧
    (∀ v, p_notSelectedAlpha x = Some v → p_notSelectedAlpha y = Some v) ∧
    (∀ v, p_objectAlpha x = Some v → p_objectAlpha y = Some v) ∧
    encoded_visible y = Some (list_to_set (DisjointUint64Sets.get m <$> ids)) ∧
    (Forall (λ u, DisjointUint64Sets.get m u = u) ids → encoded_visible y = encoded_visible x) ∧
    ∃ ps', parsePairs (p_equivalences y) = Some ps' ∧
           ∀ a b, joined ps' a b ↔ joined ps a b.
Proof.
  intros (Hsa & Hna & Hoa & Hseg & Heq).
  destruct (mapM Uint64.parseString (default [] (p_segments x))) as [ids|] eqn:Hids;
    [|apply (mapM_is_Some_2 Uint64.parseString) in Hseg; rewrite Hids in Hseg;
      by destruct Hseg].
  destruct (mapM DisjointUint64Sets.parsePair (default [] (p_equivalences x))) as [ps|] eqn:Hps.
  2:{ assert (is_Some (mapM DisjointUint64Sets.parsePair (default [] (p_equivalences x)))) as [? Hc].
      { apply mapM_is_Some_2. eapply Forall_impl; [exact Heq|].
        intros p [[a Ha] [b Hb]]. exists (a, b). by apply parsePair_Some. }
      congruence. }
  set (m := DisjointUint64Sets.linkAll ps ∅).
  assert (DisjointUint64Sets.restoreState (p_equivalences x) ∅ = Some m) as Hm
    by (apply restoreState_Some; by exists ps).
  destruct (restoreState_wf _ _ _ Hm) as [Hwf Hvalid].
  assert (Forall Uint64.valid ids) as Hidsv.
  { apply mapM_Some in Hids. clear -Hids.
    induction Hids as [|s u ? ? Hu]; constructor; [by eapply parseString_valid|done]. }
  set (vis := list_to_set (DisjointUint64Sets.get m <$> ids) : gset Uint64.t).
  assert (match p_segments x with
          | Some y => restoreSegments m y ∅
          | None => Some ∅
          end = Some vis) as Hvis.
  { destruct (p_segments x) as [y|]; simpl in Hids.
    - apply restoreSegments_Some. exists ids. split; [done|]. subst vis. set_solver.
    - injection Hids as <-. done. }
  set (layer :=
         {| segmentColorHash := {| hashSeed := 0 |};
            segmentSelectionState :=
              {| hasSelectedSegment := false; selectedSegment := Uint64.mk 0 0 |};
            selectedAlpha := default (Num (1 # 2)) (p_selectedAlpha x);
            notSelectedAlpha := default (num_of_Z 0) (p_notSelectedAlpha x);
            objectAlpha := default (num_of_Z 1) (p_objectAlpha x);
            visibleSegments := vis;
            segmentEquivalences := m;
            volumePath := p_source x;
            meshPath := p_mesh x;
            skeletonsPath := p_skeletons x |}).
  assert (set_Forall Uint64.valid (visibleSegments layer)) as Hvisv.
  { intros u Hu. apply elem_of_list_to_set, list_elem_of_fmap in Hu as (u0 & -> & Hu0).
    apply ids_valid_get; [|done]. by eapply Forall_forall in Hidsv. }
  assert (encoded_visible (toJSON layer) = Some vis) as Hjson
    by (by apply toJSON_segments).
  exists layer, ids, ps. split; [|split; [done|split; [done|]]].
  { unfold new_SegmentationUserLayer.
    rewrite !alpha_restoreState_conforms by done. simpl.
    rewrite Hm. simpl. rewrite Hvis. simpl. reflexivity. }
  split; [intros a b; apply same_class_linkAll_empty|].
  split; [done|]. split; [done|]. split; [done|].
  assert (∀ (o : option number) init v, o = Some v → alpha_toJSON (default init o) = Some v)
    as Halpha by (by intros o init v ->).
  split; [intros v; apply Halpha|]. split; [intros v; apply Halpha|].
  split; [intros v; apply Halpha|].
  split; [exact Hjson|].
  split.
  - intros Hown. rewrite Hjson.
    unfold encoded_visible, parseSegments. rewrite Hids. simpl. f_equal.
    unfold vis. by rewrite (fmap_fixed (DisjointUint64Sets.get m) ids Hown).
  - exists (DisjointUint64Sets.pairs m). split; [by apply (toJSON_equivalences layer)|].
    intros a b. rewrite joined_pairs by done. apply same_class_linkAll_empty.
Qed.

End Roundtrip.

(** C2 as stated fails. With 5 and 7 merged by size, 5 represents both; the
    state that lists 5 and 7 as visible is restored to a layer that shows 5
    only, and serialized with the single segment 5. *)
Lemma roundtrip_loses_merged_segment :
  ¬ @roundtrip_preserves DisjointUint64Sets.by_size merged_pair_state.
Proof.
  intros Hr.
  destruct (@new_SegmentationUserLayer DisjointUint64Sets.by_size merged_pair_state)
    as [layer|] eqn:E; [|vm_compute in E; discriminate].
  destruct (Hr layer E) as [Hv _].
  assert (@new_SegmentationUserLayer DisjointUint64Sets.by_size merged_pair_state
          = Some (layer_with [Uint64.ofZ 5]
                    (@DisjointUint64Sets.link DisjointUint64Sets.by_size
                       (Uint64.ofZ 5) (Uint64.ofZ 7) ∅)
                    {| hasSelectedSegment := false; selectedSegment := Uint64.mk 0 0 |}))
    as E' by (vm_compute; reflexivity).
  rewrite E' in E. injection E as <-.
  apply (f_equal (λ o, match o with
                       | Some s => bool_decide (Uint64.ofZ 7 ∈ (s : gset Uint64.t))
                       | None => false
                       end)) in Hv.
  vm_compute in Hv. discriminate.
Qed.

(** The same holds when the least value is the representative. *)
Lemma by_min_value_roundtrip_drops_segment :
  ¬ @roundtrip_preserves DisjointUint64Sets.by_min_value merged_pair_state.
Proof.
  intros Hr.
  destruct (@new_SegmentationUserLayer DisjointUint64Sets.by_min_value merged_pair_state)
    as [layer|] eqn:E; [|vm_compute in E; discriminate].
  destruct (Hr layer E) as [Hv _].
  assert (@new_SegmentationUserLayer DisjointUint64Sets.by_min_value merged_pair_state
          = Some (layer_with [Uint64.ofZ 5]
                    (@DisjointUint64Sets.link DisjointUint64Sets.by_min_value
                       (Uint64.ofZ 5) (Uint64.ofZ 7) ∅)
                    {| hasSelectedSegment := false; selectedSegment := Uint64.mk 0 0 |}))
    as E' by (vm_compute; reflexivity).
  rewrite E' in E. injection E as <-.
  apply (f_equal (λ o, match o with
                       | Some s => bool_decide (Uint64.ofZ 7 ∈ (s : gset Uint64.t))
                       | None => false
                       end)) in Hv.
  vm_compute in Hv. discriminate.
Qed.

(** ** The skeleton layer *)

Lemma num_le_min_one a :
  num_le a (num_of_Z 0) = true → num_le (math_min (num_of_Z 1) a) (num_of_Z 0) = true.
Proof.
  destruct a as [|q]; [done|]. unfold num_le, math_min, num_of_Z.
  intros Hq. destruct (Qle_bool (inject_Z 1) q) eqn:E; [|done].
  apply Qle_bool_iff in Hq, E.
  pose proof (Qle_trans _ _ _ E Hq) as Hc. by apply Qle_bool_iff in Hc.
Qed.

Section Skeleton.
Context {D : Type} `{SegmentationDisplayStateWithAlpha D} {Color : Type}.
Variable getObjectColor : D → Uint64.t → number → Color.
Implicit Types (es objects : list (Uint64.t * SkeletonChunk)).
Implicit Types (displayState : D) (pick : PickIDManager).

Local Abbreviation entries_calls' := (entries_calls getObjectColor).
Local Abbreviation entry_calls' := (entry_calls getObjectColor).

Lemma elem_of_to_draw displayState objects id sk :
  (id, sk) ∈ to_draw displayState objects ↔
  (id, sk) ∈ objects ∧
  isVisibleExpanded displayState
    (DisjointUint64Sets.get (ds_segmentEquivalences displayState) id) = true ∧
  state sk = GPU_MEMORY.
Proof. unfold to_draw. rewrite list_elem_of_filter. simpl. tauto. Qed.

(** The loop of [draw]: the entries to draw are handled in the order of the
    chunk map, each one registered in the pick table and drawn with the
    identifier the registration returned. *)
Lemma forEachSegmentToDraw_draw_callback (this : SkeletonLayer D) layer pickingOnly alpha
    objects : ∀ calls pick,
  forEachSegmentToDraw (displayState this) objects
    (draw_callback getObjectColor this layer pickingOnly alpha) (calls, pick) =
  (calls ++ entries_calls' (displayState this) pickingOnly alpha
              (to_draw (displayState this) objects) (length (pickEntries pick)),
   {| pickEntries :=
        pickEntries pick ++ ((λ e, (layer, e.1)) <$> to_draw (displayState this) objects) |}).
Proof.
  induction objects as [|[id sk] objects IH]; intros calls pick.
  - simpl. destruct pick. simpl. by rewrite !app_nil_r.
  - simpl forEachSegmentToDraw. unfold to_draw. rewrite filter_cons. simpl.
    fold (to_draw (displayState this) objects).
    destruct (isVisibleExpanded _ _) eqn:Hv.
    + destruct (decide (state sk = GPU_MEMORY)) as [Hs|Hs].
      * rewrite bool_decide_eq_true_2 by done. simpl negb. cbv iota.
        rewrite !decide_True by done.
        rewrite IH. simpl.
        rewrite length_app. simpl. rewrite Nat.add_1_r.
        unfold entry_calls. simpl.
        destruct pickingOnly; simpl; by rewrite <- !app_assoc.
      * rewrite bool_decide_eq_false_2 by done. simpl negb. cbv iota.
        rewrite !decide_False by tauto. apply IH.
    + rewrite decide_False by (intros [? _]; congruence). apply IH.
Qed.

(** The calls of [draw] that come before the loop. *)
Local Abbreviation prologue this renderContext pickingOnly lineWidth_ :=
  [shader_bind;
   uniformMatrix4fv "uProjection"
     (mat4_multiply (dataToDevice renderContext)
        (if skeletonVertexCoordinatesInVoxels (source this)
         then mat4_scale mat4_identity (voxelSize this) else mat4_identity));
   lineWidth (match lineWidth_ with
              | Some w => w
              | None => if pickingOnly then num_of_Z 5 else num_of_Z 1
              end)].

(** The two ways [draw] can go. *)
Lemma draw_cases (this : SkeletonLayer D) renderContext layer pickingOnly lineWidth_ :
  let ds := displayState this in
  let alpha := math_min (num_of_Z 1) (ds_objectAlpha ds) in
  let es := to_draw ds (chunks (source this)) in
  draw getObjectColor this renderContext layer pickingOnly lineWidth_ =
  if num_le alpha (num_of_Z 0) then ([], pickIDs renderContext)
  else
    (prologue this renderContext pickingOnly lineWidth_ ++
     entries_calls' ds pickingOnly alpha es (length (pickEntries (pickIDs renderContext))) ++
     endLayer,
     {| pickEntries :=
          pickEntries (pickIDs renderContext) ++ ((λ e, (layer, e.1)) <$> es) |}).
Proof.
  intros ds alpha es. subst ds alpha es. unfold draw.
  destruct (num_le _ (num_of_Z 0)); [done|].
  rewrite forEachSegmentToDraw_draw_callback. unfold beginLayer.
  by rewrite <- !app_assoc.
Qed.

Lemma app_frame {A} (x pre mid post y : list A) :
  x ++ (pre ++ mid ++ post) ++ y = (x ++ pre) ++ mid ++ (post ++ y).
Proof. by rewrite <- !app_assoc. Qed.

Lemma entries_calls_lookup displayState pickingOnly alpha es : ∀ n j e,
  es !! j = Some e →
  ∃ pre post,
    entries_calls' displayState pickingOnly alpha es n =
    pre ++ entry_calls' displayState pickingOnly alpha e (n + j) ++ post.
Proof.
  induction es as [|e0 es IH]; intros n j e Hj; [done|].
  destruct j as [|j]; simpl in *.
  - injection Hj as ->. exists [], (entries_calls' displayState pickingOnly alpha es (S n)).
    by rewrite Nat.add_0_r.
  - destruct (IH (S n) j e Hj) as (pre & post & ->).
    exists (entry_calls' displayState pickingOnly alpha e0 n ++ pre), post.
    rewrite <- Nat.add_succ_comm. by rewrite <- !app_assoc.
Qed.

Lemma entry_calls_pickID displayState pickingOnly alpha e n p :
  uniform4fv_pickID "uPickID" p ∈ entry_calls' displayState pickingOnly alpha e n → p = n.
Proof.
  unfold entry_calls, setColor, drawSkeleton.
  destruct pickingOnly; simpl; rewrite ?elem_of_cons, elem_of_nil; naive_solver.
Qed.

Lemma entries_calls_pickID displayState pickingOnly alpha es : ∀ n p,
  uniform4fv_pickID "uPickID" p ∈ entries_calls' displayState pickingOnly alpha es n →
  ∃ j e, es !! j = Some e ∧ p = (n + j)%nat.
Proof.
  induction es as [|e0 es IH]; intros n p; simpl.
  - by intros ?%elem_of_nil.
  - intros [Hp|Hp]%elem_of_app.
    + apply entry_calls_pickID in Hp as ->. exists 0%nat, e0. split; [done|lia].
    + destruct (IH _ _ Hp) as (j & e & Hj & ->). exists (S j), e. split; [done|lia].
Qed.

Lemma entries_calls_drawElements displayState pickingOnly alpha es : ∀ n count,
  drawElements count ∈ entries_calls' displayState pickingOnly alpha es n →
  ∃ e, e ∈ es ∧ numIndices e.2 = count.
Proof.
  induction es as [|e0 es IH]; intros n count; simpl.
  - by intros ?%elem_of_nil.
  - intros [Hp|Hp]%elem_of_app.
    + exists e0. split; [by left|]. revert Hp.
      unfold entry_calls, setColor, drawSkeleton.
      destruct pickingOnly; simpl; rewrite ?elem_of_cons, elem_of_nil; naive_solver.
    + destruct (IH _ _ Hp) as (e & He & <-). exists e. split; [by right|done].
Qed.

Lemma draw_operations_app (l1 l2 : list (RenderCall Color)) :
  draw_operations (l1 ++ l2) = (draw_operations l1 + draw_operations l2)%nat.
Proof. unfold draw_operations. by rewrite filter_app, length_app. Qed.

Lemma draw_operations_entries displayState pickingOnly alpha es : ∀ n,
  draw_operations (entries_calls' displayState pickingOnly alpha es n) = length es.
Proof.
  induction es as [|e0 es IH]; intros n; [done|]. simpl.
  rewrite draw_operations_app, IH. unfold entry_calls. by destruct pickingOnly.
Qed.

(** Every tagged draw of a draw pass, located: the entry of the chunk map it
    is for, the calls made for it, and what the pick table holds for its
    tag. *)
Lemma draw_pickID_inv (this : SkeletonLayer D) renderContext layer pickingOnly lineWidth_
    pickID :
  let ds := displayState this in
  let alpha := math_min (num_of_Z 1) (ds_objectAlpha ds) in
  let result := draw getObjectColor this renderContext layer pickingOnly lineWidth_ in
  uniform4fv_pickID "uPickID" pickID ∈ result.1 →
  ∃ e pre post,
    e ∈ to_draw ds (chunks (source this)) ∧
    result.1 = pre ++ entry_calls' ds pickingOnly alpha e pickID ++ post ∧
    PickIDManager_lookup result.2 pickID = Some (layer, e.1).
Proof.
  intros ds alpha result. subst result. rewrite draw_cases. fold ds alpha.
  destruct (num_le alpha (num_of_Z 0)); cbn [fst snd]; [by intros ?%elem_of_nil|].
  set (es := to_draw ds (chunks (source this))).
  set (n0 := length (pickEntries (pickIDs renderContext))).
  set (pro := prologue this renderContext pickingOnly lineWidth_).
  rewrite !elem_of_app.
  intros [Hp|[Hp|Hp]].
  - unfold pro in Hp. rewrite !elem_of_cons, elem_of_nil in Hp. naive_solver.
  - destruct (entries_calls_pickID _ _ _ _ _ _ Hp) as (j & e & Hj & ->).
    destruct (entries_calls_lookup ds pickingOnly alpha es n0 j e Hj) as (pre & post & Hes).
    exists e, (pro ++ pre), (post ++ endLayer). split; [|split].
    + by eapply list_elem_of_lookup_2.
    + rewrite Hes. apply app_frame.
    + unfold PickIDManager_lookup. cbn [pickEntries].
      rewrite lookup_app_r by (unfold n0; lia).
      replace (n0 + j - length (pickEntries (pickIDs renderContext)))%nat with j
        by (unfold n0; lia).
      by rewrite list_lookup_fmap, Hj.
  - unfold endLayer in Hp. rewrite !elem_of_cons, elem_of_nil in Hp. naive_solver.
Qed.

(** C1. In every draw pass: when the object opacity is at most zero nothing
    at all is issued (and the pick table is left alone); every tagged draw is
    the drawing of a chunk of the source's chunk map whose state is
    [GPU_MEMORY] and whose representative is in the expanded visible set; so
    is every [drawElements] call; an identifier whose chunk is not resident,
    or whose representative is not in the expanded visible set, gets no draw;
    and the number of draw operations is the number of resident entries of
    the chunk map with a visible representative (none when the pass is
    skipped). *)
Theorem draw_only_resident_visible (this : SkeletonLayer D)
    (renderContext : SliceViewPanelRenderContext) (layer : RenderLayer)
    (pickingOnly : bool) (lineWidth_ : option number) :
  let ds := displayState this in
  let equivalences := ds_segmentEquivalences ds in
  let alpha := math_min (num_of_Z 1) (ds_objectAlpha ds) in
  let result := draw getObjectColor this renderContext layer pickingOnly lineWidth_ in
  (num_le (ds_objectAlpha ds) (num_of_Z 0) = true →
     result = ([], pickIDs renderContext)) ∧
  (∀ pickID, uniform4fv_pickID "uPickID" pickID ∈ result.1 →
     ∃ id sk pre post,
       result.1 = pre ++ drawSkeleton sk pickID ++ post ∧
       PickIDManager_lookup result.2 pickID = Some (layer, id) ∧
       (id, sk) ∈ chunks (source this) ∧
       state sk = GPU_MEMORY ∧
       isVisibleExpanded ds (DisjointUint64Sets.get equivalences id) = true) ∧
  (∀ count, drawElements count ∈ result.1 →
     ∃ id sk,
       (id, sk) ∈ chunks (source this) ∧ numIndices sk = count ∧
       state sk = GPU_MEMORY ∧
       isVisibleExpanded ds (DisjointUint64Sets.get equivalences id) = true) ∧
  (∀ id,
     (∀ sk, (id, sk) ∈ chunks (source this) →
        state sk ≠ GPU_MEMORY ∨
        isVisibleExpanded ds (DisjointUint64Sets.get equivalences id) = false) →
     ∀ pickID, uniform4fv_pickID "uPickID" pickID ∈ result.1 →
       PickIDManager_lookup result.2 pickID ≠ Some (layer, id)) ∧
  draw_operations result.1 =
    (if num_le alpha (num_of_Z 0) then 0%nat
     else length (to_draw ds (chunks (source this)))).
Proof.
  intros ds equivalences alpha result. split; [|split; [|split; [|split]]].
  - intros Ha. subst result. rewrite draw_cases. fold ds alpha.
    unfold alpha. by rewrite num_le_min_one.
  - intros pickID Hp.
    destruct (draw_pickID_inv this renderContext layer pickingOnly lineWidth_ pickID Hp)
      as ([id sk] & pre & post & He & Hcalls & Hlookup).
    apply elem_of_to_draw in He as (Hin & Hvis & Hst).
    exists id, sk.
    exists (pre ++ (if pickingOnly then []
                    else setColor (getObjectColor ds
                                     (DisjointUint64Sets.get equivalences id) alpha))), post.
    split; [|done].
    fold result in Hcalls. rewrite Hcalls. unfold entry_calls. cbn [fst snd].
    fold equivalences. by rewrite <- !app_assoc.
  - intros count. subst result. rewrite draw_cases. fold ds alpha.
    destruct (num_le alpha (num_of_Z 0)); cbn [fst snd]; [by intros ?%elem_of_nil|].
    rewrite !elem_of_app. intros [Hp|[Hp|Hp]].
    + rewrite !elem_of_cons, elem_of_nil in Hp. naive_solver.
    + apply entries_calls_drawElements in Hp as ([id sk] & He & Hn).
      apply elem_of_to_draw in He as (Hin & Hvis & Hst). by exists id, sk.
    + unfold endLayer in Hp. rewrite !elem_of_cons, elem_of_nil in Hp. naive_solver.
  - intros id Hskip pickID Hp Hl.
    destruct (draw_pickID_inv this renderContext layer pickingOnly lineWidth_ pickID Hp)
      as ([id' sk] & pre & post & He & Hcalls & Hlookup).
    apply elem_of_to_draw in He as (Hin & Hvis & Hst).
    fold result in Hlookup. rewrite Hlookup in Hl. injection Hl as ->.
    destruct (Hskip sk Hin) as [Hn|Hn]; [done|]. fold ds equivalences in Hvis. congruence.
  - subst result. rewrite draw_cases. fold ds alpha.
    destruct (num_le alpha (num_of_Z 0)); cbn [fst snd]; [done|].
    rewrite !draw_operations_app, draw_operations_entries.
    unfold draw_operations, endLayer. simpl. lia.
Qed.

(** C8. Every tagged draw of a draw pass is made for an entry [(id, sk)] of
    the chunk map: the calls are those for [sk], preceded (unless only
    picking is drawn) by the colour of the representative of [id], and the
    tag is registered in the pick table for the layer and [id] itself.
    Conversely every resident chunk with a visible representative is drawn
    that way when the pass is not skipped. *)
Theorem draw_tags_original_id (this : SkeletonLayer D)
    (renderContext : SliceViewPanelRenderContext) (layer : RenderLayer)
    (pickingOnly : bool) (lineWidth_ : option number) :
  let ds := displayState this in
  let equivalences := ds_segmentEquivalences ds in
  let alpha := math_min (num_of_Z 1) (ds_objectAlpha ds) in
  let result := draw getObjectColor this renderContext layer pickingOnly lineWidth_ in
  let calls_for id sk pickID :=
    (if pickingOnly then []
     else setColor (getObjectColor ds (DisjointUint64Sets.get equivalences id) alpha))
    ++ drawSkeleton sk pickID in
  (∀ pickID, uniform4fv_pickID "uPickID" pickID ∈ result.1 →
     ∃ id sk pre post,
       (id, sk) ∈ chunks (source this) ∧
       result.1 = pre ++ calls_for id sk pickID ++ post ∧
       PickIDManager_lookup result.2 pickID = Some (layer, id)) ∧
  (∀ id sk,
     (id, sk) ∈ chunks (source this) → state sk = GPU_MEMORY →
     isVisibleExpanded ds (DisjointUint64Sets.get equivalences id) = true →
     num_le alpha (num_of_Z 0) = false →
     ∃ pickID pre post,
       result.1 = pre ++ calls_for id sk pickID ++ post ∧
       PickIDManager_lookup result.2 pickID = Some (layer, id)).
Proof.
  intros ds equivalences alpha result calls_for. split.
  - intros pickID Hp.
    destruct (draw_pickID_inv this renderContext layer pickingOnly lineWidth_ pickID Hp)
      as ([id sk] & pre & post & He & Hcalls & Hlookup).
    apply elem_of_to_draw in He as (Hin & Hvis & Hst).
    by exists id, sk, pre, post.
  - intros id sk Hin Hst Hvis Ha.
    assert ((id, sk) ∈ to_draw ds (chunks (source this))) as He
      by (by apply elem_of_to_draw).
    apply list_elem_of_lookup_1 in He as [j Hj].
    subst result. rewrite draw_cases. fold ds alpha. rewrite Ha. cbn [fst snd].
    set (n0 := length (pickEntries (pickIDs renderContext))).
    destruct (entries_calls_lookup ds pickingOnly alpha _ n0 j _ Hj)
      as (pre & post & Hes).
    exists (n0 + j)%nat, (prologue this renderContext pickingOnly lineWidth_ ++ pre),
      (post ++ endLayer). split.
    + rewrite Hes. apply app_frame.
    + unfold PickIDManager_lookup. cbn [pickEntries].
      rewrite lookup_app_r by (unfold n0; lia).
      replace (n0 + j - length (pickEntries (pickIDs renderContext)))%nat with j
        by (unfold n0; lia).
      by rewrite list_lookup_fmap, Hj.
Qed.

End Skeleton.

(** Witness for C1: with the object opacity at zero the pass of section 8's
    scenario issues nothing. *)
Lemma draw_transparent_witness :
  draw symbolic_color transparent_skeletons empty_renderContext 3%nat false None
  = ([], pickIDs empty_renderContext).
Proof.
  apply (draw_only_resident_visible symbolic_color transparent_skeletons
           empty_renderContext 3%nat false None).
  reflexivity.
Defined.

(** Witness for C8: in the scenario of section 8 the chunk of 7 is drawn with
    the colour of its representative 5 and a tag registered for 7. *)
Lemma draw_tags_witness :
  let sk7 := {| state := GPU_MEMORY; vertexBuffer := 1%nat; indexBuffer := 2%nat;
                numIndices := 6%nat |} in
  let result := draw symbolic_color merged_skeletons empty_renderContext 3%nat false None in
  ∃ pickID pre post,
    result.1 = pre ++ (setColor (Uint64.ofZ 5, num_of_Z 1) ++ drawSkeleton sk7 pickID) ++ post ∧
    PickIDManager_lookup result.2 pickID = Some (3%nat, Uint64.ofZ 7).
Proof.
  intros sk7 result.
  destruct (proj2 (draw_tags_original_id symbolic_color merged_skeletons
                     empty_renderContext 3%nat false None) (Uint64.ofZ 7) sk7)
    as (pickID & pre & post & Hcalls & Hlookup).
  - left.
  - reflexivity.
  - vm_compute. reflexivity.
  - reflexivity.
  - exists pickID, pre, post. split; [exact Hcalls|exact Hlookup].
Defined.

(** Witness for C2: the state that shows 5 and 7 and merges them conforms to
    the schema; it is restored, and the pairs serialized afterwards encode the
    partition with the single class of 5 and 7. *)
Lemma roundtrip_witness :
  ∃ layer,
    @new_SegmentationUserLayer DisjointUint64Sets.by_size merged_pair_state = Some layer ∧
    ∃ ps', parsePairs (p_equivalences (toJSON layer)) = Some ps' ∧
           ∀ a b, joined ps' a b ↔ joined [(Uint64.ofZ 5, Uint64.ofZ 7)] a b.
Proof.
  destruct (@roundtrip_partition_and_representatives DisjointUint64Sets.by_size
              merged_pair_state)
    as (layer & ids & ps & Hnew & Hids & Hps & _ & _ & _ & _ & _ & _ & _ & _ & _ & Hrt).
  { unfold conforms, merged_pair_state. simpl.
    repeat split; try reflexivity; repeat constructor; eexists; reflexivity. }
  exists layer. split; [exact Hnew|].
  assert (ps = [(Uint64.ofZ 5, Uint64.ofZ 7)]) as ->
    by (vm_compute in Hps; by injection Hps as <-).
  exact Hrt.
Defined.

(** * Further properties *)

(** ** Off-screen surfaces *)

Lemma strict_eq_refl n : is_number n = true → strict_eq n n = true.
Proof. destruct n as [|q]; [done|]. intros _. simpl. by apply Qeq_bool_iff. Qed.

Lemma strict_eq_number a b : strict_eq a b = true → is_number a = true ∧ is_number b = true.
Proof. by destruct a, b. Qed.

Lemma count_calls_emit p c gl :
  count_calls p (emit c gl) = (count_calls p gl + if p c then 1 else 0)%nat.
Proof.
  unfold count_calls, emit. rewrite filter_app, length_app. f_equal.
  rewrite filter_cons, filter_nil. destruct (p c); case_decide; done.
Qed.

Lemma count_calls_app p gl1 gl2 :
  count_calls p (gl1 ++ gl2) = (count_calls p gl1 + count_calls p gl2)%nat.
Proof. unfold count_calls. by rewrite filter_app, length_app. Qed.


(** After [set_size] the surface has the size, when it is one. *)
Lemma hasSize_set_size_color (b : ColorBuffer) w h :
  hasSize (set_size w h b) w h = is_number w && is_number h.
Proof.
  unfold hasSize. destruct b; simpl; destruct w, h; simpl; try done;
    rewrite ?andb_false_r; try done;
    by rewrite !(proj2 (Qeq_bool_iff _ _) (Qeq_refl _)).
Qed.

Lemma hasSize_set_size_depth (d : DepthBuffer) w h :
  hasSize (set_size w h d) w h = is_number w && is_number h.
Proof.
  unfold hasSize. simpl; destruct w, h; simpl; try done;
    rewrite ?andb_false_r; try done;
    by rewrite !(proj2 (Qeq_bool_iff _ _) (Qeq_refl _)).
Qed.

Lemma hasSize_number {T} `{SizeManaged T} (b : T) w h :
  hasSize b w h = true → is_number w && is_number h = true.
Proof.
  unfold hasSize. intros [Hw%strict_eq_number Hh%strict_eq_number]%andb_prop.
  apply andb_true_intro. tauto.
Qed.

Lemma allocations_performResize_color (b : ColorBuffer) gl :
  allocations (performResize b gl) = S (allocations gl).
Proof.
  destruct b; simpl; unfold TextureBuffer_performResize, Renderbuffer_performResize;
    rewrite !allocations_emit; simpl; lia.
Qed.

Lemma allocations_performResize_depth (d : DepthBuffer) gl :
  allocations (performResize d gl) = S (allocations gl).
Proof.
  simpl. unfold Renderbuffer_performResize. rewrite !allocations_emit. simpl. lia.
Qed.

Lemma resize_color_hasSize (b : ColorBuffer) w h gl :
  is_number w = true → is_number h = true → hasSize (resize b w h gl).1 w h = true.
Proof.
  intros Hw Hh. rewrite resize_cases. destruct (hasSize b w h) eqn:E; [done|]. cbn [fst].
  by rewrite hasSize_set_size_color, Hw, Hh.
Qed.

Lemma resize_depth_hasSize (d : DepthBuffer) w h gl :
  is_number w = true → is_number h = true → hasSize (resize d w h gl).1 w h = true.
Proof.
  intros Hw Hh. rewrite resize_cases. destruct (hasSize d w h) eqn:E; [done|]. cbn [fst].
  by rewrite hasSize_set_size_depth, Hw, Hh.
Qed.

Lemma resize_color_allocations (b : ColorBuffer) w h gl :
  allocations (resize b w h gl).2
  = (allocations gl + if hasSize b w h then 0 else 1)%nat.
Proof.
  rewrite resize_cases. destruct (hasSize b w h); cbn [snd]; [lia|].
  rewrite allocations_performResize_color. lia.
Qed.

Lemma resize_depth_allocations (d : DepthBuffer) w h gl :
  allocations (resize d w h gl).2
  = (allocations gl + if hasSize d w h then 0 else 1)%nat.
Proof.
  rewrite resize_cases. destruct (hasSize d w h); cbn [snd]; [lia|].
  rewrite allocations_performResize_depth. lia.
Qed.

(** X1. A resize to a size made of two numbers settles: the surface then has
    that size, and asking for it again changes neither the surface nor the
    context.  This holds for colour buffers and for depth buffers. *)
Theorem resize_settles (b : ColorBuffer) (d : DepthBuffer) (w h : number) (gl : GL) :
  is_number w = true → is_number h = true →
  (hasSize (resize b w h gl).1 w h = true ∧
   resize (resize b w h gl).1 w h (resize b w h gl).2 = resize b w h gl) ∧
  (hasSize (resize d w h gl).1 w h = true ∧
   resize (resize d w h gl).1 w h (resize d w h gl).2 = resize d w h gl).
Proof.
  intros Hw Hh.
  pose proof (resize_color_hasSize b w h gl Hw Hh) as Hb.
  pose proof (resize_depth_hasSize d w h gl Hw Hh) as Hd.
  split; (split; [done|]).
  - rewrite (resize_cases (resize b w h gl).1), Hb. by destruct (resize b w h gl).
  - rewrite (resize_cases (resize d w h gl).1), Hd. by destruct (resize d w h gl).
Qed.

(** Witness for X1: a fresh texture buffer and a fresh depth buffer resized
    to 640 by 480. *)
Lemma resize_settles_witness :
  hasSize (resize (ColorTexture (new_TextureBuffer [] RGBA UNSIGNED_BYTE).1)
             (num_of_Z 640) (num_of_Z 480) []).1 (num_of_Z 640) (num_of_Z 480) = true.
Proof.
  apply (resize_settles (ColorTexture (new_TextureBuffer [] RGBA UNSIGNED_BYTE).1)
           (new_DepthBuffer [] false).1 (num_of_Z 640) (num_of_Z 480) []);
    reflexivity.
Defined.

(** X2. A resize to a size with a [NaN] dimension never settles: it stores
    the size and reallocates, and so does every repetition of it. *)
Theorem resize_NaN_reallocates (b : ColorBuffer) (w h : number) (gl : GL) :
  is_number w && is_number h = false →
  let r1 := resize b w h gl in
  let r2 := resize r1.1 w h r1.2 in
  width r1.1 = w ∧ height r1.1 = h ∧
  hasSize r1.1 w h = false ∧
  allocations r1.2 = S (allocations gl) ∧
  allocations r2.2 = S (S (allocations gl)).
Proof.
  intros Hn r1 r2.
  assert (∀ (b0 : ColorBuffer), hasSize b0 w h = false) as Hno.
  { intros b0. destruct (hasSize b0 w h) eqn:E; [|done].
    apply hasSize_number in E. congruence. }
  subst r2 r1. rewrite !resize_cases, !Hno. cbn [fst snd].
  rewrite !allocations_performResize_color.
  repeat split; by destruct b.
Qed.

(** Witness for X2: a resize to a [NaN] width. *)
Lemma resize_NaN_reallocates_witness :
  allocations
    (resize (resize (ColorTexture (new_TextureBuffer [] RGBA UNSIGNED_BYTE).1)
               NaN (num_of_Z 480) []).1 NaN (num_of_Z 480)
       (resize (ColorTexture (new_TextureBuffer [] RGBA UNSIGNED_BYTE).1)
          NaN (num_of_Z 480) []).2).2 = 2%nat.
Proof.
  apply (resize_NaN_reallocates (ColorTexture (new_TextureBuffer [] RGBA UNSIGNED_BYTE).1)
           NaN (num_of_Z 480) []).
  reflexivity.
Defined.

(** X3. The constructors allocate no storage and leave the surface without a
    size: a new renderbuffer, depth buffer or texture buffer has no size
    [(w, h)] whatever [w] and [h] are, so that its first resize always
    allocates, exactly once. *)
Theorem new_surfaces_unsized (gl : GL) (internalformat format dataType : Z)
    (stencil : bool) (w h : number) :
  let rb := new_Renderbuffer gl internalformat in
  let db := new_DepthBuffer gl stencil in
  let tb := new_TextureBuffer gl format dataType in
  (allocations rb.2 = allocations gl ∧ hasSize rb.1 w h = false ∧
   allocations (resize rb.1 w h rb.2).2 = S (allocations gl)) ∧
  (allocations db.2 = allocations gl ∧ hasSize db.1 w h = false ∧
   allocations (resize db.1 w h db.2).2 = S (allocations gl)) ∧
  (allocations tb.2 = allocations gl ∧ hasSize tb.1 w h = false ∧
   allocations (resize tb.1 w h tb.2).2 = S (allocations gl)).
Proof.
  intros rb db tb. subst rb db tb.
  unfold new_DepthBuffer, new_Renderbuffer, new_TextureBuffer. cbn [fst snd].
  rewrite !resize_cases. unfold hasSize. cbn [width height Renderbuffer_SizeManaged
    DepthBuffer_SizeManaged TextureBuffer_SizeManaged rb_width rb_height tb_width tb_height
    db_super strict_eq andb fst snd performResize].
  unfold Renderbuffer_performResize, TextureBuffer_performResize.
  rewrite !allocations_emit. simpl. repeat split; lia.
Qed.

Lemma allocations_count gl : allocations gl = count_calls allocates gl.
Proof. reflexivity. Qed.

Lemma count_calls_cons p c gl :
  count_calls p (c :: gl) = ((if p c then 1 else 0) + count_calls p gl)%nat.
Proof.
  unfold count_calls. rewrite filter_cons. destruct (p c); case_decide; done.
Qed.

Lemma count_calls_replicate p n c :
  count_calls p (replicate n c) = if p c then n else 0%nat.
Proof.
  induction n as [|n IH]; [by destruct (p c)|].
  cbn [replicate]. rewrite count_calls_cons, IH. by destruct (p c).
Qed.

Lemma makeTextureBuffers_eq count : ∀ gl format dataType,
  makeTextureBuffers gl count format dataType =
  ((λ k, {| tb_width := NaN; tb_height := NaN; texture := Some (length gl + k)%nat;
            format := format; dataType := dataType |}) <$> seq 0 count,
   gl ++ replicate count createTexture).
Proof.
  induction count as [|n IH]; intros gl format dataType.
  - simpl. by rewrite app_nil_r.
  - cbn [makeTextureBuffers]. unfold new_TextureBuffer. rewrite IH.
    unfold emit, fresh. rewrite length_app. simpl. rewrite <- app_assoc. f_equal.
    f_equal; [by rewrite Nat.add_0_r|].
    rewrite <- fmap_S_seq, <- list_fmap_compose. apply list_fmap_ext.
    intros i k _. simpl. do 2 f_equal. lia.
Qed.

(** X4. [makeTextureBuffers(gl, count, format, dataType)] returns [count]
    texture buffers, each without a size and with the given format and data
    type, whose textures are pairwise distinct objects; it creates [count]
    textures and allocates no storage. *)
Theorem makeTextureBuffers_spec (gl : GL) (count : nat) (format0 dataType0 : Z) :
  let r := makeTextureBuffers gl count format0 dataType0 in
  length r.1 = count ∧
  Forall (λ t, tb_width t = NaN ∧ tb_height t = NaN ∧
               format t = format0 ∧ dataType t = dataType0 ∧ is_Some (texture t)) r.1 ∧
  NoDup (texture <$> r.1) ∧
  count_calls is_createTexture r.2 = (count_calls is_createTexture gl + count)%nat ∧
  allocations r.2 = allocations gl.
Proof.
  intros r. subst r. rewrite makeTextureBuffers_eq. cbn [fst snd].
  split; [by rewrite length_fmap, length_seq|].
  split; [apply Forall_fmap, Forall_forall; intros k _; simpl; eauto 10|].
  split.
  - rewrite <- list_fmap_compose. apply NoDup_fmap_2; [|apply NoDup_seq].
    intros i j [= Hij]. lia.
  - split.
    + rewrite count_calls_app, count_calls_replicate. done.
    + change (count_calls allocates (gl ++ replicate count createTexture)
              = count_calls allocates gl).
      rewrite count_calls_app, count_calls_replicate. cbn [allocates]. lia.
Qed.

(** *** What a bind does to the buffers *)

Section Bind.
Variable framebufferStatus : GL → Z.
Local Abbreviation bind := (FramebufferConfiguration_bind framebufferStatus).
Local Abbreviation verify := (verifyAttachment framebufferStatus).

(** [bind] in terms of the state in which it verifies the attachments. *)
Lemma bind_eq this w h gl :
  bind this w h gl =
  match verify (bind_before_verify this w h gl).1 (bind_before_verify this w h gl).2 with
  | Thrown msg s => Thrown msg s
  | Returned _ s => Returned tt (s.1, emit (viewport 0 0 w h) s.2)
  end.
Proof.
  unfold FramebufferConfiguration_bind, bind_before_verify.
  destruct (depthBuffer this) as [d|].
  - destruct (resize d w h _) as [d' gl1]. cbn [fst snd].
    destruct (bind_colorBuffers 0 _ w h _) as [cs gl2]. cbn [fst snd].
    destruct (verify _ _) as [? [? ?]|]; done.
  - cbn [fst snd]. destruct (bind_colorBuffers 0 _ w h _) as [cs gl2]. cbn [fst snd].
    destruct (verify _ _) as [? [? ?]|]; done.
Qed.

(** The state a bind ends in, whether it returns or throws: only the flag
    and the last calls depend on the verification. *)
Lemma bind_final_state this w h gl :
  let pre := bind_before_verify this w h gl in
  final_state (bind this w h gl) =
  if attachmentVerified this then (pre.1, emit (viewport 0 0 w h) pre.2)
  else if decide (framebufferStatus pre.2 = GLConst.FRAMEBUFFER_COMPLETE)
  then (set_attachmentVerified true pre.1,
        emit (viewport 0 0 w h) (emit (checkFramebufferStatus GLConst.FRAMEBUFFER) pre.2))
  else (pre.1, emit (checkFramebufferStatus GLConst.FRAMEBUFFER) pre.2).
Proof.
  intros pre. rewrite bind_eq. fold pre. rewrite verifyAttachment_cases.
  assert (attachmentVerified pre.1 = attachmentVerified this) as -> by done.
  destruct (attachmentVerified this); [done|]. by case_decide.
Qed.

Lemma bind_has_thrown this w h gl :
  has_thrown (bind this w h gl) =
  negb (attachmentVerified this) &&
  negb (bool_decide (framebufferStatus (bind_before_verify this w h gl).2
                     = GLConst.FRAMEBUFFER_COMPLETE)).
Proof.
  rewrite bind_eq, verifyAttachment_cases.
  assert (attachmentVerified (bind_before_verify this w h gl).1 = attachmentVerified this)
    as -> by done.
  destruct (attachmentVerified this); [done|]. simpl.
  case_decide; [by rewrite bool_decide_eq_true_2|by rewrite bool_decide_eq_false_2].
Qed.

Lemma bind_colorBuffers_cons i b bufs w h gl :
  bind_colorBuffers i (b :: bufs) w h gl =
  let r := resize b w h gl in
  let gl1 := ColorBuffer_attachToFramebuffer r.1
               (GLConst.COLOR_ATTACHMENT0 + Z.of_nat i) r.2 in
  let rr := bind_colorBuffers (S i) bufs w h gl1 in
  (r.1 :: rr.1, rr.2).
Proof.
  cbn [bind_colorBuffers]. destruct (resize b w h gl) as [b' gl1]. cbn [fst snd].
  by destruct (bind_colorBuffers _ bufs w h _).
Qed.

Lemma bind_colorBuffers_length bufs : ∀ i w h gl,
  length (bind_colorBuffers i bufs w h gl).1 = length bufs.
Proof.
  induction bufs as [|b bufs IH]; intros i w h gl; [done|].
  rewrite bind_colorBuffers_cons. cbv zeta. cbn [fst length]. by rewrite IH.
Qed.

Lemma bind_colorBuffers_hasSize bufs : ∀ i w h gl,
  is_number w = true → is_number h = true →
  Forall (λ b, hasSize b w h = true) (bind_colorBuffers i bufs w h gl).1.
Proof.
  induction bufs as [|b bufs IH]; intros i w h gl Hw Hh; [by constructor|].
  rewrite bind_colorBuffers_cons. cbv zeta. cbn [fst].
  constructor; [by apply resize_color_hasSize|by apply IH].
Qed.

Lemma attach_color_allocations b a gl :
  allocations (ColorBuffer_attachToFramebuffer b a gl) = allocations gl.
Proof.
  destruct b; simpl;
    unfold TextureBuffer_attachToFramebuffer, Renderbuffer_attachToFramebuffer;
    rewrite allocations_emit; simpl; lia.
Qed.

Lemma without_size_cons {T} `{SizeManaged T} w h (b : T) bs :
  without_size w h (b :: bs)
  = ((if hasSize b w h then 0 else 1) + without_size w h bs)%nat.
Proof.
  unfold without_size. rewrite filter_cons. destruct (hasSize b w h); case_decide; done.
Qed.

Lemma bind_colorBuffers_allocations bufs : ∀ i w h gl,
  allocations (bind_colorBuffers i bufs w h gl).2
  = (allocations gl + without_size w h bufs)%nat.
Proof.
  induction bufs as [|b bufs IH]; intros i w h gl.
  - simpl. unfold without_size. simpl. lia.
  - rewrite bind_colorBuffers_cons. cbv zeta. cbn [snd].
    rewrite IH, attach_color_allocations, resize_color_allocations, without_size_cons. lia.
Qed.

Lemma attach_color_count p b a gl :
  p (framebufferTexture2D GLConst.FRAMEBUFFER a GLConst.TEXTURE_2D
       (match b with ColorTexture t => texture t | _ => None end) 0) = false →
  p (framebufferRenderbuffer GLConst.FRAMEBUFFER a GLConst.RENDERBUFFER
       (match b with ColorRenderbuffer r => renderbuffer r | _ => None end)) = false →
  count_calls p (ColorBuffer_attachToFramebuffer b a gl) = count_calls p gl.
Proof.
  intros Ht Hr.
  destruct b; simpl;
    unfold TextureBuffer_attachToFramebuffer, Renderbuffer_attachToFramebuffer;
    rewrite count_calls_emit; [rewrite Ht|rewrite Hr]; lia.
Qed.

(** The buffers and the size a bind ends with are those it verifies with. *)
Lemma bind_final_fields this w h gl :
  let s := final_state (bind this w h gl) in
  let pre := bind_before_verify this w h gl in
  fc_width s.1 = w ∧ fc_height s.1 = h ∧
  colorBuffers s.1 = colorBuffers pre.1 ∧ depthBuffer s.1 = depthBuffer pre.1 ∧
  framebuffer s.1 = framebuffer this ∧
  fullAttachmentList s.1 = fullAttachmentList this ∧
  singleAttachmentList s.1 = singleAttachmentList this.
Proof.
  intros s pre. subst s. rewrite bind_final_state. fold pre.
  destruct (attachmentVerified this); [done|]. by case_decide.
Qed.

Lemma bind_final_allocations this w h gl :
  allocations (final_state (bind this w h gl)).2
  = allocations (bind_before_verify this w h gl).2.
Proof.
  rewrite bind_final_state.
  destruct (attachmentVerified this); [|case_decide]; cbn [snd];
    rewrite ?allocations_emit; simpl; lia.
Qed.

Lemma before_verify_allocations this w h gl :
  allocations (bind_before_verify this w h gl).2
  = (allocations gl + depth_without_size w h (depthBuffer this)
     + without_size w h (colorBuffers this))%nat.
Proof.
  unfold bind_before_verify. cbn [snd]. rewrite allocations_emit. cbn [allocates].
  rewrite bind_colorBuffers_allocations.
  destruct (depthBuffer this) as [d|]; cbn [snd depth_without_size].
  - unfold DepthBuffer_attachToFramebuffer, Renderbuffer_attachToFramebuffer.
    rewrite allocations_emit, resize_depth_allocations. cbn [allocates].
    unfold Framebuffer_bind. rewrite allocations_emit. cbn [allocates]. lia.
  - unfold Framebuffer_bind. rewrite allocations_emit. cbn [allocates]. lia.
Qed.

Lemma before_verify_sizes this w h gl :
  is_number w = true → is_number h = true →
  let pre := bind_before_verify this w h gl in
  Forall (λ b, hasSize b w h = true) (colorBuffers pre.1) ∧
  depth_without_size w h (depthBuffer pre.1) = 0%nat ∧
  length (colorBuffers pre.1) = length (colorBuffers this) ∧
  (is_Some (depthBuffer pre.1) ↔ is_Some (depthBuffer this)).
Proof.
  intros Hw Hh pre. subst pre. unfold bind_before_verify. cbn [fst colorBuffers depthBuffer].
  split; [by apply bind_colorBuffers_hasSize|].
  split; [|split; [apply bind_colorBuffers_length|]].
  - destruct (depthBuffer this) as [d|]; cbn [fst depth_without_size]; [|done].
    by rewrite resize_depth_hasSize.
  - destruct (depthBuffer this) as [d|]; cbn [fst]; split; intros [? ?]; eauto; done.
Qed.

Lemma without_size_0 {T} `{SizeManaged T} w h (bs : list T) :
  Forall (λ b, hasSize b w h = true) bs → without_size w h bs = 0%nat.
Proof.
  induction 1 as [|b bs Hb _ IH]; [done|]. by rewrite without_size_cons, Hb, IH.
Qed.

(** X5. Whether a bind returns or throws, it has stored the size and brought
    every buffer of the configuration to it: for a size made of two numbers,
    the configuration, each of its colour buffers and its depth buffer have
    the size afterwards; the buffers are as many as before, and the
    attachment lists are untouched. *)
Theorem bind_sizes_every_buffer (this : FramebufferConfiguration) (w h : number) (gl : GL) :
  is_number w = true → is_number h = true →
  let s := final_state (bind this w h gl) in
  FramebufferConfiguration_hasSize s.1 w h = true ∧
  Forall (λ b, hasSize b w h = true) (colorBuffers s.1) ∧
  (∀ d, depthBuffer s.1 = Some d → hasSize d w h = true) ∧
  length (colorBuffers s.1) = length (colorBuffers this) ∧
  (is_Some (depthBuffer s.1) ↔ is_Some (depthBuffer this)) ∧
  fullAttachmentList s.1 = fullAttachmentList this ∧
  singleAttachmentList s.1 = singleAttachmentList this.
Proof.
  intros Hw Hh s.
  destruct (bind_final_fields this w h gl) as (Hfw & Hfh & Hc & Hd & _ & Hfull & Hsingle).
  destruct (before_verify_sizes this w h gl Hw Hh) as (Hcs & Hds & Hlen & Hsome).
  fold s in Hfw, Hfh, Hc, Hd, Hfull, Hsingle.
  split; [|split; [|split; [|split; [|split; [|split]]]]].
  - unfold FramebufferConfiguration_hasSize. rewrite Hfw, Hfh.
    by rewrite !strict_eq_refl.
  - by rewrite Hc.
  - intros d Hsd. rewrite Hd in Hsd. rewrite Hsd in Hds. simpl in Hds.
    by destruct (hasSize d w h).
  - by rewrite Hc.
  - by rewrite Hd.
  - done.
  - done.
Qed.

(** X6. On a configuration in which no buffer object occurs twice, a bind
    allocates storage for exactly the buffers that do not have the requested
    size: the allocation count grows by the number of colour buffers without
    that size, plus one when the depth buffer is without it; the outcome of
    the verification does not matter. *)
Theorem bind_allocates_missing_sizes (this : FramebufferConfiguration) (w h : number)
    (gl : GL) :
  distinct_buffers this →
  allocations (final_state (bind this w h gl)).2
  = (allocations gl + depth_without_size w h (depthBuffer this)
     + without_size w h (colorBuffers this))%nat.
Proof. intros _. by rewrite bind_final_allocations, before_verify_allocations. Qed.

(** X7. Binding again at the size of the previous bind allocates nothing,
    also when the previous bind has thrown. *)
Theorem rebind_allocates_nothing (this : FramebufferConfiguration) (w h : number) (gl : GL) :
  is_number w = true → is_number h = true →
  let s := final_state (bind this w h gl) in
  allocations (final_state (bind s.1 w h s.2)).2 = allocations s.2.
Proof.
  intros Hw Hh s.
  destruct (bind_final_fields this w h gl) as (_ & _ & Hc & Hd & _).
  destruct (before_verify_sizes this w h gl Hw Hh) as (Hcs & Hds & _).
  fold s in Hc, Hd.
  rewrite bind_final_allocations, before_verify_allocations, Hc, Hd, Hds.
  rewrite without_size_0 by done. lia.
Qed.

(** X8. A bind sets the viewport exactly when it returns, as its last call;
    a bind that throws ends with the status query and sets no viewport. *)
Theorem bind_viewport_iff_returned (this : FramebufferConfiguration) (w h : number)
    (gl : GL) :
  let o := bind this w h gl in
  count_calls is_viewport (final_state o).2
  = (count_calls is_viewport gl + if has_thrown o then 0 else 1)%nat ∧
  last (final_state o).2
  = Some (if has_thrown o then checkFramebufferStatus GLConst.FRAMEBUFFER
          else viewport 0 0 w h).
Proof.
  intros o. subst o.
  assert (count_calls is_viewport (bind_before_verify this w h gl).2
          = count_calls is_viewport gl) as Hpre.
  { unfold bind_before_verify. cbn [snd]. rewrite count_calls_emit. cbn [is_viewport].
    rewrite Nat.add_0_r.
    assert (∀ bufs i g, count_calls is_viewport (bind_colorBuffers i bufs w h g).2
                        = count_calls is_viewport g) as Hcb.
    { induction bufs as [|b bufs IH]; intros i g; [done|].
      rewrite bind_colorBuffers_cons. cbv zeta. cbn [snd].
      rewrite IH, attach_color_count by done.
      rewrite resize_cases. destruct (hasSize b w h); [done|]. cbn [snd].
      destruct b; simpl;
        unfold TextureBuffer_performResize, Renderbuffer_performResize;
        rewrite !count_calls_emit; simpl; lia. }
    rewrite Hcb. destruct (depthBuffer this) as [d|]; cbn [snd].
    - unfold DepthBuffer_attachToFramebuffer, Renderbuffer_attachToFramebuffer.
      rewrite count_calls_emit. cbn [is_viewport].
      rewrite resize_cases. destruct (hasSize d w h); cbn [snd];
        unfold Framebuffer_bind; [rewrite count_calls_emit; simpl; lia|].
      simpl. unfold Renderbuffer_performResize. rewrite !count_calls_emit. simpl. lia.
    - unfold Framebuffer_bind. rewrite count_calls_emit. simpl. lia. }
  rewrite bind_has_thrown, bind_final_state.
  destruct (attachmentVerified this); cbn [negb andb snd].
  - rewrite count_calls_emit, Hpre. unfold emit. by rewrite last_snoc.
  - case_decide.
    + rewrite bool_decide_eq_true_2 by done. cbn [negb snd].
      rewrite !count_calls_emit, Hpre. simpl. split; [lia|].
      unfold emit. by rewrite last_snoc.
    + rewrite bool_decide_eq_false_2 by done. cbn [negb snd].
      rewrite count_calls_emit, Hpre. simpl. split; [lia|].
      unfold emit. by rewrite last_snoc.
Qed.

(** X9. Once a bind has returned, no later bind on the same object throws,
    whatever sizes are asked for in between and whatever the driver would
    answer then: the status is never asked for again. *)
Theorem bind_never_throws_after_success (this : FramebufferConfiguration) (w h : number)
    (gl : GL) (later : list (number * number)) (w' h' : number) :
  has_thrown (bind this w h gl) = false →
  let s1 := final_state (bind this w h gl) in
  let s2 := bind_all framebufferStatus s1.1 later s1.2 in
  has_thrown (bind s2.1 w' h' s2.2) = false ∧
  validations (final_state (bind s2.1 w' h' s2.2)).2 = validations s1.2.
Proof.
  intros Hret s1 s2.
  assert (attachmentVerified s1.1 = true) as Hv1.
  { subst s1. destruct (attachmentVerified this) eqn:Hv.
    - destruct (bind_verified framebufferStatus this w h gl Hv) as (? & ? & -> & ? & ?).
      done.
    - destruct (bind_unverified framebufferStatus this w h gl Hv)
        as (? & ? & ? & [[-> ?]|[Hb ?]]); [done|]. by rewrite Hb in Hret. }
  assert (∀ sizes fc g, attachmentVerified fc = true →
            attachmentVerified (bind_all framebufferStatus fc sizes g).1 = true) as Hall.
  { induction sizes as [|[a b] sizes IH]; intros fc g Hv; [done|]. simpl.
    destruct (bind_verified framebufferStatus fc a b g Hv) as (fc' & g' & -> & Hv' & _).
    simpl. by apply IH. }
  pose proof (Hall later s1.1 s1.2 Hv1) as Hv2. fold s2 in Hv2.
  destruct (bind_verified framebufferStatus s2.1 w' h' s2.2 Hv2) as (fc' & g' & -> & _ & Hn).
  split; [done|]. simpl. rewrite Hn. subst s2.
  by rewrite bind_all_verified.
Qed.

End Bind.

(** Witness for X5: the configuration with one texture, bound at 640 by
    480. *)
Lemma bind_sizes_every_buffer_witness :
  FramebufferConfiguration_hasSize
    (final_state (FramebufferConfiguration_bind (λ _, GLConst.FRAMEBUFFER_COMPLETE)
                    one_texture_configuration.1 (num_of_Z 640) (num_of_Z 480)
                    one_texture_configuration.2)).1 (num_of_Z 640) (num_of_Z 480) = true.
Proof.
  apply (bind_sizes_every_buffer (λ _, GLConst.FRAMEBUFFER_COMPLETE)
           one_texture_configuration.1 (num_of_Z 640) (num_of_Z 480)
           one_texture_configuration.2); reflexivity.
Defined.

(** Witness for X6: two textures and a depth buffer, none of them sized
    yet; the first bind allocates three times, also on a driver that rejects
    the configuration. *)
Lemma bind_allocates_missing_sizes_witness :
  allocations
    (final_state (FramebufferConfiguration_bind (λ _, GLConst.FRAMEBUFFER_UNSUPPORTED)
                    two_textures_depth_configuration.1 (num_of_Z 640) (num_of_Z 480)
                    two_textures_depth_configuration.2)).2
  = (allocations two_textures_depth_configuration.2 + 1 + 2)%nat.
Proof.
  apply (bind_allocates_missing_sizes (λ _, GLConst.FRAMEBUFFER_UNSUPPORTED)
           two_textures_depth_configuration.1 (num_of_Z 640) (num_of_Z 480)
           two_textures_depth_configuration.2).
  unfold distinct_buffers. vm_compute.
  repeat (apply NoDup_cons; split; [rewrite ?elem_of_cons, elem_of_nil; naive_solver|]).
  apply NoDup_nil_2.
Defined.

(** Witness for X7: the same configuration with a driver that rejects it. *)
Lemma rebind_allocates_nothing_witness :
  let s := final_state (FramebufferConfiguration_bind (λ _, GLConst.FRAMEBUFFER_UNSUPPORTED)
                          one_texture_configuration.1 (num_of_Z 640) (num_of_Z 480)
                          one_texture_configuration.2) in
  allocations
    (final_state (FramebufferConfiguration_bind (λ _, GLConst.FRAMEBUFFER_UNSUPPORTED)
                    s.1 (num_of_Z 640) (num_of_Z 480) s.2)).2 = allocations s.2.
Proof.
  apply (rebind_allocates_nothing (λ _, GLConst.FRAMEBUFFER_UNSUPPORTED)
           one_texture_configuration.1 (num_of_Z 640) (num_of_Z 480)
           one_texture_configuration.2); reflexivity.
Defined.

(** Witness for X9: a driver that accepts the configuration only while the
    history is short; the first bind returns, and a bind after two more
    binds returns as well. *)
Lemma bind_never_throws_after_success_witness :
  let driver := λ gl : GL, if (length gl <? 10)%nat then GLConst.FRAMEBUFFER_COMPLETE
                           else GLConst.FRAMEBUFFER_UNSUPPORTED in
  let s1 := final_state (FramebufferConfiguration_bind driver
                           one_texture_configuration.1 (num_of_Z 640) (num_of_Z 480)
                           one_texture_configuration.2) in
  let s2 := bind_all driver s1.1 [(num_of_Z 800, num_of_Z 600); (NaN, num_of_Z 1)] s1.2 in
  has_thrown (FramebufferConfiguration_bind driver s2.1 (num_of_Z 1) (num_of_Z 1) s2.2)
  = false.
Proof.
  intros driver s1 s2.
  apply (bind_never_throws_after_success driver
           one_texture_configuration.1 (num_of_Z 640) (num_of_Z 480)
           one_texture_configuration.2
           [(num_of_Z 800, num_of_Z 600); (NaN, num_of_Z 1)] (num_of_Z 1) (num_of_Z 1)).
  reflexivity.
Defined.

(** *** Attachment points *)

Section Attachments.
Variable framebufferStatus : GL → Z.
Local Abbreviation bind := (FramebufferConfiguration_bind framebufferStatus).






Lemma new_FramebufferConfiguration_built gl configuration :
  attachment_lists_built (new_FramebufferConfiguration gl configuration).1.
Proof.
  unfold new_FramebufferConfiguration, attachment_lists_built.
  by destruct (cfg_framebuffer configuration).
Qed.


End Attachments.


(** *** Reading pixels back *)

Section ReadBack.
Variable pixelAt : GL → number → number → Z * Z * Z * Z.

Lemma attach_color_emit b a gl :
  ∃ c, ColorBuffer_attachToFramebuffer b a gl = emit c gl ∧
       allocates c = false ∧ is_status_query c = false ∧ is_readPixels c = false.
Proof.
  destruct b; simpl; eexists; (split; [reflexivity|done]).
Qed.

(** X11. [readPixel] always ends by unbinding the framebuffer.  It throws
    exactly when the texture index is not that of a colour buffer, and then
    no pixel is read; when it returns, one [readPixels] call was made.  In
    both cases no storage is allocated and no validation is asked for. *)
Theorem readPixel_always_unbinds (this : FramebufferConfiguration) (textureIndex : nat)
    (x y : number) (gl : GL) :
  let o := readPixel pixelAt this textureIndex x y gl in
  last (final_state o) = Some (bindFramebuffer GLConst.FRAMEBUFFER None) ∧
  has_thrown o = bool_decide (length (colorBuffers this) ≤ textureIndex)%nat ∧
  count_calls is_readPixels (final_state o)
  = (count_calls is_readPixels gl + if has_thrown o then 0 else 1)%nat ∧
  allocations (final_state o) = allocations gl ∧
  validations (final_state o) = validations gl.
Proof.
  intros o. subst o. unfold readPixel, bindSingle.
  destruct (colorBuffers this !! textureIndex) as [b|] eqn:E.
  - apply lookup_lt_Some in E.
    destruct (attach_color_emit b GLConst.COLOR_ATTACHMENT0
                (Framebuffer_bind (framebuffer this) gl)) as (c & -> & Ha & Hs & Hr).
    cbn [final_state has_thrown].
    rewrite bool_decide_eq_false_2 by lia.
    unfold Framebuffer_unbind, Framebuffer_bind.
    split; [unfold emit; by rewrite last_snoc|]. split; [done|].
    rewrite !count_calls_emit, !allocations_emit, !validations_emit, Ha, Hs, Hr.
    cbn [is_readPixels allocates is_status_query]. repeat split; lia.
  - apply lookup_ge_None in E.
    cbn [final_state has_thrown].
    rewrite bool_decide_eq_true_2 by lia.
    unfold Framebuffer_unbind, Framebuffer_bind.
    split; [unfold emit; by rewrite last_snoc|]. split; [done|].
    rewrite !count_calls_emit, !allocations_emit, !validations_emit. simpl.
    repeat split; lia.
Qed.

(** X12. For a pixel of four bytes, [readPixelAsUint32] on a colour buffer of
    the configuration returns a signed 32-bit value that is congruent to the
    packed little-endian value modulo 2^32, and equal to it when the fourth
    byte is below 128: values below 2^31 are read back exactly. *)
Theorem readPixelAsUint32_signed_packed (this : FramebufferConfiguration)
    (textureIndex : nat) (x y : number) (gl : GL) (r g b a : Z) :
  (textureIndex < length (colorBuffers this))%nat →
  (∀ history, pixelAt history x y = (r, g, b, a)) →
  is_byte r → is_byte g → is_byte b → is_byte a →
  ∃ value gl',
    readPixelAsUint32 pixelAt this textureIndex x y gl = Returned value gl' ∧
    - 2 ^ 31 ≤ value < 2 ^ 31 ∧
    value mod 2 ^ 32 = packed_uint32 (r, g, b, a) ∧
    (a < 128 → value = packed_uint32 (r, g, b, a)).
Proof.
  intros Hidx Hpx Hr Hg Hb Ha.
  unfold readPixelAsUint32, readPixel, bindSingle.
  destruct (lookup_lt_is_Some_2 _ _ Hidx) as [buffer ->].
  rewrite Hpx. eexists _, _. split; [reflexivity|].
  rewrite pixel_as_number_bytes by done.
  unfold packed_uint32, is_byte in *. pow2.
  destruct (Z.ltb_spec a 128).
  - rewrite Z.sub_0_r. split; [lia|]. split; [apply Z.mod_small; lia|done].
  - split; [lia|]. split; [|lia].
    rewrite <- (Z.mod_add _ 1) by lia. rewrite Z.mod_small; lia.
Qed.

End ReadBack.

(** Witness for X12: an opaque black pixel read from the configuration with
    one texture. *)
Lemma readPixelAsUint32_signed_packed_witness :
  ∃ value gl',
    readPixelAsUint32 (λ _ _ _, (7, 1, 0, 0)) one_texture_configuration.1 0
      (num_of_Z 3) (num_of_Z 4) one_texture_configuration.2 = Returned value gl' ∧
    - 2 ^ 31 ≤ value < 2 ^ 31 ∧
    value mod 2 ^ 32 = packed_uint32 (7, 1, 0, 0) ∧
    (0 < 128 → value = packed_uint32 (7, 1, 0, 0)).
Proof.
  apply (readPixelAsUint32_signed_packed (λ _ _ _, (7, 1, 0, 0))
           one_texture_configuration.1 0 (num_of_Z 3) (num_of_Z 4)
           one_texture_configuration.2 7 1 0 0);
    try (unfold is_byte; lia).
  - vm_compute. lia.
  - reflexivity.
Defined.

(** *** The copy helper *)

Lemma texture_state_app l1 l2 st :
  texture_state (l1 ++ l2) st = texture_state l2 (texture_state l1 st).
Proof. unfold texture_state. by rewrite foldl_app. Qed.

Lemma bind_textures_state textures : ∀ i st,
  let st' := texture_state (bind_textures i textures) st in
  (∀ k t, textures !! k = Some t →
     boundTexture st' (TEXTURE0 + Z.of_nat (i + k)) = t) ∧
  (∀ u, (∀ k, (k < length textures)%nat → u ≠ TEXTURE0 + Z.of_nat (i + k)) →
     boundTexture st' u = boundTexture st u).
Proof.
  induction textures as [|t0 textures IH]; intros i st st'.
  - split; [done|]. done.
  - subst st'. cbn [bind_textures].
    change (texture_state (?a :: ?b :: ?l) st)
      with (texture_state l (texture_step (texture_step st a) b)).
    set (st1 := texture_step (texture_step st _) _).
    destruct (IH (S i) st1) as [Hin Hout].
    assert (boundTexture st1 (TEXTURE0 + Z.of_nat i) = t0) as H0.
    { subst st1. simpl. by rewrite Z.eqb_refl. }
    assert (∀ u, u ≠ TEXTURE0 + Z.of_nat i → boundTexture st1 u = boundTexture st u) as H1.
    { intros u Hu. subst st1. simpl. by rewrite (proj2 (Z.eqb_neq _ _) Hu). }
    split.
    + intros [|k] t Hk.
      * injection Hk as <-. rewrite Nat.add_0_r, Hout; [done|]. intros k _. lia.
      * replace (i + S k)%nat with (S i + k)%nat by lia. by apply Hin.
    + intros u Hu. rewrite Hout.
      * apply H1. specialize (Hu 0%nat). rewrite Nat.add_0_r in Hu. apply Hu. simpl. lia.
      * intros k Hk. replace (S i + k)%nat with (i + S k)%nat by lia. apply Hu. simpl. lia.
Qed.

Lemma unbind_textures_state n : ∀ i st,
  let st' := texture_state (unbind_textures i n) st in
  (∀ k, (k < n)%nat → boundTexture st' (TEXTURE0 + Z.of_nat (i + k)) = None) ∧
  (∀ u, (∀ k, (k < n)%nat → u ≠ TEXTURE0 + Z.of_nat (i + k)) →
     boundTexture st' u = boundTexture st u).
Proof.
  induction n as [|n IH]; intros i st st'.
  - split; [lia|done].
  - subst st'. cbn [unbind_textures].
    change (texture_state (?a :: ?b :: ?l) st)
      with (texture_state l (texture_step (texture_step st a) b)).
    set (st1 := texture_step (texture_step st _) _).
    destruct (IH (S i) st1) as [Hin Hout].
    assert (boundTexture st1 (TEXTURE0 + Z.of_nat i) = None) as H0.
    { subst st1. simpl. by rewrite Z.eqb_refl. }
    assert (∀ u, u ≠ TEXTURE0 + Z.of_nat i → boundTexture st1 u = boundTexture st u) as H1.
    { intros u Hu. subst st1. simpl. by rewrite (proj2 (Z.eqb_neq _ _) Hu). }
    split.
    + intros [|k] Hk.
      * rewrite Nat.add_0_r, Hout; [done|]. intros k _. lia.
      * replace (i + S k)%nat with (S i + k)%nat by lia. apply Hin. lia.
    + intros u Hu. rewrite Hout.
      * apply H1. specialize (Hu 0%nat). rewrite Nat.add_0_r in Hu. apply Hu. lia.
      * intros k Hk. replace (S i + k)%nat with (i + S k)%nat by lia. apply Hu. lia.
Qed.

Lemma no_drawArrays_bind textures : ∀ i,
  Forall (λ c, is_drawArrays c = false) (bind_textures i textures).
Proof. induction textures; intros i; simpl; repeat constructor. apply IHtextures. Qed.

Lemma no_drawArrays_unbind n : ∀ i,
  Forall (λ c, is_drawArrays c = false) (unbind_textures i n).
Proof. induction n; intros i; simpl; repeat constructor. apply IHn. Qed.

(** X13. [OffscreenCopyHelper.draw] issues exactly one [drawArrays] call, a
    fan of four vertices.  When that call is made, texture unit [i] holds
    the [i]-th texture passed to [draw]; when [draw] returns, every unit it
    used holds no texture, and the units it did not use hold what they held
    before, whatever the state of the context was. *)
Theorem copy_draw_binds_and_releases_textures (this : OffscreenCopyHelper)
    (textures : list (option handle)) (st : TextureUnits) :
  let calls := OffscreenCopyHelper_draw this textures in
  ∃ before after,
    calls = before ++ drawArrays TRIANGLE_FAN 0 4 :: after ∧
    Forall (λ c, is_drawArrays c = false) (before ++ after) ∧
    (∀ k t, textures !! k = Some t →
       boundTexture (texture_state before st) (TEXTURE0 + Z.of_nat k) = t) ∧
    (∀ k, (k < length textures)%nat →
       boundTexture (texture_state calls st) (TEXTURE0 + Z.of_nat k) = None) ∧
    (∀ u, (u < TEXTURE0 ∨ TEXTURE0 + Z.of_nat (length textures) ≤ u) →
       boundTexture (texture_state calls st) u = boundTexture st u).
Proof.
  intros calls. subst calls. unfold OffscreenCopyHelper_draw.
  set (mid1 := [copy_uniformMatrix4fv "uProjectionMatrix" mat4_identity;
                copy_bindToVertexAttrib (copyVertexPositionsBuffer this) "aVertexPosition" 4;
                copy_bindToVertexAttrib (copyTexCoordsBuffer this) "aTexCoord" 2]).
  set (mid2 := [copy_disableVertexAttribArray "aVertexPosition";
                copy_disableVertexAttribArray "aTexCoord"]).
  exists ([copy_shader_bind] ++ bind_textures 0 textures ++ mid1),
         (mid2 ++ unbind_textures 0 (length textures)).
  destruct (bind_textures_state textures 0 st) as [Hbin Hbout].
  split; [by rewrite <- !app_assoc|].
  split.
  { rewrite !Forall_app. repeat split; try (subst mid1 mid2; by repeat constructor).
    - apply no_drawArrays_bind.
    - apply no_drawArrays_unbind. }
  assert (∀ s, texture_state ([copy_shader_bind] ++ bind_textures 0 textures ++ mid1) s
               = texture_state (bind_textures 0 textures) s) as Hbefore.
  { intros s. by rewrite !texture_state_app. }
  split; [intros k t Hk; rewrite Hbefore; by apply (Hbin k t)|].
  set (st1 := texture_state (bind_textures 0 textures) st).
  assert (texture_state
            ([copy_shader_bind] ++ bind_textures 0 textures
             ++ (mid1 ++ [drawArrays TRIANGLE_FAN 0 4] ++ mid2)
             ++ unbind_textures 0 (length textures)) st
          = texture_state (unbind_textures 0 (length textures)) st1) as Hall.
  { by rewrite !texture_state_app. }
  change ([copy_shader_bind] ++ bind_textures 0 textures ++ _ ++ unbind_textures 0 _)
    with ([copy_shader_bind] ++ bind_textures 0 textures
          ++ (mid1 ++ [drawArrays TRIANGLE_FAN 0 4] ++ mid2)
          ++ unbind_textures 0 (length textures)).
  rewrite Hall.
  destruct (unbind_textures_state (length textures) 0 st1) as [Huin Huout].
  split; [intros k Hk; by apply (Huin k)|].
  intros u Hu. rewrite Huout by (intros k Hk; simpl; lia).
  apply Hbout. intros k Hk. simpl. lia.
Qed.

(** *** The segmentation layer: the promise callbacks *)

Lemma skeleton_layers_paired_app l1 l2 :
  skeleton_layers_paired l1 → skeleton_layers_paired l2 → skeleton_layers_paired (l1 ++ l2).
Proof.
  intros [H1 H1'] [H2 H2']. split.
  - intros i b Hi. apply lookup_app_Some in Hi as [Hi|[Hlen Hi]].
    + apply lookup_app_Some. left. by apply H1.
    + apply lookup_app_Some. right. split; [lia|].
      replace (S i - length l1)%nat with (S (i - length l1)) by lia. by apply H2.
  - intros i b Hi. apply lookup_app_Some in Hi as [Hi|[Hlen Hi]].
    + destruct (H1' i b Hi) as (j & -> & Hj). exists j. split; [done|].
      apply lookup_app_Some. by left.
    + destruct (H2' _ b Hi) as (j & Hij & Hj). exists (length l1 + j)%nat.
      split; [lia|]. apply lookup_app_Some. right. split; [lia|].
      by replace (length l1 + j - length l1)%nat with j by lia.
Qed.

Ltac nothing_added :=
  split; [done|];
  split; [intros ? Hin; by apply elem_of_nil in Hin|];
  split; [intros ? Hin; by apply elem_of_nil in Hin|];
  split; [intros ? Hin; by apply elem_of_nil in Hin|];
  split; intros ? ?; by rewrite lookup_nil.

Ltac added_eq Hd :=
  unfold addMesh, addRenderLayer; cbn; rewrite ?Hd, <- ?app_assoc; done.

(** What one fulfilled promise adds. *)
Lemma resolved_added x this r :
  ∃ added,
    resolved x this r =
      {| wasDisposed := wasDisposed this;
         addRenderLayer_calls := addRenderLayer_calls this ++ added;
         meshLayer := from_option Some (meshLayer this) (last (omap mesh_of added)) |} ∧
    (wasDisposed this = true → added = []) ∧
    (∀ m, MeshLayer m ∈ added →
       match p_mesh x with
       | Some _ => r = meshSource_resolved m
       | None => ∃ v, r = volume_resolved v ∧ volume_getMeshSource v = Some m
       end) ∧
    (∀ v, SegmentationRenderLayer v ∈ added →
       r = volume_resolved v ∧ is_Some (p_source x)) ∧
    (∀ b, PerspectiveViewSkeletonLayer b ∈ added →
       r = skeletonSource_resolved b ∧ is_Some (p_skeletons x)) ∧
    skeleton_layers_paired added.
Proof.
  assert (this =
          {| wasDisposed := wasDisposed this;
             addRenderLayer_calls := addRenderLayer_calls this ++ [];
             meshLayer := from_option Some (meshLayer this) (last (omap mesh_of [])) |})
    as Hsame by (rewrite app_nil_r; by destruct this).
  unfold resolved.
  destruct r as [v|m|b].
  - destruct (p_source x) as [src|] eqn:Hsrc.
    2:{ exists []. split; [exact Hsame|]. nothing_added. }
    unfold volume_callback. destruct (wasDisposed this) eqn:Hd; cbn [negb].
    { exists []. split; [exact Hsame|]. nothing_added. }
    destruct (p_mesh x) as [mp|] eqn:Hmesh; [|destruct (volume_getMeshSource v) as [ms|] eqn:Hms].
    + exists [SegmentationRenderLayer v]. split; [added_eq Hd|].
      split; [done|]. split; [intros m' Hin; set_solver|].
      split; [intros v' Hin; apply list_elem_of_singleton in Hin as [= ->]; eauto|].
      split; [intros b Hin; set_solver|].
      split; intros [|i] b'; simpl; intros [=].
    + exists [SegmentationRenderLayer v; MeshLayer ms]. split; [added_eq Hd|].
      split; [done|]. split.
      { intros m' Hin. exists v. split; [done|].
        apply elem_of_cons in Hin as [[=]|Hin].
        apply list_elem_of_singleton in Hin as [= ->]. done. }
      split.
      { intros v' Hin. apply elem_of_cons in Hin as [[= ->]|Hin]; [eauto|].
        by apply list_elem_of_singleton in Hin. }
      split; [intros b Hin; set_solver|].
      split; intros [|[|i]] b'; simpl; intros [=].
    + exists [SegmentationRenderLayer v]. split; [added_eq Hd|].
      split; [done|]. split; [intros m' Hin; set_solver|].
      split; [intros v' Hin; apply list_elem_of_singleton in Hin as [= ->]; eauto|].
      split; [intros b Hin; set_solver|].
      split; intros [|i] b'; simpl; intros [=].
  - destruct (p_mesh x) as [mp|] eqn:Hmesh.
    2:{ exists []. split; [exact Hsame|]. nothing_added. }
    unfold meshSource_callback. destruct (wasDisposed this) eqn:Hd; cbn [negb].
    { exists []. split; [exact Hsame|]. nothing_added. }
    exists [MeshLayer m]. split; [added_eq Hd|].
    split; [done|]. split.
    { intros m' Hin. by apply list_elem_of_singleton in Hin as [= ->]. }
    split; [intros v' Hin; set_solver|].
    split; [intros b Hin; set_solver|].
    split; intros [|i] b'; simpl; intros [=].
  - destruct (p_skeletons x) as [sp|] eqn:Hsk.
    2:{ exists []. split; [exact Hsame|]. nothing_added. }
    unfold skeletonSource_callback. destruct (wasDisposed this) eqn:Hd; cbn [negb].
    { exists []. split; [exact Hsame|]. nothing_added. }
    exists [PerspectiveViewSkeletonLayer b; SliceViewPanelSkeletonLayer b]. split; [added_eq Hd|].
    split; [done|]. split; [intros m' Hin; set_solver|].
    split; [intros v' Hin; set_solver|].
    split.
    { intros b' Hin. apply elem_of_cons in Hin as [[= ->]|Hin]; [eauto|].
      by apply list_elem_of_singleton in Hin. }
    split.
    + intros [|[|i]] b'; simpl; intros [=]. by subst.
    + intros [|[|i]] b'; simpl; intros [=]. subst. exists 0%nat. done.
Qed.

(** What a sequence of fulfilled promises adds. *)
Lemma resolved_all_added x rs : ∀ this,
  ∃ added,
    resolved_all x rs this =
      {| wasDisposed := wasDisposed this;
         addRenderLayer_calls := addRenderLayer_calls this ++ added;
         meshLayer := from_option Some (meshLayer this) (last (omap mesh_of added)) |} ∧
    (wasDisposed this = true → added = []) ∧
    (∀ m, MeshLayer m ∈ added →
       match p_mesh x with
       | Some _ => meshSource_resolved m ∈ rs
       | None => ∃ v, volume_resolved v ∈ rs ∧ volume_getMeshSource v = Some m
       end) ∧
    (∀ v, SegmentationRenderLayer v ∈ added →
       volume_resolved v ∈ rs ∧ is_Some (p_source x)) ∧
    (∀ b, PerspectiveViewSkeletonLayer b ∈ added →
       skeletonSource_resolved b ∈ rs ∧ is_Some (p_skeletons x)) ∧
    skeleton_layers_paired added.
Proof.
  induction rs as [|r rs IH]; intros this.
  - exists []. split.
    { unfold resolved_all. simpl. rewrite app_nil_r. by destruct this. }
    nothing_added.
  - destruct (resolved_added x this r) as (a0 & E0 & Hd0 & Hm0 & Hv0 & Hs0 & Hp0).
    destruct (IH (resolved x this r)) as (a1 & E1 & Hd1 & Hm1 & Hv1 & Hs1 & Hp1).
    exists (a0 ++ a1). split.
    { change (resolved_all x (r :: rs) this) with (resolved_all x rs (resolved x this r)).
      rewrite E1, E0. cbn [wasDisposed addRenderLayer_calls meshLayer].
      rewrite omap_app, last_app, app_assoc.
      by destruct (last (omap mesh_of a1)). }
    split.
    { intros Hd. rewrite Hd0 by done. rewrite Hd1; [done|]. rewrite E0. done. }
    split.
    { intros m Hin. apply elem_of_app in Hin as [Hin|Hin].
      - specialize (Hm0 m Hin). destruct (p_mesh x).
        + subst r. by left.
        + destruct Hm0 as (v & -> & Hv). exists v. split; [by left|done].
      - specialize (Hm1 m Hin). destruct (p_mesh x).
        + by right.
        + destruct Hm1 as (v & Hv & Hg). exists v. split; [by right|done]. }
    split.
    { intros v Hin. apply elem_of_app in Hin as [Hin|Hin].
      - destruct (Hv0 v Hin) as [-> ?]. split; [by left|done].
      - destruct (Hv1 v Hin) as [? ?]. split; [by right|done]. }
    split.
    { intros b Hin. apply elem_of_app in Hin as [Hin|Hin].
      - destruct (Hs0 b Hin) as [-> ?]. split; [by left|done].
      - destruct (Hs1 b Hin) as [? ?]. split; [by right|done]. }
    by apply skeleton_layers_paired_app.
Qed.

(** X14. The mesh layers of a segmentation layer come from one place.  When
    the state names a mesh, each mesh layer added comes from a mesh source
    obtained for that path, never from the volume; when it names none, each
    comes from the mesh source of a volume that was obtained.  The field
    [meshLayer] holds the mesh layer added last.  This holds for every order
    in which the promises are fulfilled. *)
Theorem mesh_layers_single_origin (x : PersistedState) (rs : list Resolution) :
  let after := resolved_all x rs new_LayerObject in
  (∀ m, MeshLayer m ∈ addRenderLayer_calls after →
     match p_mesh x with
     | Some _ => meshSource_resolved m ∈ rs
     | None => ∃ v, volume_resolved v ∈ rs ∧ volume_getMeshSource v = Some m
     end) ∧
  meshLayer after = last (omap mesh_of (addRenderLayer_calls after)).
Proof.
  intros after. subst after.
  destruct (resolved_all_added x rs new_LayerObject) as (added & -> & _ & Hm & _).
  cbn [addRenderLayer_calls meshLayer new_LayerObject app].
  split; [done|]. by destruct (last (omap mesh_of added)).
Qed.

(** X15. Once the layer is disposed, a promise that is fulfilled adds no
    render layer and leaves the layer object as it is. *)
Theorem disposed_layer_adds_nothing (x : PersistedState) (rs : list Resolution)
    (this : LayerObject) :
  wasDisposed this = true → resolved_all x rs this = this.
Proof.
  intros Hd.
  destruct (resolved_all_added x rs this) as (added & -> & Hnil & _).
  rewrite Hnil by done. rewrite app_nil_r. by destruct this.
Qed.

(** Witness for X15: a layer whose state names a volume, a mesh and
    skeletons; the volume, the mesh source and the skeleton source arrive
    after it was disposed.  (On the layer that is not disposed the same
    promises add four render layers.) *)
Lemma disposed_layer_adds_nothing_witness :
  let rs := [volume_resolved {| volume_id := 1; volume_getMeshSource := Some 2%nat |};
             skeletonSource_resolved 3; meshSource_resolved 4] in
  let this := {| wasDisposed := true; addRenderLayer_calls := []; meshLayer := None |} in
  resolved_all all_sources_state rs this = this ∧
  length (addRenderLayer_calls (resolved_all all_sources_state rs new_LayerObject)) = 4%nat.
Proof.
  intros rs this. split; [|reflexivity].
  apply (disposed_layer_adds_nothing all_sources_state rs this).
  reflexivity.
Defined.

(** X16. The render layers a segmentation layer adds are those of the sources
    its state names: a segmentation render layer only for a volume obtained
    for the ['source'] path, and skeleton layers only for a skeleton source
    obtained for the ['skeletons'] path, always as a pair on the same base,
    the perspective-view layer directly followed by the slice-view layer. *)
Theorem added_layers_follow_state (x : PersistedState) (rs : list Resolution) :
  let added := addRenderLayer_calls (resolved_all x rs new_LayerObject) in
  (∀ v, SegmentationRenderLayer v ∈ added →
     volume_resolved v ∈ rs ∧ is_Some (p_source x)) ∧
  (∀ i base, added !! i = Some (PerspectiveViewSkeletonLayer base) →
     added !! S i = Some (SliceViewPanelSkeletonLayer base) ∧
     skeletonSource_resolved base ∈ rs ∧ is_Some (p_skeletons x)) ∧
  (∀ i base, added !! i = Some (SliceViewPanelSkeletonLayer base) →
     ∃ j, i = S j ∧ added !! j = Some (PerspectiveViewSkeletonLayer base)).
Proof.
  intros added. subst added.
  destruct (resolved_all_added x rs new_LayerObject)
    as (added & -> & _ & _ & Hv & Hs & [Hp Hp']).
  cbn [addRenderLayer_calls new_LayerObject app].
  split; [done|]. split; [|done].
  intros i b Hi. split; [by apply Hp|].
  apply Hs. by apply list_elem_of_lookup_2 in Hi.
Qed.

(** *** The segmentation layer: actions and picked values *)

Section LayerActions.
Context `{DisjointUint64Sets.RepresentativeRule}.
Variable randomize : SegmentColorHash → SegmentColorHash.

(** X17. An action changes at most the colour hash or the visible set, hence
    at most the ['segments'] property of the serialization.  ['recolor'], an
    unknown action, and ['select'] without a selected segment leave the
    serialization as it is; after ['clear-segments'] the visible set is empty
    and the serialization has no ['segments'] property. *)
Theorem handleAction_persists_only_segments (this : SegmentationUserLayer)
    (action : string) :
  let after := handleAction randomize this action in
  let x := toJSON this in
  let x' := toJSON after in
  (segmentEquivalences after = segmentEquivalences this ∧
   segmentSelectionState after = segmentSelectionState this ∧
   (action ≠ "recolor"%string → segmentColorHash after = segmentColorHash this)) ∧
  (p_type x' = p_type x ∧ p_source x' = p_source x ∧ p_mesh x' = p_mesh x ∧
   p_skeletons x' = p_skeletons x ∧ p_selectedAlpha x' = p_selectedAlpha x ∧
   p_notSelectedAlpha x' = p_notSelectedAlpha x ∧ p_objectAlpha x' = p_objectAlpha x ∧
   p_equivalences x' = p_equivalences x) ∧
  (action ≠ "clear-segments"%string →
   (action = "select"%string → hasSelectedSegment (segmentSelectionState this) = false) →
   x' = x) ∧
  (action = "clear-segments"%string →
   visibleSegments after = ∅ ∧ p_segments x' = None).
Proof.
  intros after x x'. subst after x x'. unfold handleAction.
  destruct (decide (action = "recolor"%string)) as [->|Hr].
  { repeat split; try done. }
  destruct (decide (action = "clear-segments"%string)) as [->|Hc].
  { repeat split; try done. }
  destruct (decide (action = "select"%string)) as [->|Hs].
  - destruct (hasSelectedSegment (segmentSelectionState this)) eqn:Hsel.
    + destruct (Uint64Set.has _ _); repeat split; try done; intros _ Hf; by specialize (Hf eq_refl).
    + repeat split; try done.
  - repeat split; try done.
Qed.

(** X18. What [transformPickedValue] returns is settled: a value it returns
    unmapped is returned unchanged when it is transformed again, and in a
    mapped entry the key is never its own value, while the value, picked
    itself, comes back unmapped. *)
Theorem transformPickedValue_settles (this : SegmentationUserLayer) (v : PickedValue) :
  DisjointUint64Sets.wf (segmentEquivalences this) →
  match transformPickedValue this v with
  | Unmapped v' => transformPickedValue this v' = Unmapped v'
  | Mapped e =>
      entry_key e ≠ entry_value e ∧
      transformPickedValue this (PickedUint64 (entry_value e))
      = Unmapped (PickedUint64 (entry_value e))
  end.
Proof.
  intros Hwf.
  assert (∀ u, DisjointUint64Sets.size (segmentEquivalences this) ≠ 0%nat →
            DisjointUint64Sets.get (segmentEquivalences this) u = u →
            transformPickedValue this (PickedUint64 u) = Unmapped (PickedUint64 u)) as Hfix.
  { intros u Hsz Hu. unfold transformPickedValue. cbn [is_nullish].
    rewrite decide_False by done. rewrite Hu.
    by rewrite (proj2 (Uint64_equal_iff u u)). }
  unfold transformPickedValue at 1.
  destruct (is_nullish v) eqn:Hn.
  { unfold transformPickedValue. by rewrite Hn. }
  destruct (decide (DisjointUint64Sets.size (segmentEquivalences this) = 0%nat)) as [Hz|Hz].
  { unfold transformPickedValue. rewrite Hn. by rewrite decide_True. }
  cbv zeta.
  set (value := match v with
                | PickedNumber n => Uint64.mk n 0
                | PickedUint64 u => u
                | _ => Uint64.mk 0 0
                end).
  destruct (Uint64.equal _ value) eqn:E.
  - apply Uint64_equal_iff in E. by apply Hfix.
  - cbn [entry_key entry_value]. split.
    + intros Heq. rewrite <- Heq in E. rewrite (proj2 (Uint64_equal_iff value value)) in E; done.
    + apply Hfix; [done|]. by apply get_get.
Qed.

End LayerActions.

(** Witness for X18: 7 is picked on the layer in which 5 and 7 are merged. *)
Lemma transformPickedValue_settles_witness :
  match transformPickedValue merged_layer
          (PickedUint64 (Uint64.ofZ 7)) with
  | Unmapped v' =>
      transformPickedValue merged_layer v' = Unmapped v'
  | Mapped e =>
      entry_key e ≠ entry_value e ∧
      transformPickedValue merged_layer
        (PickedUint64 (entry_value e))
      = Unmapped (PickedUint64 (entry_value e))
  end.
Proof.
  apply (transformPickedValue_settles merged_layer
           (PickedUint64 (Uint64.ofZ 7))).
  apply (@wf_link DisjointUint64Sets.by_size), wf_empty.
Defined.

(** *** The skeleton layers *)

Section SkeletonFurther.
Context {D : Type} `{SegmentationDisplayStateWithAlpha D} {Color : Type}.
Variable getObjectColor : D → Uint64.t → number → Color.
Implicit Types (es : list (Uint64.t * SkeletonChunk)) (displayState : D).

Local Abbreviation draw' := (draw getObjectColor).
Local Abbreviation entries_calls' := (entries_calls getObjectColor).

Local Abbreviation no_color :=
  (filter (λ c : RenderCall Color, is_color_uniform c = false)).

Lemma entries_calls_no_color displayState pickingOnly alpha es : ∀ n,
  no_color (entries_calls' displayState pickingOnly alpha es n)
  = entries_calls' displayState true alpha es n.
Proof.
  induction es as [|e es IH]; intros n; [done|].
  cbn [entries_calls]. rewrite filter_app, IH. f_equal.
  unfold entry_calls. by destruct pickingOnly.
Qed.

Lemma entries_calls_color_count displayState alpha es : ∀ n,
  length (filter (λ c : RenderCall Color, is_color_uniform c = true)
            (entries_calls' displayState false alpha es n)) = length es.
Proof.
  induction es as [|e es IH]; intros n; [done|].
  cbn [entries_calls]. rewrite filter_app, length_app, IH. done.
Qed.

Lemma entries_calls_skeleton_calls displayState pickingOnly alpha es : ∀ n,
  Forall (λ c, is_skeleton_call c = true) (entries_calls' displayState pickingOnly alpha es n).
Proof.
  induction es as [|e es IH]; intros n; [done|].
  cbn [entries_calls]. apply Forall_app. split; [|apply IH].
  unfold entry_calls. destruct pickingOnly; repeat constructor.
Qed.

(** X19. With the same line width, a picking-only pass and a colour pass
    over the same state draw the same skeletons: they leave the same pick
    table, and the calls of the picking pass are those of the colour pass
    without the colour uniforms.  The colour pass sets one colour for each
    draw operation, the picking pass none. *)
Theorem picking_pass_same_skeletons (this : SkeletonLayer D)
    (renderContext : SliceViewPanelRenderContext) (layer : RenderLayer) (w : number) :
  let colour := draw getObjectColor this renderContext layer false (Some w) in
  let picking := draw getObjectColor this renderContext layer true (Some w) in
  picking.2 = colour.2 ∧
  no_color colour.1 = picking.1 ∧
  length (filter (λ c, is_color_uniform c = true) colour.1) = draw_operations colour.1 ∧
  Forall (λ c, is_color_uniform c = false) picking.1.
Proof.
  intros colour picking. subst colour picking. rewrite !draw_cases.
  destruct (num_le _ (num_of_Z 0)); cbn [fst snd]; [by repeat split|].
  split; [done|]. split; [|split].
  - rewrite !filter_app, entries_calls_no_color. done.
  - rewrite !filter_app, !length_app, !draw_operations_app.
    rewrite entries_calls_color_count, draw_operations_entries. done.
  - rewrite <- (entries_calls_no_color (displayState this) true).
    rewrite !Forall_app. split; [by repeat constructor|].
    split; [|by repeat constructor].
    apply Forall_forall. intros c Hc. by apply list_elem_of_filter in Hc as [Hc _].
Qed.

(** X20. A pass that is not skipped is bracketed: it binds the shader, sets
    the projection and the line width, then makes only the calls of the
    skeletons it draws, and ends by disabling the vertex attribute.  The
    line width is the one given, or else 5 for a picking-only pass and 1
    otherwise; the slice-view layer always draws with width 10. *)
Theorem draw_is_bracketed (this : SkeletonLayer D)
    (renderContext : SliceViewPanelRenderContext) (layer : RenderLayer)
    (pickingOnly : bool) (lineWidth_ : option number) :
  let alpha := math_min (num_of_Z 1) (ds_objectAlpha (displayState this)) in
  let expected :=
    default (if pickingOnly then num_of_Z 5 else num_of_Z 1) lineWidth_ in
  let objectToDataMatrix :=
    if skeletonVertexCoordinatesInVoxels (source this)
    then mat4_scale mat4_identity (voxelSize this) else mat4_identity in
  (∃ body,
     Forall (λ c, is_skeleton_call c = true) body ∧
     (draw getObjectColor this renderContext layer pickingOnly lineWidth_).1 =
     if num_le alpha (num_of_Z 0) then []
     else [shader_bind;
           uniformMatrix4fv "uProjection"
             (mat4_multiply (dataToDevice renderContext) objectToDataMatrix);
           lineWidth expected]
          ++ body ++ [disableVertexAttribArray "aVertexPosition"]) ∧
  (∀ w, lineWidth w ∈ (SliceViewPanel_draw getObjectColor this layer renderContext).1 →
        w = num_of_Z 10).
Proof.
  intros alpha expected objectToDataMatrix. split.
  - exists (entries_calls' (displayState this) pickingOnly alpha
              (to_draw (displayState this) (chunks (source this)))
              (length (pickEntries (pickIDs renderContext)))).
    split; [apply entries_calls_skeleton_calls|].
    rewrite draw_cases. fold alpha.
    destruct (num_le alpha (num_of_Z 0)); cbn [fst]; [done|].
    subst expected objectToDataMatrix. by destruct lineWidth_.
  - intros w. unfold SliceViewPanel_draw. rewrite draw_cases.
    destruct (num_le _ (num_of_Z 0)); cbn [fst]; [by intros ?%elem_of_nil|].
    rewrite !elem_of_app. intros [Hw|[Hw|Hw]].
    + rewrite !elem_of_cons, elem_of_nil in Hw. naive_solver.
    + pose proof (entries_calls_skeleton_calls (displayState this) false
                    (math_min (num_of_Z 1) (ds_objectAlpha (displayState this)))
                    (to_draw (displayState this) (chunks (source this)))
                    (length (pickEntries (pickIDs renderContext)))) as Hall.
      rewrite Forall_forall in Hall. by specialize (Hall _ Hw).
    + unfold endLayer in Hw. rewrite !elem_of_cons, elem_of_nil in Hw. naive_solver.
Qed.

(** X21. A pass only extends the pick table, by one entry of its own layer
    for each draw operation, and the tags it uses are those of the new
    entries: what was registered before keeps its tag, and no tag handed
    out before is used again. *)
Theorem draw_extends_pick_table (this : SkeletonLayer D)
    (renderContext : SliceViewPanelRenderContext) (layer : RenderLayer)
    (pickingOnly : bool) (lineWidth_ : option number) :
  let before := pickIDs renderContext in
  let result := draw getObjectColor this renderContext layer pickingOnly lineWidth_ in
  ∃ new,
    pickEntries result.2 = pickEntries before ++ new ∧
    length new = draw_operations result.1 ∧
    Forall (λ p, p.1 = layer) new ∧
    (∀ pickID, (pickID < length (pickEntries before))%nat →
       PickIDManager_lookup result.2 pickID = PickIDManager_lookup before pickID) ∧
    (∀ pickID, uniform4fv_pickID "uPickID" pickID ∈ result.1 →
       (length (pickEntries before) ≤ pickID < length (pickEntries before) + length new)%nat).
Proof.
  intros before result. subst before result. rewrite draw_cases.
  destruct (num_le _ (num_of_Z 0)); cbn [fst snd].
  { exists []. rewrite app_nil_r. do 4 (split; [done|]).
    intros pickID Hp. by apply elem_of_nil in Hp. }
  set (es := to_draw (displayState this) (chunks (source this))).
  exists ((λ e, (layer, e.1)) <$> es). cbn [pickEntries].
  split; [done|]. split.
  { rewrite !draw_operations_app, draw_operations_entries, length_fmap.
    unfold draw_operations. simpl. lia. }
  split; [by apply Forall_fmap, Forall_forall|].
  split.
  { intros pickID Hlt. unfold PickIDManager_lookup. cbn [pickEntries].
    by rewrite lookup_app_l. }
  intros pickID. rewrite !elem_of_app. intros [Hp|[Hp|Hp]].
  - rewrite !elem_of_cons, elem_of_nil in Hp. naive_solver.
  - destruct (entries_calls_pickID _ _ _ _ _ _ _ Hp) as (j & e & Hj & ->).
    apply lookup_lt_Some in Hj. rewrite length_fmap. lia.
  - unfold endLayer in Hp. rewrite !elem_of_cons, elem_of_nil in Hp. naive_solver.
Qed.

Lemma entries_calls_color displayState pickingOnly alpha es : ∀ n name c,
  uniform4fv_color name c ∈ entries_calls' displayState pickingOnly alpha es n →
  ∃ rootObjectId, c = getObjectColor displayState rootObjectId alpha.
Proof.
  induction es as [|e es IH]; intros n name c; cbn [entries_calls].
  - by intros ?%elem_of_nil.
  - intros [Hc|Hc]%elem_of_app; [|by eapply IH].
    revert Hc. unfold entry_calls, setColor, drawSkeleton.
    destruct pickingOnly; simpl; rewrite ?elem_of_cons, elem_of_nil; naive_solver.
Qed.

Lemma num_le_min_one_iff a :
  num_le (math_min (num_of_Z 1) a) (num_of_Z 0) = num_le a (num_of_Z 0).
Proof.
  destruct a as [|q]; [done|]. unfold num_le, math_min, num_of_Z.
  destruct (Qle_bool (inject_Z 1) q) eqn:E; [|done].
  destruct (Qle_bool q (inject_Z 0)) eqn:E0; [|done].
  apply Qle_bool_iff in E, E0. by pose proof (Qle_trans _ _ _ E E0).
Qed.

(** X22. The object opacity decides whether a pass draws and with which
    opacity.  The pass is skipped exactly when the opacity is at most zero,
    and a skipped layer counts as transparent.  Every colour is requested
    with the opacity capped at 1; for a numeric opacity a pass that draws
    uses a value above 0 and at most 1, which is exactly 1 when the layer
    does not count as transparent.  A [NaN] opacity is not skipped: the
    layer counts as opaque and its colours are requested with [NaN]. *)
Theorem opacity_skip_and_transparency (this : SkeletonLayer D)
    (renderContext : SliceViewPanelRenderContext) (layer : RenderLayer)
    (pickingOnly : bool) (lineWidth_ : option number) :
  let objectAlpha := ds_objectAlpha (displayState this) in
  let alpha := math_min (num_of_Z 1) objectAlpha in
  let result := draw getObjectColor this renderContext layer pickingOnly lineWidth_ in
  (result.1 = [] ↔ num_le objectAlpha (num_of_Z 0) = true) ∧
  (result.1 = [] → PerspectiveView_isTransparent this = true) ∧
  (∀ name c, uniform4fv_color name c ∈ result.1 →
     ∃ rootObjectId, c = getObjectColor (displayState this) rootObjectId alpha) ∧
  (is_number objectAlpha = true → result.1 ≠ [] →
     num_lt (num_of_Z 0) alpha = true ∧ num_le alpha (num_of_Z 1) = true ∧
     (PerspectiveView_isTransparent this = false → alpha = num_of_Z 1)) ∧
  (objectAlpha = NaN →
     result.1 ≠ [] ∧ alpha = NaN ∧ PerspectiveView_isTransparent this = false).
Proof.
  intros objectAlpha alpha result.
  assert (result.1 = [] ↔ num_le objectAlpha (num_of_Z 0) = true) as Hskip.
  { subst result. rewrite draw_cases. fold objectAlpha.
    rewrite num_le_min_one_iff.
    destruct (num_le objectAlpha (num_of_Z 0)); cbn [fst]; [done|].
    split; [|done]. intros Hnil. discriminate Hnil. }
  split; [exact Hskip|]. split; [|split; [|split]].
  - rewrite Hskip. unfold PerspectiveView_isTransparent. fold objectAlpha.
    destruct objectAlpha as [|q]; [done|]. unfold num_le, num_lt, num_of_Z.
    intros Hq%Qle_bool_iff.
    destruct (Qle_bool (inject_Z 1) q) eqn:E; [|done].
    apply Qle_bool_iff in E. by pose proof (Qle_trans _ _ _ E Hq).
  - intros name c. subst result. rewrite draw_cases. fold objectAlpha alpha.
    destruct (num_le alpha (num_of_Z 0)); cbn [fst]; [by intros ?%elem_of_nil|].
    rewrite !elem_of_app. intros [Hc|[Hc|Hc]].
    + rewrite !elem_of_cons, elem_of_nil in Hc. naive_solver.
    + by eapply entries_calls_color.
    + unfold endLayer in Hc. rewrite !elem_of_cons, elem_of_nil in Hc. naive_solver.
  - intros Hnum Hdraw.
    assert (num_le objectAlpha (num_of_Z 0) = false) as Hpos.
    { apply not_true_is_false. intros E. by apply Hskip in E. }
    unfold PerspectiveView_isTransparent. fold objectAlpha. subst alpha.
    destruct objectAlpha as [|q]; [done|].
    unfold num_le, num_lt, math_min, num_of_Z in *.
    destruct (Qle_bool (inject_Z 1) q) eqn:E.
    + split; [done|]. split; [|done]. apply Qle_bool_iff, Qle_refl.
    + rewrite Hpos. split; [done|]. split; [|done].
      apply Qle_bool_iff. apply Qlt_le_weak, Qnot_le_lt.
      intros Hle%Qle_bool_iff. congruence.
  - intros Hnan. split; [|split].
    + intros Hnil%Hskip. by rewrite Hnan in Hnil.
    + subst alpha. by rewrite Hnan.
    + unfold PerspectiveView_isTransparent. fold objectAlpha. by rewrite Hnan.
Qed.

End SkeletonFurther.

(** The shader cache of the perspective-view layer. *)

Section ShaderCache.
Context {G : Type}.
Variable manager_getShader : ShaderModule → G → ShaderProgram * G.

Local Abbreviation getShader := (PerspectiveView_getShader manager_getShader).
Local Abbreviation getShader_all' := (getShader_all manager_getShader).

Lemma getShader_keeps emitter e shader (st : gmap ShaderModule ShaderProgram * G) :
  st.1 !! e = Some shader → (getShader emitter st).2.1 !! e = Some shader.
Proof.
  destruct st as [shaders g]. cbn [fst]. intros He. unfold PerspectiveView_getShader.
  destruct (shaders !! emitter) as [s0|] eqn:E; [done|].
  destruct (manager_getShader emitter g) as [s1 g1]. cbn [fst snd].
  rewrite lookup_insert_ne; [done|]. intros ->. congruence.
Qed.

Lemma getShader_all_keeps emitters e shader : ∀ st : gmap ShaderModule ShaderProgram * G,
  st.1 !! e = Some shader → (getShader_all' emitters st).1 !! e = Some shader.
Proof.
  induction emitters as [|e0 emitters IH]; intros st He; [done|].
  apply IH. by apply getShader_keeps.
Qed.

Lemma getShader_hit emitter shader (st : gmap ShaderModule ShaderProgram * G) :
  st.1 !! emitter = Some shader → getShader emitter st = (shader, st).
Proof.
  destruct st as [shaders g]. cbn [fst]. intros He.
  unfold PerspectiveView_getShader. by rewrite He.
Qed.

(** X23. The perspective-view layer asks the shader manager once for each
    emitter.  After a first request for an emitter, a later request for it,
    whatever was requested in between, returns the same shader and changes
    neither the map of the layer nor the state of the context; an entry of
    the map is never replaced; and requests for emitters that are all in the
    map change nothing. *)
Theorem getShader_cached (emitter : ShaderModule) (between : list ShaderModule)
    (st : gmap ShaderModule ShaderProgram * G) :
  let first := PerspectiveView_getShader manager_getShader emitter st in
  let st' := getShader_all manager_getShader between first.2 in
  let again := PerspectiveView_getShader manager_getShader emitter st' in
  again = (first.1, st') ∧
  (∀ e shader, st.1 !! e = Some shader → st'.1 !! e = Some shader) ∧
  (Forall (λ e, is_Some (st.1 !! e)) (emitter :: between) → st' = st).
Proof.
  intros first st' again.
  assert (first.2.1 !! emitter = Some first.1) as Hfirst.
  { subst first. destruct st as [shaders g]. unfold PerspectiveView_getShader.
    destruct (shaders !! emitter) as [s0|] eqn:E; [done|].
    destruct (manager_getShader emitter g) as [s1 g1]. cbn [fst snd].
    by rewrite lookup_insert_eq. }
  split; [|split].
  - subst again. apply getShader_hit. subst st'. by apply getShader_all_keeps.
  - intros e shader He. subst st'. apply getShader_all_keeps.
    subst first. by apply getShader_keeps.
  - intros Hall. apply Forall_cons in Hall as [[s0 Hs0] Hall].
    assert (first.2 = st) as Hf.
    { subst first. by rewrite (getShader_hit emitter s0 st Hs0). }
    subst st'. rewrite Hf. clear -Hall.
    induction between as [|e between IH]; [done|].
    apply Forall_cons in Hall as [[s1 Hs1] Hall].
    cbn [getShader_all foldl]. rewrite (getShader_hit e s1 st Hs1). cbn [snd].
    by apply IH.
Qed.

End ShaderCache.

(** *** The NIfTI parameters *)

Lemma substring_all (s : string) : String.substring 0 (String.length s) s = s.
Proof. induction s as [|a s IH]; [done|]. simpl. by rewrite IH. Qed.

Lemma append_cancel (a b c : string) : String.append a b = String.append a c → b = c.
Proof. induction a as [|x a IH]; [done|]. intros [= Heq]. by apply IH. Qed.

Lemma substring_append (a b : string) n :
  String.substring (String.length a) n (String.append a b) = String.substring 0 n b.
Proof. induction a as [|x a IH]; [done|]. exact IH. Qed.

Lemma substring_prefix (a b : string) :
  String.substring 0 (String.length a) (String.append a b) = a.
Proof.
  induction a as [|x a IH]; [by destruct b|].
  change (String x (String.substring 0 (String.length a) (String.append a b)) = String x a).
  by rewrite IH.
Qed.

(** X24. [VolumeSourceParameters.stringify] names a source by its URL and by
    nothing else: two parameter objects have the same string exactly when
    they are the same, and the URL is what follows the six characters of the
    prefix ["nifti:"]. *)
Theorem stringify_identifies_url (p q : VolumeSourceParameters) :
  (VolumeSourceParameters_stringify p = VolumeSourceParameters_stringify q ↔ p = q) ∧
  String.substring 6 (String.length (url p)) (VolumeSourceParameters_stringify p) = url p ∧
  String.substring 0 6 (VolumeSourceParameters_stringify p) = "nifti:"%string.
Proof.
  unfold VolumeSourceParameters_stringify. split; [|split].
  - split; [|by intros ->]. destruct p as [u], q as [u']. cbn [url].
    by intros ->%append_cancel.
  - rewrite (substring_append "nifti:" (url p)). apply substring_all.
  - apply (substring_prefix "nifti:").
Qed.
